(** * Sign-In with Ethereum: message model, serializer and verification

    A shallow embedding of [packages/siwe/lib/client.ts] (class
    [SiweMessage]): the constructor, [toMessage], [prepareMessage] and
    [verify], and the properties of the specification that concern them. *)

From Stdlib Require Import Strings.String Strings.Ascii Lists.List ZArith Bool Lia.
From Stdlib Require Import Numbers.DecimalString Numbers.DecimalZ Numbers.DecimalN.
Import ListNotations.

Open Scope list_scope.
Open Scope string_scope.

(** ** JavaScript values *)

Module Js.

(** The line feed ['\n']. *)
Definition LF : string := String "010"%char "".

(** Truthiness of a string-or-undefined value: [undefined] and [''] are
    falsy. *)
Definition truthy (v : option string) : bool :=
  match v with
  | Some s => negb (s =? "")
  | None => false
  end.

(** [`${v}`]: a template literal renders [undefined] by its name. *)
Definition tpl (v : option string) : string :=
  match v with
  | Some s => s
  | None => "undefined"
  end.

(** An element of an array under [Array.prototype.join]: [undefined]
    is rendered as the empty string. *)
Definition elt (v : option string) : string :=
  match v with
  | Some s => s
  | None => ""
  end.

(** [a.join(sep)] on an array of strings. *)
Definition join (sep : string) (a : list string) : string :=
  String.concat sep a.

(** [a.push(x)], as the array it leaves. *)
Definition push (a : list string) (x : string) : list string :=
  (a ++ [x])%list.

(** [a || b] on strings. *)
Definition or_else (a b : string) : string :=
  if a =? "" then b else a.

(** [String(n)] of an integer is its decimal numeral. *)
Definition num_to_string (n : Z) : string :=
  NilZero.string_of_int (Z.to_int n).

(** Numbers: the integers and, of the numbers that are no integers,
    [NaN], the two infinities and the fractions that [String] shows in
    positional notation, known by their sign, their whole part and the
    digits after the point. *)
Inductive Number : Type :=
| Int (z : Z)
| Fraction (negative : bool) (whole : N) (digits : Decimal.uint)
| NaN
| Infinity (negative : bool).

(** [String(n)] *)
Definition number_to_string (n : Number) : string :=
  match n with
  | Int z => num_to_string z
  | Fraction negative whole digits =>
      (if negative then "-" else "")
      ++ NilZero.string_of_uint (N.to_uint whole) ++ "."
      ++ NilEmpty.string_of_uint digits
  | NaN => "NaN"
  | Infinity negative => if negative then "-Infinity" else "Infinity"
  end.

(** What the field [chainId] holds: the class types it as a number,
    the types are not checked when the code runs, and the constructor
    expects callers that put a string there (line 95). *)
Inductive ChainId : Type :=
| chain_number (n : Number)
| chain_string (s : string).

(** ['lit' + v] where [v] is a number, a string or [undefined]. *)
Definition num_tpl (v : option ChainId) : string :=
  match v with
  | Some (chain_number n) => number_to_string n
  | Some (chain_string s) => s
  | None => "undefined"
  end.

End Js.
Import Js.

(** ** Completions and effects

    A call either returns or throws.  The constructor and the serializer
    draw nonces and read the clock, so they run in a state monad over
    the number of draws and readings made so far. *)

(** The members of [SiweErrorType] that [client.ts] raises. *)
Inductive SiweErrorType : Type :=
| EXPIRED_MESSAGE
| DOMAIN_MISMATCH
| NONCE_MISMATCH
| NOT_YET_VALID_MESSAGE
| INVALID_SIGNATURE
| SCHEME_MISMATCH.

(** A thrown value: [new Error(message)] or
    [new SiweError(type, expected, received)]. *)
Inductive JsError : Type :=
| Error (message : string)
| SiweError (type : SiweErrorType) (expected received : option string).

Inductive Result (A : Type) : Type :=
| Ok (a : A)
| Throws (e : JsError).
Arguments Ok {A} a.
Arguments Throws {A} e.

Record World : Type := mkWorld {
  rng_calls : nat;
  clock_calls : nat
}.

Definition Eff (A : Type) : Type := World -> Result A * World.

Definition ret {A} (a : A) : Eff A := fun w => (Ok a, w).

Definition throw {A} (e : JsError) : Eff A := fun w => (Throws e, w).

Definition bind {A B} (c : Eff A) (k : A -> Eff B) : Eff B :=
  fun w =>
    match c w with
    | (Ok a, w') => k a w'
    | (Throws e, w') => (Throws e, w')
    end.

Notation "x <- c ;; k" := (bind c (fun x => k))
  (at level 61, c at next level, right associativity).

(** ** The message model *)

(** The fields of [class SiweMessage].  A field the class types as
    [string] or [number] still holds [undefined] when the
    [Partial<SiweMessage>] given to the constructor omits it, so every
    field is an option. *)
Record SiweMessage : Type := mkSiweMessage {
  scheme : option string;
  domain : option string;
  address : option string;
  statement : option string;
  uri : option string;
  version : option string;
  chainId : option ChainId;
  nonce : option string;
  issuedAt : option string;
  expirationTime : option string;
  notBefore : option string;
  requestId : option string;
  resources : option (list string)
}.

Definition set_nonce (m : SiweMessage) (v : option string) : SiweMessage :=
  mkSiweMessage (scheme m) (domain m) (address m) (statement m) (uri m)
    (version m) (chainId m) v (issuedAt m) (expirationTime m)
    (notBefore m) (requestId m) (resources m).

Definition set_issuedAt (m : SiweMessage) (v : option string) : SiweMessage :=
  mkSiweMessage (scheme m) (domain m) (address m) (statement m) (uri m)
    (version m) (chainId m) (nonce m) v (expirationTime m)
    (notBefore m) (requestId m) (resources m).

(** An opaque handle on a chain provider. *)
Inductive Provider : Type :=
| provider_handle (id : nat).

(** How an awaited promise ends: fulfilled, rejected, or never settled. *)
Inductive Settlement (A R : Type) : Type :=
| Fulfilled (a : A)
| Rejected (r : R)
| Pending.
Arguments Fulfilled {A R} a.
Arguments Rejected {A R} r.
Arguments Pending {A R}.

(** The collaborators of [client.ts]: the nonce generator of [./utils],
    the clock and the [Date] built-ins, [verifyMessage] of
    [./ethersCompat] and [checkContractWalletSignature] of [./utils].
    The [n]-th call of [generateNonce] and the [n]-th reading of the clock
    are given by streams. *)
Record Env : Type := mkEnv {
  generateNonce_at : nat -> Result string;
  now_at : nat -> Z;
  toISOString : Z -> string;
  getTime : string -> option Z;
  verifyMessage : option string -> string -> Result string;
  checkContractWalletSignature :
    SiweMessage -> string -> option Provider -> Settlement bool JsError
}.

(** [generateNonce()] *)
Definition generateNonce (E : Env) : Eff string :=
  fun w =>
    (generateNonce_at E (rng_calls w),
     mkWorld (S (rng_calls w)) (clock_calls w)).

(** [new Date()], as milliseconds since the epoch. *)
Definition new_Date (E : Env) : Eff Z :=
  fun w =>
    (Ok (now_at E (clock_calls w)),
     mkWorld (rng_calls w) (S (clock_calls w))).

(** ** The serializer *)

Definition header_suffix : string :=
  " wants you to sign in with your Ethereum account:".

(** [toMessage()], lines 112-163.  It returns the text together with
    [this] as the call leaves it: a falsy [nonce] and a falsy [issuedAt]
    are filled in on the object. *)
Definition toMessage (E : Env) (this : SiweMessage) : Eff (string * SiweMessage) :=
  let headerPrefix :=
    if truthy (scheme this)
    then tpl (scheme this) ++ "://" ++ tpl (domain this)
    else tpl (domain this) in
  let header := headerPrefix ++ header_suffix in
  let uriField := "URI: " ++ tpl (uri this) in
  let prefix := join LF [header; elt (address this)] in
  let versionField := "Version: " ++ tpl (version this) in
  this <- (if truthy (nonce this) then ret this
           else n <- generateNonce E ;; ret (set_nonce this (Some n))) ;;
  let chainField := or_else ("Chain ID: " ++ num_tpl (chainId this)) "1" in
  let nonceField := "Nonce: " ++ tpl (nonce this) in
  let suffixArray := [uriField; versionField; chainField; nonceField] in
  this <- (if truthy (issuedAt this) then ret this
           else t <- new_Date E ;;
                ret (set_issuedAt this (Some (toISOString E t)))) ;;
  let suffixArray := push suffixArray ("Issued At: " ++ tpl (issuedAt this)) in
  let suffixArray :=
    if truthy (expirationTime this)
    then push suffixArray ("Expiration Time: " ++ tpl (expirationTime this))
    else suffixArray in
  let suffixArray :=
    if truthy (notBefore this)
    then push suffixArray ("Not Before: " ++ tpl (notBefore this))
    else suffixArray in
  let suffixArray :=
    if truthy (requestId this)
    then push suffixArray ("Request ID: " ++ tpl (requestId this))
    else suffixArray in
  let suffixArray :=
    match resources this with
    | Some rs =>
        push suffixArray
          (join LF ("Resources:" :: map (fun x => "- " ++ x) rs))
    | None => suffixArray
    end in
  let suffix := join LF suffixArray in
  let prefix := join (LF ++ LF) [prefix; elt (statement this)] in
  let prefix :=
    match statement this with
    | Some _ => prefix ++ LF
    | None => prefix
    end in
  ret (join LF [prefix; suffix], this).

(** [prepareMessage()], lines 171-185: every version takes the same
    serializer. *)
Definition prepareMessage (E : Env) (this : SiweMessage) : Eff (string * SiweMessage) :=
  if elt (version this) =? "1" then toMessage E this else toMessage E this.

(** ** Verification: parameters, options and results *)

(** [data: this] in a response is a reference to the message object, not
    a copy of its fields; a response made by the caller's fallback may
    carry any other message. *)
Inductive MessageRef : Type :=
| this_object
| other_object (m : SiweMessage).

(** [SiweResponse] *)
Record SiweResponse : Type := mkResponse {
  success : bool;
  data : MessageRef;
  error : option JsError
}.

(** [VerifyParams]; [other_keys] are the keys of the object besides the
    five named ones. *)
Module VerifyParams.
Record t : Type := mk {
  signature : string;
  scheme : option string;
  domain : option string;
  nonce : option string;
  time : option string;
  other_keys : list string
}.
End VerifyParams.

(** [VerifyOpts] without its [verificationFallback], which is the part of
    the options the fallback itself is handed. *)
Module VerifyOpts.
Record base : Type := mkBase {
  suppressExceptions : option bool;
  provider : option Provider;
  other_keys : list string
}.

(** What a call of the fallback gives back: [undefined], or a promise
    that is fulfilled with a response (or a falsy value, [None]),
    rejected with one, or never settled. *)
Definition FallbackReturn : Type :=
  option (Settlement (option SiweResponse) (option SiweResponse)).

(** [verificationFallback(params, opts, message, EIP1271Promise)].  The
    last argument stands for the promise of the contract-wallet proof:
    the response it is fulfilled with, [None] when it never settles. *)
Definition Fallback : Type :=
  VerifyParams.t -> base -> SiweMessage -> option SiweResponse ->
  FallbackReturn.

Record t : Type := mk {
  fields : base;
  verificationFallback : option Fallback
}.
End VerifyOpts.

(** The default value of [opts]: [{ suppressExceptions: false }]. *)
Definition default_opts : VerifyOpts.t :=
  VerifyOpts.mk (VerifyOpts.mkBase (Some false) None []) None.

Definition present {A} (name : string) (v : option A) : list string :=
  match v with
  | Some _ => [name]
  | None => []
  end.

(** [Object.keys(params)] *)
Definition params_keys (p : VerifyParams.t) : list string :=
  ("signature"
     :: present "scheme" (VerifyParams.scheme p)
     ++ present "domain" (VerifyParams.domain p)
     ++ present "nonce" (VerifyParams.nonce p)
     ++ present "time" (VerifyParams.time p)
     ++ VerifyParams.other_keys p)%list.

(** [Object.keys(opts)] *)
Definition opts_keys (o : VerifyOpts.t) : list string :=
  (present "suppressExceptions"
     (VerifyOpts.suppressExceptions (VerifyOpts.fields o))
     ++ present "provider" (VerifyOpts.provider (VerifyOpts.fields o))
     ++ present "verificationFallback" (VerifyOpts.verificationFallback o)
     ++ VerifyOpts.other_keys (VerifyOpts.fields o))%list.

(** Modelled from the spec: [VerifyParamsKeys] and [VerifyOptsKeys] of
    [./types], the recognized keys listed in the external interfaces. *)
Definition VerifyParamsKeys : list string :=
  ["signature"; "scheme"; "domain"; "nonce"; "time"].

Definition VerifyOptsKeys : list string :=
  ["provider"; "suppressExceptions"; "verificationFallback"].

(** Modelled from the spec: [checkInvalidKeys] of [./utils], which
    returns the keys present in the record but absent from the
    enumeration. *)
Definition checkInvalidKeys (obj_keys keys : list string) : list string :=
  filter (fun k => negb (existsb (String.eqb k) keys)) obj_keys.

(** ** The promise of one call of [verify] *)

Inductive Outcome : Type :=
| Resolves (r : SiweResponse)
| Rejects (r : SiweResponse).

(** What a call does besides settling: the calls of [resolve] and
    [reject], of [console.error], and of the two adapters and the
    fallback, in the order they happen. *)
Inductive Event : Type :=
| EvResolve (r : SiweResponse)
| EvReject (r : SiweResponse)
| EvConsoleError (e : JsError)
| EvVerifyMessage (message : option string) (signature : string)
| EvCheckContractWallet (m : SiweMessage) (signature : string)
    (provider : option Provider)
| EvFallback (m : SiweMessage) (EIP1271 : option SiweResponse).

(** The promise under construction: a promise settles once, and a later
    [resolve] or [reject] leaves it as it is. *)
Record Promise : Type := mkPromise {
  settled : option Outcome;
  events : list Event
}.

Definition new_Promise : Promise := mkPromise None [].

Definition emit (ev : Event) (x : Promise) : Promise :=
  mkPromise (settled x) (events x ++ [ev])%list.

Definition settle (o : Outcome) (x : Promise) : Promise :=
  mkPromise
    (match settled x with
     | Some first => Some first
     | None => Some o
     end)
    (events x).

Definition resolve (r : SiweResponse) (x : Promise) : Promise :=
  settle (Resolves r) (emit (EvResolve r) x).

Definition reject (r : SiweResponse) (x : Promise) : Promise :=
  settle (Rejects r) (emit (EvReject r) x).

(** Truthiness of [opts.suppressExceptions]. *)
Definition suppresses (o : VerifyOpts.t) : bool :=
  match VerifyOpts.suppressExceptions (VerifyOpts.fields o) with
  | Some b => b
  | None => false
  end.

(** [fail], lines 197-203. *)
Definition fail (opts : VerifyOpts.t) (result : SiweResponse) (x : Promise) : Promise :=
  if suppresses opts then resolve result x else reject result x.

(** A failed response on [this]. *)
Definition failure (e : JsError) : SiweResponse :=
  mkResponse false this_object (Some e).

(** The [SiweError]s of the two temporal checks, lines 280-284 and
    296-300, for a check time [c] and a bound [b]. *)
Definition expired_error (E : Env) (c b : Z) : JsError :=
  SiweError EXPIRED_MESSAGE
    (Some (toISOString E c ++ " < " ++ toISOString E b))
    (Some (toISOString E c ++ " >= " ++ toISOString E b)).

Definition not_yet_valid_error (E : Env) (c b : Z) : JsError :=
  SiweError NOT_YET_VALID_MESSAGE
    (Some (toISOString E c ++ " >= " ++ toISOString E b))
    (Some (toISOString E c ++ " < " ++ toISOString E b)).

Definition invalid_keys_error (invalid : list string) (what : string) : JsError :=
  Error (join ", " invalid ++ " is/are not valid key(s) for " ++ what ++ ".").

(** [v !== w] on string-or-undefined values. *)
Definition differs (v w : option string) : bool :=
  match v, w with
  | Some a, Some b => negb (a =? b)
  | None, None => false
  | _, _ => true
  end.

(** [new Date(time || new Date())], as its [getTime()]: [None] is the
    [NaN] of an invalid date.  The clock is read only when [time] is
    falsy. *)
Definition check_time (E : Env) (time : option string) (w : World) : option Z * World :=
  if truthy time then (getTime E (tpl time), w)
  else (Some (now_at E (clock_calls w)),
        mkWorld (rng_calls w) (S (clock_calls w))).

(** The response of the contract-wallet proof, lines 329-357: the promise
    [EIP1271Promise] is fulfilled with it, or never settles. *)
Definition EIP1271Promise (this : SiweMessage) (addr : option string)
    (proof : Settlement bool JsError) : option SiweResponse :=
  match proof with
  | Fulfilled isValid =>
      if negb isValid
      then Some (failure
                   (SiweError INVALID_SIGNATURE addr
                      (Some ("Resolved address to be " ++ tpl (address this)))))
      else Some (mkResponse true this_object None)
  | Rejected e => Some (failure e)
  | Pending => None
  end.

(** The second element of the array given to [Promise.all], lines
    361-364: [None] when it never settles, [Some v] for the value [v] it
    is fulfilled with ([v] is [None] for a falsy value). *)
Definition fallback_element (ret : VerifyOpts.FallbackReturn) : option (option SiweResponse) :=
  match ret with
  | None => Some None
  | Some (Fulfilled res) => Some res
  | Some (Rejected res) => Some res
  | Some Pending => None
  end.

(** The callback of [Promise.all(...).then], lines 365-379. *)
Definition join_proofs (opts : VerifyOpts.t)
    (EIP1271Response : SiweResponse) (fallbackResponse : option SiweResponse)
    (x : Promise) : Promise :=
  match fallbackResponse with
  | Some fallbackResponse =>
      if success fallbackResponse
      then resolve fallbackResponse x
      else fail opts fallbackResponse x
  | None =>
      if success EIP1271Response
      then resolve EIP1271Response x
      else fail opts EIP1271Response x
  end.

(** What a call of [verify] amounts to: how its promise settles
    ([None]: never), what it did on the way, and the message object and
    the world as it leaves them. *)
Record Run : Type := mkRun {
  outcome : option Outcome;
  trace : list Event;
  this_after : SiweMessage;
  world_after : World
}.

(** The checks of [verify] that come before the signature is looked
    at.  Each is the [if (...) { fail(...) }] of the lines named: a failing
    check calls [fail] and execution goes on with the next statement. *)

(** Lines 205-217. *)
Definition check_params_keys (opts : VerifyOpts.t) (params : VerifyParams.t)
    (x : Promise) : Promise :=
  let invalidParams := checkInvalidKeys (params_keys params) VerifyParamsKeys in
  if (0 <? List.length invalidParams)%nat
  then fail opts (failure (invalid_keys_error invalidParams "VerifyParams")) x
  else x.

(** Lines 219-231. *)
Definition check_opts_keys (opts : VerifyOpts.t) (x : Promise) : Promise :=
  let invalidOpts := checkInvalidKeys (opts_keys opts) VerifyOptsKeys in
  if (0 <? List.length invalidOpts)%nat
  then fail opts (failure (invalid_keys_error invalidOpts "VerifyOpts")) x
  else x.

(** Scheme for domain binding, lines 235-246. *)
Definition check_scheme (opts : VerifyOpts.t) (this : SiweMessage)
    (scheme' : option string) (x : Promise) : Promise :=
  if truthy scheme' && differs scheme' (scheme this)
  then fail opts (failure (SiweError SCHEME_MISMATCH scheme' (scheme this))) x
  else x.

(** Domain binding, lines 248-259. *)
Definition check_domain (opts : VerifyOpts.t) (this : SiweMessage)
    (domain' : option string) (x : Promise) : Promise :=
  if truthy domain' && differs domain' (domain this)
  then fail opts (failure (SiweError DOMAIN_MISMATCH domain' (domain this))) x
  else x.

(** Nonce binding, lines 261-268. *)
Definition check_nonce (opts : VerifyOpts.t) (this : SiweMessage)
    (nonce' : option string) (x : Promise) : Promise :=
  if truthy nonce' && differs nonce' (nonce this)
  then fail opts (failure (SiweError NONCE_MISMATCH nonce' (nonce this))) x
  else x.

(** Message not expired, lines 273-287.  An invalid date has the time
    [NaN], and [>=] on it is false. *)
Definition check_expiration (E : Env) (opts : VerifyOpts.t) (this : SiweMessage)
    (checkTime : option Z) (x : Promise) : Promise :=
  if truthy (expirationTime this)
  then
    match checkTime, getTime E (tpl (expirationTime this)) with
    | Some c, Some expirationDate =>
        if (expirationDate <=? c)%Z
        then fail opts (failure (expired_error E c expirationDate)) x
        else x
    | _, _ => x
    end
  else x.

(** Message is valid already, lines 289-303. *)
Definition check_not_before (E : Env) (opts : VerifyOpts.t) (this : SiweMessage)
    (checkTime : option Z) (x : Promise) : Promise :=
  if truthy (notBefore this)
  then
    match checkTime, getTime E (tpl (notBefore this)) with
    | Some c, Some notBefore' =>
        if (c <? notBefore')%Z
        then fail opts (failure (not_yet_valid_error E c notBefore')) x
        else x
    | _, _ => x
    end
  else x.

(** Lines 304-313: [try { EIP4361Message = this.prepareMessage() }
    catch (e) { fail(...) }].  On a throw the variable stays
    [undefined]. *)
Definition serialize_or_fail (E : Env) (opts : VerifyOpts.t) (this : SiweMessage)
    (w : World) (x : Promise) : option string * SiweMessage * World * Promise :=
  match prepareMessage E this w with
  | (Ok (text, this'), w') => (Some text, this', w', x)
  | (Throws e, w') => (None, this, w', fail opts (failure e) x)
  end.

(** Lines 315-321: [try { addr = verifyMessage(...) } catch (e)
    { console.error(e) }]. *)
Definition recover (E : Env) (EIP4361Message : option string) (signature : string)
    (x : Promise) : option string * Promise :=
  let x := emit (EvVerifyMessage EIP4361Message signature) x in
  match verifyMessage E EIP4361Message signature with
  | Ok a => (Some a, x)
  | Throws e => (None, emit (EvConsoleError e) x)
  end.

(** Lines 328-380, the branch taken when the recovered address is not
    the message's: the contract-wallet proof, the fallback, and the
    callback run once both have settled. *)
Definition contract_wallet_and_fallback (E : Env) (opts : VerifyOpts.t)
    (this : SiweMessage) (params : VerifyParams.t) (addr : option string)
    (x : Promise) : Promise :=
  let signature := VerifyParams.signature params in
  let provider := VerifyOpts.provider (VerifyOpts.fields opts) in
  let x := emit (EvCheckContractWallet this signature provider) x in
  let EIP1271 :=
    EIP1271Promise this addr
      (checkContractWalletSignature E this signature provider) in
  let '(fallback, x) :=
    match VerifyOpts.verificationFallback opts with
    | Some verificationFallback =>
        (fallback_element
           (verificationFallback params (VerifyOpts.fields opts) this EIP1271),
         emit (EvFallback this EIP1271) x)
    | None => (Some None, x)
    end in
  match EIP1271, fallback with
  | Some EIP1271Response, Some fallbackResponse =>
      join_proofs opts EIP1271Response fallbackResponse x
  | _, _ => x
  end.

(** [verify(params, opts)], lines 192-382. *)
Definition verify (E : Env) (this : SiweMessage) (params : VerifyParams.t)
    (opts_arg : option VerifyOpts.t) (w : World) : Run :=
  let opts := match opts_arg with Some o => o | None => default_opts end in
  let x := new_Promise in
  let x := check_params_keys opts params x in
  let x := check_opts_keys opts x in
  let x := check_scheme opts this (VerifyParams.scheme params) x in
  let x := check_domain opts this (VerifyParams.domain params) x in
  let x := check_nonce opts this (VerifyParams.nonce params) x in
  let '(checkTime, w) := check_time E (VerifyParams.time params) w in
  let x := check_expiration E opts this checkTime x in
  let x := check_not_before E opts this checkTime x in
  let '(EIP4361Message, this, w, x) := serialize_or_fail E opts this w x in
  let '(addr, x) := recover E EIP4361Message (VerifyParams.signature params) x in
  (* Match signature with message's address *)
  if negb (differs addr (address this))
  then
    let x := resolve (mkResponse true this_object None) x in
    mkRun (settled x) (events x) this w
  else
    let x := contract_wallet_and_fallback E opts this params addr x in
    mkRun (settled x) (events x) this w.

(** ** The parser

    [ParsedMessage] and [parseIntegerNumber] come from the package
    [siwe-parser], whose grammar is not part of [client.ts].  They are
    modelled as the specification describes them: the parser accepts a
    text exactly when it has the line format of the serializer, with a
    nonce of at least 8 alphanumeric characters and a chain identifier in
    decimal digits, and returns the fields it reads. *)

(** [s.split(c)] for a one-character separator. *)
Fixpoint split_on (c : ascii) (s : string) : list string :=
  match s with
  | EmptyString => [""]
  | String a s' =>
      if Ascii.eqb a c then "" :: split_on c s'
      else
        match split_on c s' with
        | l :: ls => String a l :: ls
        | [] => [String a ""]
        end
  end.

Definition split_lines (s : string) : list string := split_on "010"%char s.

(** [s] without the prefix [p], when it starts with [p]. *)
Fixpoint strip_prefix (p s : string) : option string :=
  match p, s with
  | EmptyString, _ => Some s
  | String a p', String b s' =>
      if Ascii.eqb a b then strip_prefix p' s' else None
  | String _ _, EmptyString => None
  end.

Fixpoint string_rev (s : string) : string :=
  match s with
  | EmptyString => EmptyString
  | String a s' => string_rev s' ++ String a ""
  end.

(** [s] without the suffix [q], when it ends with [q]. *)
Definition strip_suffix (q s : string) : option string :=
  option_map string_rev (strip_prefix (string_rev q) (string_rev s)).

(** The text before and after the first ["://"]. *)
Fixpoint cut_scheme (s : string) : option (string * string) :=
  match strip_prefix "://" s with
  | Some rest => Some ("", rest)
  | None =>
      match s with
      | EmptyString => None
      | String a s' =>
          match cut_scheme s' with
          | Some (l, r) => Some (String a l, r)
          | None => None
          end
      end
  end.

Fixpoint string_forallb (f : ascii -> bool) (s : string) : bool :=
  match s with
  | EmptyString => true
  | String a s' => f a && string_forallb f s'
  end.

Definition is_alphanumeric (a : ascii) : bool :=
  let n := nat_of_ascii a in
  ((48 <=? n) && (n <=? 57) || (65 <=? n) && (n <=? 90)
   || (97 <=? n) && (n <=? 122))%nat.

(** At least 8 alphanumeric characters. *)
Definition valid_nonce (s : string) : bool :=
  (8 <=? String.length s)%nat && string_forallb is_alphanumeric s.

(** Modelled from the spec: [parseIntegerNumber] of the parser package,
    which converts a numeric string to an integer and throws on any
    other string. *)
Definition parseIntegerNumber (s : string) : Result Z :=
  match NilZero.uint_of_string s with
  | Some d => Ok (Z.of_uint d)
  | None => Throws (Error "Invalid number.")
  end.

(** The fields of a parsed message. *)
Module Parsed.
Record t : Type := mk {
  scheme : option string;
  domain : string;
  address : string;
  statement : option string;
  uri : string;
  version : string;
  chainId : Z;
  nonce : string;
  issuedAt : string;
  expirationTime : option string;
  notBefore : option string;
  requestId : option string;
  resources : option (list string)
}.
End Parsed.

(** The header line: [<scheme>://<domain>] or [<domain>], then the fixed
    words. *)
Definition parse_header (line : string) : option (option string * string) :=
  match strip_suffix header_suffix line with
  | Some authority =>
      match cut_scheme authority with
      | Some (s, d) => Some (Some s, d)
      | None => Some (None, authority)
      end
  | None => None
  end.

(** An optional line with the given tag at the head of [lines]. *)
Definition parse_optional (tag : string) (lines : list string) : option string * list string :=
  match lines with
  | l :: rest =>
      match strip_prefix tag l with
      | Some v => (Some v, rest)
      | None => (None, lines)
      end
  | [] => (None, [])
  end.

Fixpoint parse_resource_lines (lines : list string) : option (list string) :=
  match lines with
  | [] => Some []
  | l :: rest =>
      match strip_prefix "- " l, parse_resource_lines rest with
      | Some r, Some rs => Some (r :: rs)
      | _, _ => None
      end
  end.

(** The end of the text: nothing, or the [Resources:] block. *)
Definition parse_resources (lines : list string) : option (option (list string)) :=
  match lines with
  | [] => Some None
  | l :: rest =>
      if l =? "Resources:" then option_map Some (parse_resource_lines rest)
      else None
  end.

(** The lines from [URI:] on. *)
Definition parse_body (sch : option string) (dom addr : string)
    (stmt : option string) (lines : list string) : option Parsed.t :=
  match lines with
  | u :: v :: c :: n :: i :: rest =>
      match strip_prefix "URI: " u, strip_prefix "Version: " v,
            strip_prefix "Chain ID: " c, strip_prefix "Nonce: " n,
            strip_prefix "Issued At: " i with
      | Some uri, Some ver, Some chain, Some nonce, Some issued =>
          match parseIntegerNumber chain with
          | Ok chainId =>
              if valid_nonce nonce then
                let '(expiration, rest) := parse_optional "Expiration Time: " rest in
                let '(notBefore, rest) := parse_optional "Not Before: " rest in
                let '(requestId, rest) := parse_optional "Request ID: " rest in
                match parse_resources rest with
                | Some resources =>
                    Some (Parsed.mk sch dom addr stmt uri ver chainId nonce
                            issued expiration notBefore requestId resources)
                | None => None
                end
              else None
          | Throws _ => None
          end
      | _, _, _, _, _ => None
      end
  | _ => None
  end.

(** Is the next line the [URI:] line? *)
Definition at_uri (lines : list string) : bool :=
  match lines with
  | u :: _ =>
      match strip_prefix "URI: " u with
      | Some _ => true
      | None => false
      end
  | [] => false
  end.

(** Modelled from the spec: the parser of the package [siwe-parser], a
    black box that returns the fields of a text in the line format of
    the serializer and fails on any other text.  The model checks the
    order of the lines, the nonce and the chain identifier; the syntax
    of the domain, the address, the uri and the dates, which the grammar
    of the package checks as well, is left open.  So the model accepts
    texts that the package refuses, and what is proved with it is about
    the constructions that return. *)
Definition parse_message (text : string) : option Parsed.t :=
  match split_lines text with
  | header :: addr :: blank :: rest =>
      match parse_header header with
      | Some (sch, dom) =>
          if blank =? "" then
            match rest with
            | blank' :: body =>
                if (blank' =? "") && at_uri body
                then parse_body sch dom addr None body
                else
                  match body with
                  | blank'' :: body' =>
                      if blank'' =? ""
                      then parse_body sch dom addr (Some blank') body'
                      else None
                  | [] => None
                  end
            | [] => None
            end
          else None
      | None => None
      end
  | _ => None
  end.

(** [new ParsedMessage(text)]: the fields, or a throw. *)
Definition ParsedMessage (text : string) : Result Parsed.t :=
  match parse_message text with
  | Some p => Ok p
  | None => Throws (Error "MalformedMessage")
  end.

(** ** The constructor *)

(** [Partial<SiweMessage>] *)
Module Fields.
Record t : Type := mk {
  scheme : option string;
  domain : option string;
  address : option string;
  statement : option string;
  uri : option string;
  version : option string;
  chainId : option ChainId;
  nonce : option string;
  issuedAt : option string;
  expirationTime : option string;
  notBefore : option string;
  requestId : option string;
  resources : option (list string)
}.
End Fields.

Inductive ConstructorParam : Type :=
| from_string (text : string)
| from_fields (param : Fields.t).

(** Lines 95-97: a [chainId] of type string goes through
    [parseIntegerNumber]. *)
Definition convert_chainId (c : option ChainId) : Eff (option ChainId) :=
  match c with
  | Some (chain_string s) =>
      match parseIntegerNumber s with
      | Ok n => ret (Some (chain_number (Int n)))
      | Throws e => throw e
      end
  | Some (chain_number n) => ret (Some (chain_number n))
  | None => ret None
  end.

Definition lift {A} (r : Result A) : Eff A := fun w => (r, w).

(** [new SiweMessage(param)], lines 64-102. *)
Definition new_SiweMessage (E : Env) (param : ConstructorParam) : Eff SiweMessage :=
  match param with
  | from_string text =>
      parsedMessage <- lift (ParsedMessage text) ;;
      ret (mkSiweMessage
             (Parsed.scheme parsedMessage)
             (Some (Parsed.domain parsedMessage))
             (Some (Parsed.address parsedMessage))
             (Parsed.statement parsedMessage)
             (Some (Parsed.uri parsedMessage))
             (Some (Parsed.version parsedMessage))
             (Some (chain_number (Int (Parsed.chainId parsedMessage))))
             (Some (Parsed.nonce parsedMessage))
             (Some (Parsed.issuedAt parsedMessage))
             (Parsed.expirationTime parsedMessage)
             (Parsed.notBefore parsedMessage)
             (Parsed.requestId parsedMessage)
             (Parsed.resources parsedMessage))
  | from_fields param =>
      chainId <- convert_chainId (Fields.chainId param) ;;
      nonce <- (if truthy (Fields.nonce param) then ret (Fields.nonce param)
                else n <- generateNonce E ;; ret (Some n)) ;;
      let this :=
        mkSiweMessage (Fields.scheme param) (Fields.domain param)
          (Fields.address param) (Fields.statement param) (Fields.uri param)
          (Fields.version param) chainId nonce (Fields.issuedAt param)
          (Fields.expirationTime param) (Fields.notBefore param)
          (Fields.requestId param) (Fields.resources param) in
      (* the message object is valid or parsing its stringified value will throw *)
      prepared <- prepareMessage E this ;;
      let '(text, this) := prepared in
      _ <- lift (ParsedMessage text) ;;
      ret this
  end.

(** * Definitions of the statements

    The notions the properties are stated with: the failures the checks
    raise, the short-circuit pipeline of the specification, the lines of
    the text, well-formed messages, and the data of the examples. *)

(** ** The promise settles once *)

(** The response a settled promise carries. *)
Definition response_of (o : Outcome) : SiweResponse :=
  match o with
  | Resolves r => r
  | Rejects r => r
  end.

(** How a response reaches the caller: a success is resolved; a failure
    is resolved when [suppressExceptions] is set and rejected when it is
    not. *)
Definition deliver (opts : VerifyOpts.t) (r : SiweResponse) : Outcome :=
  if success r then Resolves r
  else if suppresses opts then Resolves r else Rejects r.

(** ** The checks as the failures they raise *)

(** [fail] on the failure of a check, if it has one. *)
Definition fail_if (opts : VerifyOpts.t) (e : option JsError) (x : Promise) : Promise :=
  match e with
  | Some e => fail opts (failure e) x
  | None => x
  end.

(** The failure each check raises, [None] when the check passes. *)
Definition params_keys_failure (params : VerifyParams.t) : option JsError :=
  let invalid := checkInvalidKeys (params_keys params) VerifyParamsKeys in
  if (0 <? List.length invalid)%nat
  then Some (invalid_keys_error invalid "VerifyParams") else None.

Definition opts_keys_failure (opts : VerifyOpts.t) : option JsError :=
  let invalid := checkInvalidKeys (opts_keys opts) VerifyOptsKeys in
  if (0 <? List.length invalid)%nat
  then Some (invalid_keys_error invalid "VerifyOpts") else None.

Definition binding_failure (type : SiweErrorType) (override actual : option string) : option JsError :=
  if truthy override && differs override actual
  then Some (SiweError type override actual) else None.

Definition expiration_failure (E : Env) (this : SiweMessage) (checkTime : option Z) : option JsError :=
  match checkTime, getTime E (tpl (expirationTime this)) with
  | Some c, Some b =>
      if truthy (expirationTime this) && (b <=? c)%Z
      then Some (expired_error E c b) else None
  | _, _ => None
  end.

Definition not_before_failure (E : Env) (this : SiweMessage) (checkTime : option Z) : option JsError :=
  match checkTime, getTime E (tpl (notBefore this)) with
  | Some c, Some b =>
      if truthy (notBefore this) && (c <? b)%Z
      then Some (not_yet_valid_error E c b) else None
  | _, _ => None
  end.

(** ** The short-circuit pipeline *)

(** The first element that is set. *)
Fixpoint first_some {A} (l : list (option A)) : option A :=
  match l with
  | [] => None
  | Some a :: _ => Some a
  | None :: l' => first_some l'
  end.

(** The failure of the first failing check, in the order of the checks:
    parameter keys, option keys, scheme, domain, nonce, expiration,
    not-before. *)
Definition first_failure (E : Env) (this : SiweMessage) (params : VerifyParams.t)
    (opts : VerifyOpts.t) (checkTime : option Z) : option JsError :=
  first_some
    [ params_keys_failure params;
      opts_keys_failure opts;
      binding_failure SCHEME_MISMATCH (VerifyParams.scheme params) (scheme this);
      binding_failure DOMAIN_MISMATCH (VerifyParams.domain params) (domain this);
      binding_failure NONCE_MISMATCH (VerifyParams.nonce params) (nonce this);
      expiration_failure E this checkTime;
      not_before_failure E this checkTime ].

(** [addr] after lines 315-321. *)
Definition recovered (E : Env) (EIP4361Message : option string) (signature : string) : option string :=
  match verifyMessage E EIP4361Message signature with
  | Ok a => Some a
  | Throws _ => None
  end.

(** The response the two proofs of the last stage end in, once both have
    settled: the fallback's when it gave one, else the contract-wallet
    proof's. *)
Definition proofs_verdict (E : Env) (opts : VerifyOpts.t) (this : SiweMessage)
    (params : VerifyParams.t) (addr : option string) : option SiweResponse :=
  let signature := VerifyParams.signature params in
  let provider := VerifyOpts.provider (VerifyOpts.fields opts) in
  let EIP1271 :=
    EIP1271Promise this addr
      (checkContractWalletSignature E this signature provider) in
  let fallback :=
    match VerifyOpts.verificationFallback opts with
    | Some verificationFallback =>
        fallback_element
          (verificationFallback params (VerifyOpts.fields opts) this EIP1271)
    | None => Some None
    end in
  match EIP1271, fallback with
  | Some EIP1271Response, Some (Some fallbackResponse) => Some fallbackResponse
  | Some EIP1271Response, Some None => Some EIP1271Response
  | _, _ => None
  end.

(** The pipeline as the specification words it, section 4.4: ordered
    stages, each a hard short-circuit, and the first failing stage
    decides the result. *)
Definition short_circuit_verify (E : Env) (this : SiweMessage) (params : VerifyParams.t)
    (opts_arg : option VerifyOpts.t) (w : World) : option Outcome :=
  let opts := match opts_arg with Some o => o | None => default_opts end in
  let '(checkTime, w) := check_time E (VerifyParams.time params) w in
  match first_failure E this params opts checkTime with
  | Some e => Some (deliver opts (failure e))
  | None =>
      match prepareMessage E this w with
      | (Throws e, _) => Some (deliver opts (failure e))
      | (Ok (text, this), _) =>
          let addr := recovered E (Some text) (VerifyParams.signature params) in
          if negb (differs addr (address this))
          then Some (Resolves (mkResponse true this_object None))
          else option_map (deliver opts) (proofs_verdict E opts this params addr)
      end
  end.

(** ** What a call does to the adapters *)

(** The calls of the adapters and of the fallback among the events. *)
Definition is_call (ev : Event) : bool :=
  match ev with
  | EvVerifyMessage _ _ | EvCheckContractWallet _ _ _ | EvFallback _ _ => true
  | EvResolve _ | EvReject _ | EvConsoleError _ => false
  end.

Definition calls (t : list Event) : list Event := filter is_call t.

(** [this] and [EIP4361Message] after lines 304-313. *)
Definition serialized (E : Env) (this : SiweMessage) (w : World) : option string * SiweMessage :=
  match prepareMessage E this w with
  | (Ok (text, this'), _) => (Some text, this')
  | (Throws _, _) => (None, this)
  end.

(** The adapter calls of a run, in order: the recovery, then, unless the
    recovered address is the message's, the contract-wallet check and
    the fallback when there is one. *)
Definition adapter_calls (E : Env) (this : SiweMessage) (params : VerifyParams.t)
    (opts_arg : option VerifyOpts.t) (w : World) : list Event :=
  let opts := match opts_arg with Some o => o | None => default_opts end in
  let signature := VerifyParams.signature params in
  let provider := VerifyOpts.provider (VerifyOpts.fields opts) in
  let '(text, this) :=
    serialized E this (snd (check_time E (VerifyParams.time params) w)) in
  let addr := recovered E text signature in
  EvVerifyMessage text signature
    :: (if negb (differs addr (address this)) then []
        else
          EvCheckContractWallet this signature provider
            :: match VerifyOpts.verificationFallback opts with
               | Some _ =>
                   [EvFallback this
                      (EIP1271Promise this addr
                         (checkContractWalletSignature E this signature
                            provider))]
               | None => []
               end).

(** ** An environment and a message for examples

    Dates are written as the decimal numeral of their time, the recovered
    address is the signature itself, and the contract-wallet check answers
    [false]. *)

Definition sample_env : Env :=
  mkEnv
    (fun _ => Ok "abcdefgh12345678")
    (fun n => 1700000000000 + Z.of_nat n)%Z
    num_to_string
    (fun s => match parseIntegerNumber s with
              | Ok t => Some t
              | Throws _ => None
              end)
    (fun _ signature => Ok signature)
    (fun _ _ _ => Fulfilled false).

Definition sample_message : SiweMessage :=
  mkSiweMessage None (Some "example.com") (Some "0xAbC") None
    (Some "https://example.com/login") (Some "1") (Some (chain_number (Int 1)))
    (Some "abcdefgh") (Some "1600000000000") None None None None.

Definition sample_text : string :=
  join LF
    [ "example.com wants you to sign in with your Ethereum account:";
      "0xAbC"; ""; ""; "URI: https://example.com/login"; "Version: 1";
      "Chain ID: 1"; "Nonce: abcdefgh"; "Issued At: 1600000000000" ].

Definition sample_world : World := mkWorld 0 0.

(** A call with a signature that does not recover the address and a
    domain override that is not the message's. *)
Definition other_domain_params : VerifyParams.t :=
  VerifyParams.mk "0xdead" None (Some "other.com") None None [].

Definition domain_mismatch : JsError :=
  SiweError DOMAIN_MISMATCH (Some "other.com") (Some "example.com").

(** ** C2: a mismatched domain on an expired message *)

Definition is_expired_error (e : JsError) : bool :=
  match e with
  | SiweError EXPIRED_MESSAGE _ _ => true
  | _ => false
  end.

(** The error a settled call carries. *)
Definition outcome_error (o : option Outcome) : option JsError :=
  match o with
  | Some o => error (response_of o)
  | None => None
  end.

(** An expired message verified with another domain. *)
Definition expired_message : SiweMessage :=
  mkSiweMessage None (Some "example.com") (Some "0xAbC") None
    (Some "https://example.com/login") (Some "1") (Some (chain_number (Int 1)))
    (Some "abcdefgh") (Some "1600000000000") (Some "1650000000000")
    None None None.

(** ** The serializer, line by line *)

(** A line [<tag><value>]. *)
Definition field_line (tag value : string) : string := tag ++ value.

(** An optional line: emitted when the field is truthy. *)
Definition optional_line (tag : string) (v : option string) : list string :=
  if truthy v then [field_line tag (tpl v)] else [].

(** The header: [<scheme>://<domain>] when the scheme is truthy, else
    [<domain>], then the fixed words. *)
Definition header_line (m : SiweMessage) : string :=
  (if truthy (scheme m)
   then tpl (scheme m) ++ "://" ++ tpl (domain m)
   else tpl (domain m)) ++ header_suffix.

Definition statement_lines (m : SiweMessage) : list string :=
  match statement m with
  | Some s => [s]
  | None => []
  end.

Definition resources_lines (m : SiweMessage) : list string :=
  match resources m with
  | Some rs => "Resources:" :: map (field_line "- ") rs
  | None => []
  end.

(** The lines of the text in the order of section 4.2: header, address,
    blank, statement if present, blank, the five required fields, the
    optional fields, and the resources block. *)
Definition message_lines (m : SiweMessage) : list string :=
  ([ header_line m; elt (address m); "" ]
   ++ statement_lines m
   ++ [ "";
        field_line "URI: " (tpl (uri m));
        field_line "Version: " (tpl (version m));
        field_line "Chain ID: " (num_tpl (chainId m));
        field_line "Nonce: " (tpl (nonce m));
        field_line "Issued At: " (tpl (issuedAt m)) ]
   ++ optional_line "Expiration Time: " (expirationTime m)
   ++ optional_line "Not Before: " (notBefore m)
   ++ optional_line "Request ID: " (requestId m)
   ++ resources_lines m)%list.

(** Lines 123-125 and 133: the defaults [toMessage] writes on the
    object. *)
Definition fill_nonce (E : Env) (this : SiweMessage) : Eff SiweMessage :=
  if truthy (nonce this) then ret this
  else n <- generateNonce E ;; ret (set_nonce this (Some n)).

Definition fill_issuedAt (E : Env) (this : SiweMessage) : Eff SiweMessage :=
  if truthy (issuedAt this) then ret this
  else t <- new_Date E ;; ret (set_issuedAt this (Some (toISOString E t))).

(** ** C4: the fallback and the contract-wallet proof *)

(** The promise the fallback returned settled with the response [r]. *)
Definition settles_with (ret : VerifyOpts.FallbackReturn) (r : SiweResponse) : Prop :=
  ret = Some (Fulfilled (Some r)) \/ ret = Some (Rejected (Some r)).

(** Options with a fallback that answers with a success. *)
Definition accepting_fallback_opts : VerifyOpts.t :=
  VerifyOpts.mk (VerifyOpts.mkBase None None [])
    (Some (fun _ _ _ _ =>
             Some (Fulfilled (Some (mkResponse true this_object None))))).

(** ** C5: the bounds of the validity interval *)

(** A message valid from 1650000000000 until 1700000000000. *)
Definition bounded_message : SiweMessage :=
  mkSiweMessage None (Some "example.com") (Some "0xAbC") None
    (Some "https://example.com/login") (Some "1") (Some (chain_number (Int 1)))
    (Some "abcdefgh") (Some "1600000000000") (Some "1700000000000")
    (Some "1650000000000") None None.

(** ** C9: the two disciplines of failure *)

(** [opts] with [suppressExceptions] set to [flag]. *)
Definition with_suppress (flag : option bool) (o : VerifyOpts.t) : VerifyOpts.t :=
  VerifyOpts.mk
    (VerifyOpts.mkBase flag
       (VerifyOpts.provider (VerifyOpts.fields o))
       (VerifyOpts.other_keys (VerifyOpts.fields o)))
    (VerifyOpts.verificationFallback o).

(** The fallback answers the same whatever [suppressExceptions] is in the
    options it is handed. *)
Definition fallback_ignores_suppress (o : VerifyOpts.t) (params : VerifyParams.t) : Prop :=
  forall f flag flag' m h,
    VerifyOpts.verificationFallback o = Some f ->
    f params (VerifyOpts.fields (with_suppress flag o)) m h =
    f params (VerifyOpts.fields (with_suppress flag' o)) m h.

(** The response a call ends in, before it is delivered. *)
Definition verdict (E : Env) (this : SiweMessage) (params : VerifyParams.t)
    (opts : VerifyOpts.t) (w : World) : option SiweResponse :=
  let '(checkTime, w) := check_time E (VerifyParams.time params) w in
  match first_failure E this params opts checkTime with
  | Some e => Some (failure e)
  | None =>
      match prepareMessage E this w with
      | (Throws e, _) => Some (failure e)
      | (Ok (text, this), _) =>
          let addr := recovered E (Some text) (VerifyParams.signature params) in
          if negb (differs addr (address this))
          then Some (mkResponse true this_object None)
          else proofs_verdict E opts this params addr
      end
  end.

(** ** C6: the line order of the serializer *)

Definition set_statement (m : SiweMessage) (v : option string) : SiweMessage :=
  mkSiweMessage (scheme m) (domain m) (address m) v (uri m)
    (version m) (chainId m) (nonce m) (issuedAt m) (expirationTime m)
    (notBefore m) (requestId m) (resources m).

(** The header as the claim words it: the prefix [<scheme>://] exactly
    when the scheme is present, that is, not [undefined]. *)
Definition claimed_header_line (m : SiweMessage) : string :=
  match scheme m with
  | Some s => s ++ "://" ++ tpl (domain m)
  | None => tpl (domain m)
  end ++ header_suffix.

(** A message whose scheme is the empty string. *)
Definition empty_scheme_message : SiweMessage :=
  mkSiweMessage (Some "") (Some "example.com") (Some "0xAbC") None
    (Some "https://example.com/login") (Some "1") (Some (chain_number (Int 1)))
    (Some "abcdefgh") (Some "1600000000000") None None None None.

(** ** Strings and lines *)

(** No line feed in [s]. *)
Definition no_lf (s : string) : bool :=
  string_forallb (fun a => negb (Ascii.eqb a "010")) s.

(** No character [c] in [s]. *)
Definition lacks (c : ascii) (s : string) : bool :=
  string_forallb (fun a => negb (Ascii.eqb a c)) s.

(** ** Well-formed messages *)

Definition nonempty (s : string) : bool := negb (s =? "").

Definition opt_ok (check : string -> bool) (v : option string) : bool :=
  match v with
  | Some s => check s
  | None => true
  end.

Definition req_ok (check : string -> bool) (v : option string) : bool :=
  match v with
  | Some s => check s
  | None => false
  end.

Definition one_line (s : string) : bool := nonempty s && no_lf s.

(** The structural constraints of the data model that the text format
    relies on: every field is one line; a scheme has no colon and an
    authority no slash; the chain identifier is a natural number; the
    nonce has at least 8 alphanumeric characters; the required fields
    are set, and an optional field that is set is not empty. *)
Definition well_formed (m : SiweMessage) : bool :=
  opt_ok (fun s => one_line s && lacks ":" s) (scheme m)
  && req_ok (fun d => no_lf d && lacks "/" d) (domain m)
  && req_ok no_lf (address m)
  && opt_ok no_lf (statement m)
  && req_ok no_lf (uri m)
  && req_ok no_lf (version m)
  && match chainId m with
     | Some (chain_number (Int n)) => (0 <=? n)%Z
     | _ => false
     end
  && req_ok valid_nonce (nonce m)
  && req_ok one_line (issuedAt m)
  && opt_ok one_line (expirationTime m)
  && opt_ok one_line (notBefore m)
  && opt_ok one_line (requestId m)
  && match resources m with Some rs => forallb no_lf rs | None => true end.

(** The fields a parser reads back from a well-formed message. *)
Definition parsed_of (m : SiweMessage) : Parsed.t :=
  Parsed.mk (scheme m) (elt (domain m)) (elt (address m)) (statement m)
    (elt (uri m)) (elt (version m))
    (match chainId m with Some (chain_number (Int n)) => n | _ => 0%Z end)
    (elt (nonce m)) (elt (issuedAt m)) (expirationTime m) (notBefore m)
    (requestId m) (resources m).

(** The message [new SiweMessage(text)] builds from parsed fields. *)
Definition message_of_parsed (p : Parsed.t) : SiweMessage :=
  mkSiweMessage (Parsed.scheme p) (Some (Parsed.domain p))
    (Some (Parsed.address p)) (Parsed.statement p) (Some (Parsed.uri p))
    (Some (Parsed.version p))
    (Some (chain_number (Int (Parsed.chainId p))))
    (Some (Parsed.nonce p)) (Some (Parsed.issuedAt p))
    (Parsed.expirationTime p) (Parsed.notBefore p) (Parsed.requestId p)
    (Parsed.resources p).

(** ** Construction from fields *)

(** The object of lines 82-98, before it is serialized: the fields as
    given, the chain identifier [c] and the nonce [n]. *)
Definition assembled (f : Fields.t) (c : option ChainId) (n : option string) : SiweMessage :=
  mkSiweMessage (Fields.scheme f) (Fields.domain f) (Fields.address f)
    (Fields.statement f) (Fields.uri f) (Fields.version f) c n
    (Fields.issuedAt f) (Fields.expirationTime f) (Fields.notBefore f)
    (Fields.requestId f) (Fields.resources f).

(** What the text format needs of a constructed message, beyond what
    the parser checks, for the text to hold every field as it is: a
    scheme, an expiration time, a not-before time and a request id that
    are set are not empty; the required domain, address, uri and version
    are set; domain, address, [issuedAt], the optional fields and the
    resources hold no line feed; a scheme has no colon and a domain no
    slash. *)
Definition lossless (m : SiweMessage) : bool :=
  opt_ok (fun s => one_line s && lacks ":" s) (scheme m)
  && req_ok (fun d => no_lf d && lacks "/" d) (domain m)
  && req_ok no_lf (address m)
  && req_ok (fun _ => true) (uri m)
  && req_ok (fun _ => true) (version m)
  && req_ok one_line (issuedAt m)
  && opt_ok one_line (expirationTime m)
  && opt_ok one_line (notBefore m)
  && opt_ok one_line (requestId m)
  && match resources m with Some rs => forallb no_lf rs | None => true end.

(** ** What an accepted text tells about the message *)

(** A line that may follow the [Issued At:] line. *)
Definition tail_line (l : string) : Prop :=
  exists r,
    l = "Expiration Time: " ++ r \/ l = "Not Before: " ++ r
    \/ l = "Request ID: " ++ r \/ l = "Resources:" \/ l = "- " ++ r.

(** The lines from [URI:] on. *)
Definition body_lines (u v cs n i : string) (tail : list string) : list string :=
  field_line "URI: " u :: field_line "Version: " v
    :: field_line "Chain ID: " cs :: field_line "Nonce: " n
    :: field_line "Issued At: " i :: tail.

(** The lines a parsed text is made of, after the lines [front] of the
    header, the address and, when there is one, the statement with the
    blank line before it. *)
Definition parsed_lines (front : list string) (u v cs n i : string)
    (tail : list string) : list string :=
  (front ++ "" :: body_lines u v cs n i tail)%list.

(** The statement, uri and version of [m] hold no line feed. *)
Definition single_line_fields (m : SiweMessage) : Prop :=
  (forall s, statement m = Some s -> no_lf s = true)
  /\ no_lf (tpl (uri m)) = true
  /\ no_lf (tpl (version m)) = true.

(** ** C7: round trip *)

(** Fields for the scenario of the specification, with no nonce and no
    [issuedAt]. *)
Definition sample_fields : Fields.t :=
  Fields.mk None (Some "example.com") (Some "0xAbC") None
    (Some "https://example.com/login") (Some "1") (Some (chain_string "1"))
    None None None None None (Some ["https://example.com/a"]).

Definition sample_constructed : SiweMessage :=
  mkSiweMessage None (Some "example.com") (Some "0xAbC") None
    (Some "https://example.com/login") (Some "1") (Some (chain_number (Int 1)))
    (Some "abcdefgh12345678") (Some "1700000000000") None None None
    (Some ["https://example.com/a"]).

(** A sign-in request with a checksummed address and dates in ISO
    format, the chain identifier given as a string. *)
Definition login_fields : Fields.t :=
  Fields.mk (Some "https") (Some "example.com")
    (Some "0xd8dA6BF26964aF9D7eEd9e03E53415D37aA96045")
    (Some "Sign in to Example.")
    (Some "https://example.com/login") (Some "1") (Some (chain_string "1"))
    (Some "abcdefgh12345678") (Some "2024-01-01T00:00:00.000Z")
    (Some "2024-01-02T00:00:00.000Z") None (Some "request-1")
    (Some ["https://example.com/a"]).

Definition set_fields_requestId (f : Fields.t) (v : option string) : Fields.t :=
  Fields.mk (Fields.scheme f) (Fields.domain f) (Fields.address f)
    (Fields.statement f) (Fields.uri f) (Fields.version f)
    (Fields.chainId f) (Fields.nonce f) (Fields.issuedAt f)
    (Fields.expirationTime f) (Fields.notBefore f) v (Fields.resources f).

Definition set_fields_resources (f : Fields.t) (v : option (list string)) : Fields.t :=
  Fields.mk (Fields.scheme f) (Fields.domain f) (Fields.address f)
    (Fields.statement f) (Fields.uri f) (Fields.version f)
    (Fields.chainId f) (Fields.nonce f) (Fields.issuedAt f)
    (Fields.expirationTime f) (Fields.notBefore f) (Fields.requestId f) v.

(** The message with the fields of [login_fields], the chain identifier
    as a number, and the request id [r]. *)
Definition login_message (r : option string) : SiweMessage :=
  mkSiweMessage (Some "https") (Some "example.com")
    (Some "0xd8dA6BF26964aF9D7eEd9e03E53415D37aA96045")
    (Some "Sign in to Example.")
    (Some "https://example.com/login") (Some "1")
    (Some (chain_number (Int 1)))
    (Some "abcdefgh12345678") (Some "2024-01-01T00:00:00.000Z")
    (Some "2024-01-02T00:00:00.000Z") None r
    (Some ["https://example.com/a"]).

(** The text of [login_message (Some "")], which has no line for the
    request id. *)
Definition login_text_without_requestId : string :=
  join LF
    [ "https://example.com wants you to sign in with your Ethereum account:";
      "0xd8dA6BF26964aF9D7eEd9e03E53415D37aA96045"; "";
      "Sign in to Example."; "";
      "URI: https://example.com/login"; "Version: 1"; "Chain ID: 1";
      "Nonce: abcdefgh12345678"; "Issued At: 2024-01-01T00:00:00.000Z";
      "Expiration Time: 2024-01-02T00:00:00.000Z";
      "Resources:"; "- https://example.com/a" ].

(** Fields without resources whose request id holds, after a line
    feed, the lines of a list of resources. *)
Definition smuggling_fields : Fields.t :=
  set_fields_resources
    (set_fields_requestId login_fields
       (Some (join LF ["request-1"; "Resources:"; "- https://evil.example/"])))
    None.

(** ** C8: the nonce and the chain identifier after construction *)

Definition set_fields_chainId (f : Fields.t) (c : option ChainId) : Fields.t :=
  Fields.mk (Fields.scheme f) (Fields.domain f) (Fields.address f)
    (Fields.statement f) (Fields.uri f) (Fields.version f) c
    (Fields.nonce f) (Fields.issuedAt f) (Fields.expirationTime f)
    (Fields.notBefore f) (Fields.requestId f) (Fields.resources f).

(** The number 1.5 *)
Definition one_and_a_half : Number := Fraction false 1 (Decimal.D5 Decimal.Nil).

(** ** C10: a nonce supplied as the empty string *)


(** * Further properties: definitions

    Data for the examples of the properties that go beyond the claims. *)

(** ** The serializer *)

(** An object with neither nonce nor [issuedAt], nor chain identifier,
    and with an empty array of resources. *)
Definition draft_message : SiweMessage :=
  mkSiweMessage None (Some "example.com") (Some "0xAbC") None
    (Some "https://example.com/login") (Some "1") None
    None None None None None (Some []).

Definition draft_filled : SiweMessage :=
  set_issuedAt (set_nonce draft_message (Some "abcdefgh12345678"))
    (Some "1700000000000").

Definition draft_text : string :=
  join LF
    [ "example.com wants you to sign in with your Ethereum account:";
      "0xAbC"; ""; ""; "URI: https://example.com/login"; "Version: 1";
      "Chain ID: undefined"; "Nonce: abcdefgh12345678";
      "Issued At: 1700000000000"; "Resources:" ].

(** ** The events of a call *)

(** The event of a call of [fail]: [resolve] when [suppressExceptions]
    is set, [reject] when it is not. *)
Definition fail_event (opts : VerifyOpts.t) (r : SiweResponse) : Event :=
  if suppresses opts then EvResolve r else EvReject r.

Definition option_list {A} (o : option A) : list A :=
  match o with
  | Some a => [a]
  | None => []
  end.

(** The failures of all the checks that fail, in the order of the
    checks. *)
Definition check_failures (E : Env) (this : SiweMessage) (params : VerifyParams.t)
    (opts : VerifyOpts.t) (checkTime : option Z) : list JsError :=
  (option_list (params_keys_failure params)
   ++ option_list (opts_keys_failure opts)
   ++ option_list
        (binding_failure SCHEME_MISMATCH (VerifyParams.scheme params) (scheme this))
   ++ option_list
        (binding_failure DOMAIN_MISMATCH (VerifyParams.domain params) (domain this))
   ++ option_list
        (binding_failure NONCE_MISMATCH (VerifyParams.nonce params) (nonce this))
   ++ option_list (expiration_failure E this checkTime)
   ++ option_list (not_before_failure E this checkTime))%list.

(** The event of the callback of [Promise.all]: a success is resolved, a
    failure goes through [fail]. *)
Definition verdict_event (opts : VerifyOpts.t) (r : SiweResponse) : Event :=
  if success r then EvResolve r else fail_event opts r.

(** The events of a call from the recovery of the address on. *)
Definition signature_events (E : Env) (opts : VerifyOpts.t) (this : SiweMessage)
    (params : VerifyParams.t) (text : option string) : list Event :=
  let signature := VerifyParams.signature params in
  let provider := VerifyOpts.provider (VerifyOpts.fields opts) in
  let addr := recovered E text signature in
  (EvVerifyMessage text signature
   :: match verifyMessage E text signature with
      | Throws e => [EvConsoleError e]
      | Ok _ => []
      end
   ++ if negb (differs addr (address this))
      then [EvResolve (mkResponse true this_object None)]
      else
        EvCheckContractWallet this signature provider
          :: match VerifyOpts.verificationFallback opts with
             | Some _ =>
                 [EvFallback this
                    (EIP1271Promise this addr
                       (checkContractWalletSignature E this signature provider))]
             | None => []
             end
          ++ match proofs_verdict E opts this params addr with
             | Some r => [verdict_event opts r]
             | None => []
             end)%list.

(** Everything a call does, in order: one [fail] for every failing
    check, one for a failing serialization, then the events of the
    signature. *)
Definition expected_trace (E : Env) (this : SiweMessage) (params : VerifyParams.t)
    (opts_arg : option VerifyOpts.t) (w : World) : list Event :=
  let opts := match opts_arg with Some o => o | None => default_opts end in
  let '(checkTime, w1) := check_time E (VerifyParams.time params) w in
  (map (fun e => fail_event opts (failure e))
     (check_failures E this params opts checkTime)
   ++ match prepareMessage E this w1 with
      | (Throws e, _) => [fail_event opts (failure e)]
      | (Ok _, _) => []
      end
   ++ signature_events E opts (snd (serialized E this w1)) params
        (fst (serialized E this w1)))%list.

(** ** Verification *)

(** Two values of an override that [verify] cannot tell apart: the same
    value, or two falsy ones ([undefined] and ['']). *)
Definition same_override (a b : option string) : Prop :=
  a = b \/ (truthy a = false /\ truthy b = false).

(** Parameters with a key that is not recognized. *)
Definition unknown_key_params : VerifyParams.t :=
  VerifyParams.mk "0xAbC" None None None None ["chainId"].

(** Parameters with the matching signature and empty overrides. *)
Definition blank_override_params : VerifyParams.t :=
  VerifyParams.mk "0xAbC" (Some "") (Some "") (Some "") (Some "") [].

Definition matching_params : VerifyParams.t :=
  VerifyParams.mk "0xAbC" None None None None [].

(** An environment whose signature recovery throws and whose
    contract-wallet check rejects. *)
Definition failing_env : Env :=
  mkEnv
    (fun _ => Ok "abcdefgh12345678")
    (fun n => 1700000000000 + Z.of_nat n)%Z
    num_to_string
    (fun s => match parseIntegerNumber s with
              | Ok t => Some t
              | Throws _ => None
              end)
    (fun _ _ => Throws (Error "invalid signature"))
    (fun _ _ _ => Rejected (Error "network down")).

(** An environment whose contract-wallet check never settles. *)
Definition hanging_env : Env :=
  mkEnv
    (fun _ => Ok "abcdefgh12345678")
    (fun n => 1700000000000 + Z.of_nat n)%Z
    num_to_string
    (fun s => match parseIntegerNumber s with
              | Ok t => Some t
              | Throws _ => None
              end)
    (fun _ signature => Ok signature)
    (fun _ _ _ => Pending).

(** Parameters with a signature that recovers another address. *)
Definition unmatched_params : VerifyParams.t :=
  VerifyParams.mk "0xDeF" None None None None [].

(** Options whose fallback returns [undefined]. *)
Definition silent_fallback_opts : VerifyOpts.t :=
  VerifyOpts.mk (VerifyOpts.mkBase None None []) (Some (fun _ _ _ _ => None)).

(** The checks before the temporal ones all pass. *)
Definition bindings_pass (this : SiweMessage) (params : VerifyParams.t)
    (opts : VerifyOpts.t) : Prop :=
  params_keys_failure params = None
  /\ opts_keys_failure opts = None
  /\ binding_failure SCHEME_MISMATCH (VerifyParams.scheme params) (scheme this)
     = None
  /\ binding_failure DOMAIN_MISMATCH (VerifyParams.domain params) (domain this)
     = None
  /\ binding_failure NONCE_MISMATCH (VerifyParams.nonce params) (nonce this)
     = None.

Definition success_response : SiweResponse := mkResponse true this_object None.

(** [bounded_message] as a text. *)
Definition bounded_text : string :=
  join LF
    [ "example.com wants you to sign in with your Ethereum account:";
      "0xAbC"; ""; ""; "URI: https://example.com/login"; "Version: 1";
      "Chain ID: 1"; "Nonce: abcdefgh"; "Issued At: 1600000000000";
      "Expiration Time: 1700000000000"; "Not Before: 1650000000000" ].

(** ** Construction *)

(** Fields whose chain identifier is a string that is no number. *)
Definition bad_chain_fields : Fields.t :=
  Fields.mk None (Some "example.com") (Some "0xAbC") None
    (Some "https://example.com/login") (Some "1") (Some (chain_string "one"))
    None None None None None None.

(** Fields with a statement of two lines. *)
Definition two_line_statement_fields : Fields.t :=
  Fields.mk None (Some "example.com") (Some "0xAbC")
    (Some (join LF ["I accept"; "URI: https://evil.example"]))
    (Some "https://example.com/login") (Some "1") (Some (chain_number (Int 1)))
    (Some "abcdefgh") (Some "1600000000000") None None None None.

(** * Properties *)

(** ** The promise settles once *)

Lemma settled_emit ev x : settled (emit ev x) = settled x.
Proof. reflexivity. Qed.

Lemma settled_resolve r x :
  settled (resolve r x) =
  match settled x with Some o => Some o | None => Some (Resolves r) end.
Proof. reflexivity. Qed.

Lemma settled_reject r x :
  settled (reject r x) =
  match settled x with Some o => Some o | None => Some (Rejects r) end.
Proof. reflexivity. Qed.

Lemma settled_fail opts r x :
  success r = false ->
  settled (fail opts r x) =
  match settled x with Some o => Some o | None => Some (deliver opts r) end.
Proof.
  intros Hr. unfold fail, deliver. rewrite Hr.
  destruct (suppresses opts); reflexivity.
Qed.

Lemma settled_join_proofs opts e f x :
  settled (join_proofs opts e f x) =
  match settled x with
  | Some o => Some o
  | None => Some (deliver opts (match f with Some r => r | None => e end))
  end.
Proof.
  unfold join_proofs, deliver, fail.
  destruct f as [r|].
  - destruct (success r), (suppresses opts), (settled x) eqn:Hx;
      cbn; rewrite ?Hx; reflexivity.
  - destruct (success e), (suppresses opts), (settled x) eqn:Hx;
      cbn; rewrite ?Hx; reflexivity.
Qed.

(** ** The checks as the failures they raise *)

Lemma settled_fail_if opts e x :
  settled (fail_if opts e x) =
  match settled x with
  | Some o => Some o
  | None => option_map (fun e => deliver opts (failure e)) e
  end.
Proof.
  destruct e as [e|]; cbn.
  - now rewrite settled_fail.
  - now destruct (settled x).
Qed.

Lemma check_params_keys_fail_if opts params x :
  check_params_keys opts params x = fail_if opts (params_keys_failure params) x.
Proof.
  unfold check_params_keys, params_keys_failure; cbv zeta.
  now destruct (0 <? _)%nat.
Qed.

Lemma check_opts_keys_fail_if opts x :
  check_opts_keys opts x = fail_if opts (opts_keys_failure opts) x.
Proof.
  unfold check_opts_keys, opts_keys_failure; cbv zeta.
  now destruct (0 <? _)%nat.
Qed.

Lemma check_scheme_fail_if opts this s x :
  check_scheme opts this s x =
  fail_if opts (binding_failure SCHEME_MISMATCH s (scheme this)) x.
Proof. unfold check_scheme, binding_failure. now destruct (_ && _). Qed.

Lemma check_domain_fail_if opts this s x :
  check_domain opts this s x =
  fail_if opts (binding_failure DOMAIN_MISMATCH s (domain this)) x.
Proof. unfold check_domain, binding_failure. now destruct (_ && _). Qed.

Lemma check_nonce_fail_if opts this s x :
  check_nonce opts this s x =
  fail_if opts (binding_failure NONCE_MISMATCH s (nonce this)) x.
Proof. unfold check_nonce, binding_failure. now destruct (_ && _). Qed.

Lemma check_expiration_fail_if E opts this c x :
  check_expiration E opts this c x = fail_if opts (expiration_failure E this c) x.
Proof.
  unfold check_expiration, expiration_failure.
  destruct (truthy (expirationTime this)), c as [c|],
    (getTime E (tpl (expirationTime this))) as [b|]; cbn; try reflexivity.
  now destruct (b <=? c)%Z.
Qed.

Lemma check_not_before_fail_if E opts this c x :
  check_not_before E opts this c x = fail_if opts (not_before_failure E this c) x.
Proof.
  unfold check_not_before, not_before_failure.
  destruct (truthy (notBefore this)), c as [c|],
    (getTime E (tpl (notBefore this))) as [b|]; cbn; try reflexivity.
  now destruct (c <? b)%Z.
Qed.

(** ** The short-circuit pipeline *)

Lemma settled_recover E text sig x :
  settled (snd (recover E text sig x)) = settled x
  /\ fst (recover E text sig x) = recovered E text sig.
Proof.
  unfold recover, recovered.
  destruct (verifyMessage E text sig); cbn; auto.
Qed.

Lemma settled_contract_wallet_and_fallback E opts this params addr x :
  settled (contract_wallet_and_fallback E opts this params addr x) =
  match settled x with
  | Some o => Some o
  | None => option_map (deliver opts) (proofs_verdict E opts this params addr)
  end.
Proof.
  unfold contract_wallet_and_fallback, proofs_verdict; cbv zeta.
  destruct (EIP1271Promise _ _ _) as [e|];
    destruct (VerifyOpts.verificationFallback opts) as [f|];
    try destruct (fallback_element _) as [[r|]|];
    rewrite ?settled_join_proofs, ?settled_emit;
    destruct (settled x); reflexivity.
Qed.

(** The settlement of [verify] is the result of the short-circuit
    pipeline: calling [fail] and going on settles the promise as
    stopping at the first failure would. *)
Lemma verify_outcome E this params opts_arg w :
  outcome (verify E this params opts_arg w) =
  short_circuit_verify E this params opts_arg w.
Proof.
  unfold verify, short_circuit_verify, first_failure; cbv zeta.
  set (opts := match opts_arg with Some o => o | None => default_opts end).
  rewrite check_params_keys_fail_if, check_opts_keys_fail_if,
    check_scheme_fail_if, check_domain_fail_if, check_nonce_fail_if.
  destruct (check_time E (VerifyParams.time params) w) as [checkTime w1].
  rewrite check_expiration_fail_if, check_not_before_fail_if.
  set (x := fail_if opts (not_before_failure E this checkTime) _).
  assert (Hx : settled x =
               option_map (fun e => deliver opts (failure e))
                 (first_some
                    [ params_keys_failure params;
                      opts_keys_failure opts;
                      binding_failure SCHEME_MISMATCH
                        (VerifyParams.scheme params) (scheme this);
                      binding_failure DOMAIN_MISMATCH
                        (VerifyParams.domain params) (domain this);
                      binding_failure NONCE_MISMATCH
                        (VerifyParams.nonce params) (nonce this);
                      expiration_failure E this checkTime;
                      not_before_failure E this checkTime ])).
  { subst x. rewrite !settled_fail_if. cbn [settled new_Promise].
    destruct (params_keys_failure params), (opts_keys_failure opts),
      (binding_failure SCHEME_MISMATCH _ _),
      (binding_failure DOMAIN_MISMATCH _ _),
      (binding_failure NONCE_MISMATCH _ _),
      (expiration_failure E this checkTime),
      (not_before_failure E this checkTime); reflexivity. }
  clearbody x.
  unfold serialize_or_fail.
  destruct (prepareMessage E this w1) as [[[text this']|e] w2].
  - destruct (recover E (Some text) (VerifyParams.signature params) x)
      as [addr x'] eqn:Hrec.
    pose proof (settled_recover E (Some text) (VerifyParams.signature params) x)
      as [Hs Ha].
    rewrite Hrec in Hs, Ha; cbn in Hs, Ha. subst addr.
    destruct (negb (differs _ _)); cbn [outcome].
    + rewrite settled_resolve, Hs, Hx.
      now destruct (first_some _).
    + rewrite settled_contract_wallet_and_fallback, Hs, Hx.
      now destruct (first_some _).
  - destruct (recover E None (VerifyParams.signature params) _)
      as [addr x'] eqn:Hrec.
    match type of Hrec with recover _ _ _ ?y = _ =>
      pose proof (settled_recover E None (VerifyParams.signature params) y)
        as [Hs _]
    end.
    rewrite Hrec in Hs; cbn in Hs.
    assert (Hx' : settled x' =
                  match first_some
                    [ params_keys_failure params;
                      opts_keys_failure opts;
                      binding_failure SCHEME_MISMATCH
                        (VerifyParams.scheme params) (scheme this);
                      binding_failure DOMAIN_MISMATCH
                        (VerifyParams.domain params) (domain this);
                      binding_failure NONCE_MISMATCH
                        (VerifyParams.nonce params) (nonce this);
                      expiration_failure E this checkTime;
                      not_before_failure E this checkTime ] with
                  | Some e' => Some (deliver opts (failure e'))
                  | None => Some (deliver opts (failure e))
                  end).
    { rewrite Hs, settled_fail, Hx by reflexivity.
      now destruct (first_some _). }
    destruct (negb (differs _ _)); cbn [outcome].
    + rewrite settled_resolve, Hx'. now destruct (first_some _).
    + rewrite settled_contract_wallet_and_fallback, Hx'.
      now destruct (first_some _).
Qed.

(** ** What a call does to the adapters *)

Lemma calls_app t u : calls (t ++ u) = (calls t ++ calls u)%list.
Proof. apply filter_app. Qed.

Lemma calls_emit ev x :
  calls (events (emit ev x)) =
  (calls (events x) ++ if is_call ev then [ev] else [])%list.
Proof. cbn. rewrite calls_app. cbn. now destruct (is_call ev). Qed.

Lemma calls_resolve r x : calls (events (resolve r x)) = calls (events x).
Proof. cbn. rewrite calls_app. cbn. apply app_nil_r. Qed.

Lemma calls_reject r x : calls (events (reject r x)) = calls (events x).
Proof. cbn. rewrite calls_app. cbn. apply app_nil_r. Qed.

Lemma calls_fail opts r x : calls (events (fail opts r x)) = calls (events x).
Proof.
  unfold fail. destruct (suppresses opts);
    [apply calls_resolve | apply calls_reject].
Qed.

Lemma calls_fail_if opts e x : calls (events (fail_if opts e x)) = calls (events x).
Proof. destruct e; [apply calls_fail | reflexivity]. Qed.

Lemma calls_join_proofs opts e f x :
  calls (events (join_proofs opts e f x)) = calls (events x).
Proof.
  unfold join_proofs.
  destruct f as [r|]; [destruct (success r) | destruct (success e)];
    auto using calls_resolve, calls_fail.
Qed.

Lemma calls_recover E text sig x :
  calls (events (snd (recover E text sig x))) =
  (calls (events x) ++ [EvVerifyMessage text sig])%list.
Proof.
  unfold recover.
  destruct (verifyMessage E text sig); cbn [snd].
  - now rewrite calls_emit.
  - rewrite !calls_emit. cbn. now rewrite app_nil_r.
Qed.

Lemma calls_contract_wallet_and_fallback E opts this params addr x :
  calls (events (contract_wallet_and_fallback E opts this params addr x)) =
  (calls (events x)
     ++ EvCheckContractWallet this (VerifyParams.signature params)
          (VerifyOpts.provider (VerifyOpts.fields opts))
     :: match VerifyOpts.verificationFallback opts with
        | Some _ =>
            [EvFallback this
               (EIP1271Promise this addr
                  (checkContractWalletSignature E this
                     (VerifyParams.signature params)
                     (VerifyOpts.provider (VerifyOpts.fields opts))))]
        | None => []
        end)%list.
Proof.
  unfold contract_wallet_and_fallback; cbv zeta.
  destruct (EIP1271Promise _ _ _) as [e|];
    destruct (VerifyOpts.verificationFallback opts) as [f|];
    try destruct (fallback_element _) as [r|];
    rewrite ?calls_join_proofs, ?calls_emit; cbn [is_call];
    rewrite <- ?app_assoc; reflexivity.
Qed.

(** The adapter calls of [verify] do not depend on whether a check has
    failed. *)
Lemma verify_calls E this params opts_arg w :
  calls (trace (verify E this params opts_arg w)) =
  adapter_calls E this params opts_arg w.
Proof.
  unfold verify, adapter_calls, serialized; cbv zeta.
  set (opts := match opts_arg with Some o => o | None => default_opts end).
  rewrite check_params_keys_fail_if, check_opts_keys_fail_if,
    check_scheme_fail_if, check_domain_fail_if, check_nonce_fail_if.
  destruct (check_time E (VerifyParams.time params) w) as [checkTime w1].
  rewrite check_expiration_fail_if, check_not_before_fail_if. cbn [snd].
  set (x := fail_if opts (not_before_failure E this checkTime) _).
  assert (Hx : calls (events x) = []).
  { subst x. now rewrite !calls_fail_if. }
  clearbody x.
  unfold serialize_or_fail.
  destruct (prepareMessage E this w1) as [[[text this']|e] w2].
  - destruct (recover E (Some text) (VerifyParams.signature params) x)
      as [addr x'] eqn:Hrec.
    pose proof (settled_recover E (Some text) (VerifyParams.signature params) x)
      as [_ Ha].
    pose proof (calls_recover E (Some text) (VerifyParams.signature params) x)
      as Hc.
    rewrite Hrec in Ha, Hc; cbn in Ha, Hc. subst addr. rewrite Hx in Hc.
    destruct (negb (differs _ _)); cbn [trace].
    + now rewrite calls_resolve, Hc.
    + now rewrite calls_contract_wallet_and_fallback, Hc.
  - destruct (recover E None (VerifyParams.signature params) _)
      as [addr x'] eqn:Hrec.
    match type of Hrec with recover _ _ _ ?y = _ =>
      pose proof (settled_recover E None (VerifyParams.signature params) y)
        as [_ Ha];
      pose proof (calls_recover E None (VerifyParams.signature params) y)
        as Hc
    end.
    rewrite Hrec in Ha, Hc; cbn in Ha, Hc. subst addr.
    rewrite calls_fail, Hx in Hc.
    destruct (negb (differs _ _)); cbn [trace].
    + now rewrite calls_resolve, Hc.
    + now rewrite calls_contract_wallet_and_fallback, Hc.
Qed.

(** The message object as [verify] leaves it. *)
Lemma verify_this_after E this params opts_arg w :
  this_after (verify E this params opts_arg w) =
  snd (serialized E this (snd (check_time E (VerifyParams.time params) w))).
Proof.
  unfold verify, serialized, serialize_or_fail; cbv zeta.
  destruct (check_time E (VerifyParams.time params) w) as [checkTime w1].
  cbn [snd].
  destruct (prepareMessage E this w1) as [[[text this']|e] w2];
    destruct (recover _ _ _ _) as [addr x'];
    destruct (negb (differs _ _)); reflexivity.
Qed.

(** ** C1: a failed check and the stages after it *)

(** C1, as the claim states it, fails: in the call of [sample_message]
    with [other_domain_params] the domain check fails and rejects the
    promise, and the run goes on to recover the address from the
    signature and to call the contract-wallet adapter. *)
Lemma later_stages_run_after_domain_mismatch :
  first_failure sample_env sample_message other_domain_params default_opts
    (fst (check_time sample_env (VerifyParams.time other_domain_params)
            sample_world))
  = Some domain_mismatch
  /\ trace (verify sample_env sample_message other_domain_params None
              sample_world)
     = [ EvReject (failure domain_mismatch);
         EvVerifyMessage (Some sample_text) "0xdead";
         EvCheckContractWallet sample_message "0xdead" None;
         EvReject
           (failure
              (SiweError INVALID_SIGNATURE (Some "0xdead")
                 (Some "Resolved address to be 0xAbC"))) ].
Proof. split; vm_compute; reflexivity. Qed.

(** C1 (amended): in every call in which a check fails, the promise
    settles with the failure of the first failing check, delivered by
    [fail], and a failure of the serialization settles it when no check
    has failed; the later stages are evaluated all the same: the address
    is recovered from the signature in every call, and the contract-wallet
    adapter is called whenever the recovered address is not the
    message's. *)
Theorem first_failure_settles_and_later_stages_run
    (E : Env) (this : SiweMessage) (params : VerifyParams.t)
    (opts_arg : option VerifyOpts.t) (w : World) :
  let opts := match opts_arg with Some o => o | None => default_opts end in
  let run := verify E this params opts_arg w in
  let signature := VerifyParams.signature params in
  let '(checkTime, w1) := check_time E (VerifyParams.time params) w in
  (forall e,
      first_failure E this params opts checkTime = Some e ->
      outcome run = Some (deliver opts (failure e)))
  /\ (forall e w2,
         first_failure E this params opts checkTime = None ->
         prepareMessage E this w1 = (Throws e, w2) ->
         outcome run = Some (deliver opts (failure e)))
  /\ (exists text,
         In (EvVerifyMessage text signature) (trace run)
         /\ (differs (recovered E text signature) (address (this_after run))
             = true ->
             In (EvCheckContractWallet (this_after run) signature
                   (VerifyOpts.provider (VerifyOpts.fields opts)))
                (trace run))).
Proof.
  cbv zeta.
  destruct (check_time E (VerifyParams.time params) w) as [checkTime w1] eqn:Hct.
  split; [|split].
  - intros e He. rewrite verify_outcome. unfold short_circuit_verify.
    rewrite Hct, He. reflexivity.
  - intros e w2 Hnone Hprep. rewrite verify_outcome.
    unfold short_circuit_verify. rewrite Hct, Hnone, Hprep. reflexivity.
  - pose proof (verify_calls E this params opts_arg w) as Hcalls.
    pose proof (verify_this_after E this params opts_arg w) as Hthis.
    unfold adapter_calls in Hcalls. cbv zeta in Hcalls.
    rewrite Hct in Hcalls, Hthis. cbn [snd] in Hcalls, Hthis.
    destruct (serialized E this w1) as [text this'].
    cbn [snd] in Hthis. rewrite Hthis.
    exists text. split.
    + apply (proj1 (filter_In is_call _ _)).
      fold (calls (trace (verify E this params opts_arg w))).
      rewrite Hcalls. now left.
    + intros Hd.
      apply (proj1 (filter_In is_call _ _)).
      fold (calls (trace (verify E this params opts_arg w))).
      rewrite Hcalls, Hd. cbn. right. now left.
Qed.

(** The amended statement at the example: the domain failure settles the
    promise, and both adapters are called. *)
Lemma first_failure_settles_and_later_stages_run_witness :
  outcome (verify sample_env sample_message other_domain_params None
             sample_world)
  = Some (Rejects (failure domain_mismatch))
  /\ In (EvCheckContractWallet sample_message "0xdead" None)
        (trace (verify sample_env sample_message other_domain_params None
                  sample_world)).
Proof.
  pose proof (first_failure_settles_and_later_stages_run sample_env
                sample_message other_domain_params None sample_world) as H.
  cbv zeta in H.
  change (check_time sample_env (VerifyParams.time other_domain_params)
            sample_world)
    with (Some 1700000000000%Z, mkWorld 0 1) in H.
  destruct H as (Hfirst & _ & text & Hin & Hcw).
  split.
  - apply (Hfirst domain_mismatch). vm_compute. reflexivity.
  - vm_compute. right. right. left. reflexivity.
Defined.

(** ** C2: a mismatched domain on an expired message *)

Lemma error_deliver_failure opts e :
  error (response_of (deliver opts (failure e))) = Some e.
Proof. unfold deliver; cbn. now destruct (suppresses opts). Qed.

Lemma binding_failure_some type override actual :
  truthy override = true -> differs override actual = true ->
  binding_failure type override actual = Some (SiweError type override actual).
Proof. intros Ht Hd. unfold binding_failure. now rewrite Ht, Hd. Qed.

(** C2: when the domain override differs from the message's domain and
    the expiration time is at or before the check time, the call fails
    and the error it carries is never [EXPIRED_MESSAGE]; it is
    [DOMAIN_MISMATCH] when the domain check is the first to fail, that
    is, when the keys and the scheme pass. *)
Theorem domain_mismatch_wins_over_expiry
    (E : Env) (this : SiweMessage) (params : VerifyParams.t)
    (opts_arg : option VerifyOpts.t) (w : World) (c b : Z) :
  let opts := match opts_arg with Some o => o | None => default_opts end in
  let run := verify E this params opts_arg w in
  truthy (VerifyParams.domain params) = true ->
  differs (VerifyParams.domain params) (domain this) = true ->
  truthy (expirationTime this) = true ->
  getTime E (tpl (expirationTime this)) = Some b ->
  fst (check_time E (VerifyParams.time params) w) = Some c ->
  (b <= c)%Z ->
  expiration_failure E this (Some c) = Some (expired_error E c b)
  /\ (exists e,
         outcome run = Some (deliver opts (failure e))
         /\ outcome_error (outcome run) = Some e
         /\ is_expired_error e = false)
  /\ (params_keys_failure params = None ->
      opts_keys_failure opts = None ->
      binding_failure SCHEME_MISMATCH (VerifyParams.scheme params) (scheme this)
      = None ->
      outcome run =
      Some (deliver opts
              (failure (SiweError DOMAIN_MISMATCH (VerifyParams.domain params)
                          (domain this))))).
Proof.
  cbv zeta. intros Ht Hd Hexp Hb Hc Hle.
  rewrite verify_outcome. unfold short_circuit_verify, first_failure.
  destruct (check_time E (VerifyParams.time params) w) as [checkTime w1].
  cbn [fst] in Hc. subst checkTime.
  rewrite (binding_failure_some DOMAIN_MISMATCH _ _ Ht Hd).
  split; [|split].
  - unfold expiration_failure. rewrite Hb, Hexp.
    apply Z.leb_le in Hle. now rewrite Hle.
  - unfold params_keys_failure, opts_keys_failure, binding_failure; cbv zeta.
    destruct (0 <? _)%nat;
      [|destruct (0 <? _)%nat; [|destruct (_ && _)]];
      cbn [first_some]; eexists; (split; [reflexivity|]);
      cbn [outcome_error]; rewrite error_deliver_failure; split; reflexivity.
  - intros -> -> ->. reflexivity.
Qed.

(** C2 at [expired_message], checked at a time after its expiration with
    the override [other.com]: the call is rejected with
    [DOMAIN_MISMATCH]. *)
Lemma domain_mismatch_wins_over_expiry_witness :
  outcome (verify sample_env expired_message other_domain_params None
             sample_world)
  = Some (Rejects (failure domain_mismatch)).
Proof.
  refine (proj2 (proj2 (domain_mismatch_wins_over_expiry sample_env
                          expired_message other_domain_params None
                          sample_world 1700000000000 1650000000000
                          _ _ _ _ _ _)) _ _ _);
    vm_compute; try reflexivity.
  discriminate.
Defined.

(** ** The serializer, line by line *)

Lemma concat_cons_cons sep a b l :
  String.concat sep (a :: b :: l) = a ++ sep ++ String.concat sep (b :: l).
Proof. reflexivity. Qed.

Lemma string_app_assoc (a b c : string) : (a ++ b) ++ c = a ++ b ++ c.
Proof. induction a; cbn; congruence. Qed.

Lemma string_app_nil_r (a : string) : a ++ "" = a.
Proof. induction a; cbn; congruence. Qed.

Lemma concat_app sep l1 l2 :
  l1 <> [] -> l2 <> [] ->
  String.concat sep (l1 ++ l2) =
  String.concat sep l1 ++ sep ++ String.concat sep l2.
Proof.
  intros H1 H2. induction l1 as [|a [|b l1] IH]; [easy| |].
  - destruct l2; [easy|reflexivity].
  - change ((a :: b :: l1) ++ l2)%list with (a :: b :: (l1 ++ l2))%list.
    rewrite !concat_cons_cons.
    change (b :: (l1 ++ l2))%list with ((b :: l1) ++ l2)%list.
    rewrite IH by discriminate. now rewrite !string_app_assoc.
Qed.

(** Joining with a block that was itself joined is joining the lines. *)
Lemma join_push_block l block :
  l <> [] -> block <> [] ->
  join LF (push l (join LF block)) = join LF (l ++ block)%list.
Proof.
  intros Hl Hb. unfold join, push.
  rewrite !concat_app by easy. reflexivity.
Qed.

Lemma join_push l x :
  l <> [] -> join LF (push l x) = join LF l ++ LF ++ x.
Proof. intros Hl. unfold join, push. now rewrite concat_app. Qed.

Lemma or_else_chain v : or_else ("Chain ID: " ++ v) "1" = "Chain ID: " ++ v.
Proof. reflexivity. Qed.

Lemma push_nonempty l x : push l x <> [].
Proof. unfold push. now destruct l. Qed.

(** The text [toMessage] builds from an object whose defaults are filled. *)
Lemma toMessage_text (E : Env) (this : SiweMessage) (w : World) :
  toMessage E this w =
  (m <- fill_nonce E this ;;
   m <- fill_issuedAt E m ;;
   ret (join LF (message_lines m), m)) w.
Proof.
  unfold toMessage, fill_nonce, fill_issuedAt, bind, ret; cbv zeta.
  destruct (truthy (nonce this)) eqn:Hn.
  2: unfold generateNonce; destruct (generateNonce_at E (rng_calls w)) as [n|e];
     [|reflexivity].
  all: match goal with
       | |- context [truthy (issuedAt ?m)] =>
           destruct (truthy (issuedAt m)) eqn:Hi
       end.
  all: cbn [new_Date].
  all: match goal with
       | |- (Ok (?t, ?m), ?w) = (Ok (?t', ?m), ?w) =>
           enough (t = t') by congruence
       end.
  all: unfold message_lines, optional_line, header_line, statement_lines,
         resources_lines, field_line.
  all: rewrite or_else_chain.
  all: cbn [scheme domain address statement uri version chainId nonce issuedAt
              expirationTime notBefore requestId resources set_nonce
              set_issuedAt].
  all: destruct (truthy (expirationTime this)),
         (truthy (notBefore this)), (truthy (requestId this)),
         (resources this) as [rs|], (statement this) as [st|].
  all: cbn [elt app].
  all: repeat match goal with
         | |- context [join LF (push ?l (join LF ?b))] =>
             rewrite (join_push_block l b)
               by (try apply push_nonempty; discriminate)
         end.
  all: unfold push, join; cbn [app String.concat];
    rewrite ?string_app_assoc; cbn [append]; reflexivity.
Qed.

Lemma prepareMessage_toMessage E this : prepareMessage E this = toMessage E this.
Proof. unfold prepareMessage. now destruct (_ =? _). Qed.

(** What serializing leaves on the object: only a falsy [nonce] and a
    falsy [issuedAt] are written. *)
Lemma prepareMessage_this E this w text m w' :
  prepareMessage E this w = (Ok (text, m), w') ->
  text = join LF (message_lines m)
  /\ m = set_issuedAt (set_nonce this (nonce m)) (issuedAt m)
  /\ (truthy (nonce this) = true -> nonce m = nonce this)
  /\ (truthy (issuedAt this) = true -> issuedAt m = issuedAt this).
Proof.
  rewrite prepareMessage_toMessage, toMessage_text.
  unfold fill_nonce, fill_issuedAt, bind, ret.
  destruct (truthy (nonce this)) eqn:Hn.
  2: unfold generateNonce; destruct (generateNonce_at E (rng_calls w)) as [n|e];
     [|discriminate].
  all: match goal with
       | |- context [truthy (issuedAt ?m)] =>
           destruct (truthy (issuedAt m)) eqn:Hi
       end.
  all: cbn [new_Date].
  all: intros [= <- <- <-]; destruct this; cbn in *; repeat split;
    try reflexivity; congruence.
Qed.

Lemma prepareMessage_address E this w text m w' :
  prepareMessage E this w = (Ok (text, m), w') -> address m = address this.
Proof.
  intros H. apply prepareMessage_this in H as (_ & -> & _). reflexivity.
Qed.

(** ** C3: a signature that recovers the address *)

(** C3: when the address recovered from the serialized message and the
    signature is the message's address, the only adapter called is the
    signature recovery, neither the contract-wallet adapter nor the
    fallback is invoked, and, no check having failed before, the call
    resolves with [{success: true, data: this}]. *)
Theorem direct_match_resolves_without_contract_wallet
    (E : Env) (this : SiweMessage) (params : VerifyParams.t)
    (opts_arg : option VerifyOpts.t) (w : World)
    (text a : string) (this' : SiweMessage) (w2 : World) :
  let opts := match opts_arg with Some o => o | None => default_opts end in
  let run := verify E this params opts_arg w in
  let signature := VerifyParams.signature params in
  let '(checkTime, w1) := check_time E (VerifyParams.time params) w in
  prepareMessage E this w1 = (Ok (text, this'), w2) ->
  verifyMessage E (Some text) signature = Ok a ->
  address this = Some a ->
  (first_failure E this params opts checkTime = None ->
   outcome run = Some (Resolves (mkResponse true this_object None)))
  /\ this_after run = this'
  /\ (forall ev,
         In ev (trace run) -> is_call ev = true ->
         ev = EvVerifyMessage (Some text) signature).
Proof.
  cbv zeta.
  destruct (check_time E (VerifyParams.time params) w) as [checkTime w1] eqn:Hct.
  intros Hprep Hrec Haddr.
  assert (Hdirect : negb (differs (recovered E (Some text)
                                      (VerifyParams.signature params))
                            (address this')) = true).
  { unfold recovered. rewrite Hrec, (prepareMessage_address _ _ _ _ _ _ Hprep),
      Haddr. cbn. now rewrite String.eqb_refl. }
  split; [|split].
  - intros Hnone. rewrite verify_outcome. unfold short_circuit_verify.
    rewrite Hct, Hnone, Hprep. cbv zeta. now rewrite Hdirect.
  - rewrite verify_this_after, Hct. unfold serialized. cbn [snd].
    now rewrite Hprep.
  - intros ev Hin Hcall.
    assert (Hc : In ev (calls (trace (verify E this params opts_arg w)))).
    { apply filter_In. now split. }
    rewrite verify_calls in Hc. unfold adapter_calls, serialized in Hc.
    cbv zeta in Hc. rewrite Hct in Hc. cbn [snd] in Hc.
    rewrite Hprep, Hdirect in Hc.
    destruct Hc as [<-|[]]. reflexivity.
Qed.

(** C3 at [sample_message] and the signature ["0xAbC"], which the example
    adapter recovers to the message's address. *)
Lemma direct_match_resolves_without_contract_wallet_witness :
  outcome (verify sample_env sample_message
             (VerifyParams.mk "0xAbC" None None None None []) None
             sample_world)
  = Some (Resolves (mkResponse true this_object None)).
Proof.
  pose proof (direct_match_resolves_without_contract_wallet sample_env
                sample_message
                (VerifyParams.mk "0xAbC" None None None None []) None
                sample_world sample_text "0xAbC" sample_message
                (mkWorld 0 1)) as H.
  cbv zeta in H.
  change (check_time sample_env
            (VerifyParams.time (VerifyParams.mk "0xAbC" None None None None []))
            sample_world)
    with (Some 1700000000000%Z, mkWorld 0 1) in H.
  apply H; vm_compute; reflexivity.
Defined.

(** ** C4: the fallback and the contract-wallet proof *)

(** C4: in a call that reaches the last stage (no check failed, the
    message was serialized, the recovered address is not the message's)
    and whose contract-wallet proof settles with the response [cw], the
    response [r] of a supplied fallback is the result whatever [cw] is,
    and a success of the fallback is a success of the call even when
    [cw] is a failure; with no fallback, [cw] is the result. *)
Theorem fallback_response_is_terminal
    (E : Env) (this : SiweMessage) (params : VerifyParams.t)
    (opts_arg : option VerifyOpts.t) (w : World)
    (text : string) (this' : SiweMessage) (w2 : World) (cw : SiweResponse) :
  let opts := match opts_arg with Some o => o | None => default_opts end in
  let run := verify E this params opts_arg w in
  let signature := VerifyParams.signature params in
  let provider := VerifyOpts.provider (VerifyOpts.fields opts) in
  let addr := recovered E (Some text) signature in
  let '(checkTime, w1) := check_time E (VerifyParams.time params) w in
  first_failure E this params opts checkTime = None ->
  prepareMessage E this w1 = (Ok (text, this'), w2) ->
  differs addr (address this) = true ->
  EIP1271Promise this' addr
    (checkContractWalletSignature E this' signature provider) = Some cw ->
  (forall f r,
      VerifyOpts.verificationFallback opts = Some f ->
      settles_with (f params (VerifyOpts.fields opts) this' (Some cw)) r ->
      outcome run = Some (deliver opts r)
      /\ (success r = true -> outcome run = Some (Resolves r)))
  /\ (VerifyOpts.verificationFallback opts = None ->
      outcome run = Some (deliver opts cw)).
Proof.
  cbv zeta.
  destruct (check_time E (VerifyParams.time params) w) as [checkTime w1] eqn:Hct.
  intros Hnone Hprep Hdiff Hcw.
  assert (Hrun : outcome (verify E this params opts_arg w) =
                 option_map
                   (deliver (match opts_arg with
                             | Some o => o
                             | None => default_opts
                             end))
                   (proofs_verdict E
                      (match opts_arg with Some o => o | None => default_opts end)
                      this' params
                      (recovered E (Some text) (VerifyParams.signature params)))).
  { rewrite verify_outcome. unfold short_circuit_verify.
    rewrite Hct, Hnone, Hprep. cbv zeta.
    rewrite (prepareMessage_address _ _ _ _ _ _ Hprep), Hdiff. reflexivity. }
  rewrite Hrun. unfold proofs_verdict; cbv zeta. rewrite Hcw.
  split.
  - intros f r Hf Hr. rewrite Hf.
    assert (Hel : fallback_element
                    (f params
                       (VerifyOpts.fields
                          (match opts_arg with
                           | Some o => o
                           | None => default_opts
                           end)) this' (Some cw)) = Some (Some r)).
    { destruct Hr as [-> | ->]; reflexivity. }
    rewrite Hel. cbn [option_map]. split; [reflexivity|].
    intros Hs. unfold deliver. now rewrite Hs.
  - intros Hf. rewrite Hf. reflexivity.
Qed.

(** C4 at the example: the contract-wallet check answers [false], the
    fallback answers with a success, and the call resolves with the
    fallback's response. *)
Lemma fallback_response_is_terminal_witness :
  outcome (verify sample_env sample_message
             (VerifyParams.mk "0xdead" None None None None [])
             (Some accepting_fallback_opts) sample_world)
  = Some (Resolves (mkResponse true this_object None)).
Proof.
  pose proof (fallback_response_is_terminal sample_env sample_message
                (VerifyParams.mk "0xdead" None None None None [])
                (Some accepting_fallback_opts) sample_world sample_text
                sample_message (mkWorld 0 1)
                (failure (SiweError INVALID_SIGNATURE (Some "0xdead")
                            (Some "Resolved address to be 0xAbC")))) as H.
  cbv zeta in H.
  change (check_time sample_env
            (VerifyParams.time
               (VerifyParams.mk "0xdead" None None None None []))
            sample_world)
    with (Some 1700000000000%Z, mkWorld 0 1) in H.
  destruct H as [H _]; [vm_compute; reflexivity ..|].
  refine (proj2 (H (fun _ _ _ _ =>
                      Some (Fulfilled (Some (mkResponse true this_object None))))
                   (mkResponse true this_object None) eq_refl _) eq_refl).
  left. reflexivity.
Defined.

(** ** C5: the bounds of the validity interval *)

(** C5: at a check time equal to the expiration time the expiration
    check fails and, the checks before it passing, the call fails with
    [EXPIRED_MESSAGE]; at a check time equal to the not-before time the
    not-before check passes: it raises no failure and leaves the promise as
    it is. *)
Theorem temporal_bounds
    (E : Env) (this : SiweMessage) (params : VerifyParams.t)
    (opts_arg : option VerifyOpts.t) (w : World) (t : Z) :
  let opts := match opts_arg with Some o => o | None => default_opts end in
  let run := verify E this params opts_arg w in
  fst (check_time E (VerifyParams.time params) w) = Some t ->
  (truthy (expirationTime this) = true ->
   getTime E (tpl (expirationTime this)) = Some t ->
   expiration_failure E this (Some t) = Some (expired_error E t t)
   /\ (params_keys_failure params = None ->
       opts_keys_failure opts = None ->
       binding_failure SCHEME_MISMATCH (VerifyParams.scheme params)
         (scheme this) = None ->
       binding_failure DOMAIN_MISMATCH (VerifyParams.domain params)
         (domain this) = None ->
       binding_failure NONCE_MISMATCH (VerifyParams.nonce params)
         (nonce this) = None ->
       outcome run = Some (deliver opts (failure (expired_error E t t)))))
  /\ (truthy (notBefore this) = true ->
      getTime E (tpl (notBefore this)) = Some t ->
      not_before_failure E this (Some t) = None
      /\ forall x, check_not_before E opts this (Some t) x = x).
Proof.
  cbv zeta. intros Hct. split.
  - intros Hexp Hb.
    assert (Hfail : expiration_failure E this (Some t)
                    = Some (expired_error E t t)).
    { unfold expiration_failure. now rewrite Hb, Hexp, Z.leb_refl. }
    split; [exact Hfail|].
    intros Hp Ho Hs Hd Hn.
    rewrite verify_outcome. unfold short_circuit_verify, first_failure.
    destruct (check_time E (VerifyParams.time params) w) as [checkTime w1].
    cbn [fst] in Hct. subst checkTime.
    now rewrite Hp, Ho, Hs, Hd, Hn, Hfail.
  - intros Hnb Hb.
    assert (Hpass : not_before_failure E this (Some t) = None).
    { unfold not_before_failure. now rewrite Hb, Hnb, Z.ltb_irrefl. }
    split; [exact Hpass|].
    intros x. now rewrite check_not_before_fail_if, Hpass.
Qed.

(** C5 at [bounded_message]: checked at its expiration time the call is
    rejected as expired, and checked at its not-before time the
    not-before check raises nothing. *)
Lemma temporal_bounds_witness :
  outcome (verify sample_env bounded_message
             (VerifyParams.mk "0xAbC" None None None (Some "1700000000000") [])
             None sample_world)
  = Some (Rejects
            (failure (expired_error sample_env 1700000000000 1700000000000)))
  /\ not_before_failure sample_env bounded_message (Some 1650000000000%Z)
     = None.
Proof.
  split.
  - refine (proj2 (proj1 (temporal_bounds sample_env bounded_message
                            (VerifyParams.mk "0xAbC" None None None
                               (Some "1700000000000") [])
                            None sample_world 1700000000000 _) _ _)
              _ _ _ _ _); vm_compute; reflexivity.
  - refine (proj1 (proj2 (temporal_bounds sample_env bounded_message
                            (VerifyParams.mk "0xAbC" None None None
                               (Some "1650000000000") [])
                            None sample_world 1650000000000 _) _ _));
      vm_compute; reflexivity.
Defined.

(** ** C9: the two disciplines of failure *)

Lemma verify_delivers_verdict E this params opts w :
  outcome (verify E this params (Some opts) w) =
  option_map (deliver opts) (verdict E this params opts w).
Proof.
  rewrite verify_outcome. unfold short_circuit_verify, verdict.
  destruct (check_time E (VerifyParams.time params) w) as [checkTime w1].
  destruct (first_failure E this params opts checkTime); [reflexivity|].
  destruct (prepareMessage E this w1) as [[[text this']|e] w2];
    [|reflexivity].
  cbv zeta. now destruct (negb (differs _ _)).
Qed.

Lemma opts_keys_failure_with_suppress flag o :
  opts_keys_failure (with_suppress flag o) = opts_keys_failure (with_suppress None o).
Proof.
  unfold opts_keys_failure, opts_keys, with_suppress; cbn.
  now destruct flag.
Qed.

Lemma verdict_with_suppress E this params o w flag flag' :
  fallback_ignores_suppress o params ->
  verdict E this params (with_suppress flag o) w =
  verdict E this params (with_suppress flag' o) w.
Proof.
  intros Hfb. unfold verdict, first_failure.
  destruct (check_time E (VerifyParams.time params) w) as [checkTime w1].
  rewrite (opts_keys_failure_with_suppress flag),
    (opts_keys_failure_with_suppress flag').
  destruct (first_some _); [reflexivity|].
  destruct (prepareMessage E this w1) as [[[text this']|e] w2];
    [|reflexivity].
  cbv zeta. destruct (negb (differs _ _)); [reflexivity|].
  unfold proofs_verdict; cbn.
  destruct (VerifyOpts.verificationFallback o) as [f|] eqn:Hf; [|reflexivity].
  now rewrite (Hfb f flag flag' _ _ Hf).
Qed.

(** C9: a failure is one and the same response under both disciplines.
    For options that differ only in [suppressExceptions], the call with
    the flag set resolves with a failed response [r] exactly when the
    call with the flag [false] or absent rejects with [r]; with the flag
    set no call rejects, and without it no call resolves with a failed
    response. *)
Theorem same_failure_under_both_disciplines
    (E : Env) (this : SiweMessage) (params : VerifyParams.t)
    (o : VerifyOpts.t) (w : World) (flag : option bool) :
  let suppressed := verify E this params (Some (with_suppress (Some true) o)) w in
  let thrown := verify E this params (Some (with_suppress flag o)) w in
  fallback_ignores_suppress o params ->
  flag <> Some true ->
  (forall r,
      success r = false ->
      outcome suppressed = Some (Resolves r) <-> outcome thrown = Some (Rejects r))
  /\ (forall r, outcome suppressed <> Some (Rejects r))
  /\ (forall r, outcome thrown = Some (Resolves r) -> success r = true).
Proof.
  cbv zeta. intros Hfb Hflag.
  rewrite !verify_delivers_verdict.
  rewrite (verdict_with_suppress E this params o w flag (Some true) Hfb).
  assert (Hnot : suppresses (with_suppress flag o) = false).
  { unfold suppresses; cbn. destruct flag as [[|]|]; congruence. }
  destruct (verdict E this params (with_suppress (Some true) o) w) as [v|];
    cbn [option_map]; unfold deliver; rewrite ?Hnot;
    change (suppresses (with_suppress (Some true) o)) with true.
  - split; [|split].
    + intros r Hr. destruct (success v) eqn:Hv; split; intros [= <-];
        congruence.
    + intros r. destruct (success v); discriminate.
    + intros r. destruct (success v) eqn:Hv; intros [= <-]. exact Hv.
  - split; [|split]; intros r; try split; discriminate.
Qed.

(** C9 at the example: the domain failure of [other_domain_params] is
    resolved with the flag set and rejected, the same response, with
    the flag absent. *)
Lemma same_failure_under_both_disciplines_witness :
  outcome (verify sample_env sample_message other_domain_params
             (Some (with_suppress None default_opts)) sample_world)
  = Some (Rejects (failure domain_mismatch)).
Proof.
  refine (proj1 (proj1 (same_failure_under_both_disciplines sample_env
                          sample_message other_domain_params default_opts
                          sample_world None _ _)
                   (failure domain_mismatch) eq_refl) _).
  - intros f flag flag' m h Hf. discriminate Hf.
  - discriminate.
  - vm_compute. reflexivity.
Defined.

(** ** C6: the line order of the serializer *)

(** C6, as the claim states it, fails on the header: a scheme that is
    present as the empty string gets no [://] prefix, because line 115
    tests the truthiness of [this.scheme]. *)
Lemma empty_scheme_gets_no_prefix :
  scheme empty_scheme_message = Some ""
  /\ toMessage sample_env empty_scheme_message sample_world
     = (Ok (sample_text, empty_scheme_message), sample_world)
  /\ hd "" (split_lines sample_text)
     = "example.com wants you to sign in with your Ethereum account:"
  /\ claimed_header_line empty_scheme_message
     = "://example.com wants you to sign in with your Ethereum account:".
Proof. repeat split; vm_compute; reflexivity. Qed.

Lemma string_app_inv_head (a x y : string) : a ++ x = a ++ y -> x = y.
Proof. induction a; cbn; [auto|]. intros [= H]. auto. Qed.

Lemma string_cons_neq (c : ascii) (s : string) : String c s <> s.
Proof.
  intros H. apply (f_equal String.length) in H. cbn in H.
  now apply Nat.neq_succ_diag_l in H.
Qed.

Lemma message_lines_statement m v :
  message_lines (set_statement m v) =
  ([header_line m; elt (address m); ""]
     ++ match v with Some s => [s] | None => [] end
     ++ tl (tl (tl (message_lines (set_statement m None)))))%list.
Proof. destruct v; reflexivity. Qed.

(** C6 (amended): [toMessage] fills a falsy [nonce] and a falsy
    [issuedAt] and returns exactly the lines of [message_lines], joined
    by line feeds with nothing after the last line: the header, with the
    [<scheme>://] prefix exactly when the scheme is present and not
    empty, the address, a blank line, the statement if present, a blank
    line, the [URI:], [Version:], [Chain ID:], [Nonce:] and [Issued At:]
    lines, the [Expiration Time:], [Not Before:] and [Request ID:] lines
    of the fields that are present and not empty, and the [Resources:]
    block with one [- <uri>] line per entry in order.  A statement that
    is the empty string is rendered as a line, and the text differs from
    that of an absent statement. *)
Theorem toMessage_emits_message_lines (E : Env) (this : SiweMessage) (w : World) :
  toMessage E this w =
  (m <- fill_nonce E this ;;
   m <- fill_issuedAt E m ;;
   ret (join LF (message_lines m), m)) w
  /\ join LF (message_lines (set_statement this (Some "")))
     <> join LF (message_lines (set_statement this None)).
Proof.
  split; [apply toMessage_text|].
  rewrite (message_lines_statement this (Some "")),
    (message_lines_statement this None).
  set (rest := tl (tl (tl (message_lines (set_statement this None))))).
  assert (Hrest : exists l, rest = "" :: l) by (eexists; reflexivity).
  destruct Hrest as [l ->].
  unfold join; cbn [app String.concat].
  intros H.
  repeat (apply string_app_inv_head in H).
  cbn in H.
  now apply string_cons_neq in H.
Qed.

(** ** Strings and lines *)

Lemma split_on_nonempty c s : split_on c s <> [].
Proof.
  destruct s as [|a s]; cbn; [discriminate|].
  destruct (Ascii.eqb a c); [discriminate|].
  destruct (split_on c s); discriminate.
Qed.

Lemma split_on_app_sep c a b :
  split_on c (a ++ String c b) = (split_on c a ++ split_on c b)%list.
Proof.
  induction a as [|x a IH]; cbn.
  - now rewrite Ascii.eqb_refl.
  - destruct (Ascii.eqb x c); [now rewrite IH|].
    rewrite IH.
    pose proof (split_on_nonempty c a) as Hne.
    destruct (split_on c a); [easy|reflexivity].
Qed.

Lemma split_lines_no_lf s : no_lf s = true -> split_lines s = [s].
Proof.
  unfold split_lines, no_lf.
  induction s as [|a s IH]; cbn; [reflexivity|].
  intros H. apply andb_prop in H as [Ha Hs].
  apply negb_true_iff in Ha. rewrite Ha, (IH Hs). reflexivity.
Qed.

Lemma split_lines_single s h : split_lines s = [h] -> s = h.
Proof.
  unfold split_lines. revert h.
  induction s as [|a s IH]; cbn; intros h.
  - now intros [= <-].
  - destruct (Ascii.eqb a "010").
    + pose proof (split_on_nonempty "010" s).
      destruct (split_on "010" s); [easy|discriminate].
    + pose proof (split_on_nonempty "010" s) as Hne.
      destruct (split_on "010" s) as [|l ls] eqn:Hs; [easy|].
      intros [= <- ->]. now rewrite (IH l eq_refl).
Qed.

Lemma split_lines_join ls :
  ls <> [] ->
  split_lines (join LF ls) = flat_map split_lines ls.
Proof.
  intros Hne. induction ls as [|a [|b ls] IH]; [easy| |].
  - cbn. now rewrite app_nil_r.
  - unfold join in *. rewrite concat_cons_cons.
    change (LF ++ String.concat LF (b :: ls))
      with (String "010" (String.concat LF (b :: ls))).
    unfold split_lines in *. rewrite split_on_app_sep, IH by discriminate.
    reflexivity.
Qed.

Lemma flat_map_split_no_lf ls :
  forallb no_lf ls = true -> flat_map split_lines ls = ls.
Proof.
  induction ls as [|a ls IH]; cbn; [reflexivity|].
  intros H. apply andb_prop in H as [Ha Hls].
  now rewrite (split_lines_no_lf a Ha), (IH Hls).
Qed.

(** The first line of a tagged field starts with the tag. *)
Lemma split_lines_tagged tag v :
  no_lf tag = true ->
  exists h t,
    split_lines v = h :: t /\ split_lines (tag ++ v) = (tag ++ h) :: t.
Proof.
  intros Htag. unfold split_lines, no_lf in *.
  pose proof (split_on_nonempty "010" v) as Hne.
  destruct (split_on "010" v) as [|h t] eqn:Hv; [easy|].
  exists h, t. split; [reflexivity|].
  induction tag as [|a tag IH]; cbn; [exact Hv|].
  cbn in Htag. apply andb_prop in Htag as [Ha Ht].
  apply negb_true_iff in Ha. now rewrite Ha, (IH Ht).
Qed.

Lemma strip_prefix_app p s : strip_prefix p (p ++ s) = Some s.
Proof.
  induction p as [|a p IH]; cbn; [now destruct s|].
  now rewrite Ascii.eqb_refl.
Qed.

Lemma strip_prefix_inv p s r : strip_prefix p s = Some r -> s = p ++ r.
Proof.
  revert s. induction p as [|a p IH]; intros s; cbn.
  - destruct s; now intros [= <-].
  - destruct s as [|b s]; [discriminate|].
    destruct (Ascii.eqb_spec a b) as [->|]; [|discriminate].
    intros H. now rewrite (IH _ H).
Qed.

Lemma string_rev_app a b : string_rev (a ++ b) = string_rev b ++ string_rev a.
Proof.
  induction a as [|x a IH]; cbn.
  - now rewrite string_app_nil_r.
  - now rewrite IH, string_app_assoc.
Qed.

Lemma string_rev_involutive a : string_rev (string_rev a) = a.
Proof.
  induction a as [|x a IH]; cbn; [reflexivity|].
  now rewrite string_rev_app, IH.
Qed.

Lemma strip_suffix_app q s : strip_suffix q (s ++ q) = Some s.
Proof.
  unfold strip_suffix.
  now rewrite string_rev_app, strip_prefix_app; cbn; rewrite string_rev_involutive.
Qed.

Lemma strip_scheme_sep_lacks_slash d :
  lacks "/" d = true -> strip_prefix "://" d = None.
Proof.
  unfold lacks. destruct d as [|a [|b d]]; cbn -[Ascii.eqb]; [reflexivity| |].
  - intros _. now destruct (Ascii.eqb ":" a).
  - intros H. apply andb_prop in H as [_ H]. apply andb_prop in H as [Hb _].
    apply negb_true_iff in Hb. rewrite Ascii.eqb_sym in Hb. rewrite Hb.
    now destruct (Ascii.eqb ":" a).
Qed.

Lemma cut_scheme_cons a s :
  cut_scheme (String a s) =
  match strip_prefix "://" (String a s) with
  | Some rest => Some ("", rest)
  | None =>
      match cut_scheme s with
      | Some (l, r) => Some (String a l, r)
      | None => None
      end
  end.
Proof. reflexivity. Qed.

Lemma cut_scheme_none d : lacks "/" d = true -> cut_scheme d = None.
Proof.
  induction d as [|a d IH]; [reflexivity|].
  intros H. rewrite cut_scheme_cons, (strip_scheme_sep_lacks_slash _ H).
  unfold lacks in *. cbn -[Ascii.eqb] in H. apply andb_prop in H as [_ Hd].
  now rewrite (IH Hd).
Qed.

Lemma cut_scheme_app s d :
  lacks ":" s = true -> cut_scheme (s ++ "://" ++ d) = Some (s, d).
Proof.
  unfold lacks. induction s as [|a s IH].
  - intros _. cbn. now destruct d.
  - cbn -[Ascii.eqb cut_scheme]. intros H. apply andb_prop in H as [Ha Hs].
    apply negb_true_iff in Ha. rewrite Ascii.eqb_sym in Ha.
    rewrite cut_scheme_cons. cbn -[Ascii.eqb cut_scheme]. rewrite Ha.
    specialize (IH Hs). cbn -[cut_scheme] in IH. now rewrite IH.
Qed.

Lemma no_lf_string_of_uint d : no_lf (NilEmpty.string_of_uint d) = true.
Proof. unfold no_lf. induction d; cbn; auto. Qed.

Lemma no_lf_num_to_string n : (0 <= n)%Z -> no_lf (num_to_string n) = true.
Proof.
  intros Hn. unfold num_to_string.
  destruct n as [|p|p]; [reflexivity| |lia].
  cbn [Z.to_int NilZero.string_of_int].
  pose proof (DecimalPos.Unsigned.to_uint_nonnil p) as Hp.
  unfold NilZero.string_of_uint.
  destruct (Pos.to_uint p) eqn:Hd; [easy| ..];
    apply no_lf_string_of_uint.
Qed.

Lemma parseIntegerNumber_num_to_string n :
  (0 <= n)%Z -> parseIntegerNumber (num_to_string n) = Ok n.
Proof.
  intros Hn. unfold parseIntegerNumber, num_to_string.
  destruct n as [|p|p]; [reflexivity| |lia]. cbn [Z.to_int NilZero.string_of_int].
  rewrite NilZero.usu by apply DecimalPos.Unsigned.to_uint_nonnil.
  unfold Z.of_uint. now rewrite DecimalPos.Unsigned.of_to.
Qed.

Lemma parseIntegerNumber_nonneg s n : parseIntegerNumber s = Ok n -> (0 <= n)%Z.
Proof.
  unfold parseIntegerNumber.
  destruct (NilZero.uint_of_string s); intros [= <-].
  unfold Z.of_uint. lia.
Qed.

(** The numeral printed for a parsed number parses to the same number. *)
Lemma parseIntegerNumber_print s n :
  parseIntegerNumber s = Ok n -> parseIntegerNumber (num_to_string n) = Ok n.
Proof.
  intros H. apply parseIntegerNumber_num_to_string.
  eapply parseIntegerNumber_nonneg, H.
Qed.

Lemma is_alphanumeric_not_lf a :
  is_alphanumeric a = true -> negb (Ascii.eqb a "010") = true.
Proof.
  intros H. apply negb_true_iff. apply Ascii.eqb_neq. intros ->.
  discriminate H.
Qed.

Lemma valid_nonce_no_lf s : valid_nonce s = true -> no_lf s = true.
Proof.
  unfold valid_nonce, no_lf. intros H. apply andb_prop in H as [_ H].
  induction s as [|a s IH]; [reflexivity|].
  cbn -[is_alphanumeric Ascii.eqb] in *. apply andb_prop in H as [Ha Hs].
  now rewrite (is_alphanumeric_not_lf a Ha), (IH Hs).
Qed.

Lemma valid_nonce_truthy s : valid_nonce s = true -> truthy (Some s) = true.
Proof.
  unfold valid_nonce, truthy. destruct s; [discriminate|reflexivity].
Qed.

Lemma parse_resource_lines_map rs :
  parse_resource_lines (map (field_line "- ") rs) = Some rs.
Proof.
  induction rs as [|r rs IH]; [reflexivity|].
  cbn [map parse_resource_lines]. unfold field_line at 1.
  now rewrite strip_prefix_app, IH.
Qed.

(** ** Well-formed messages *)

Lemma parse_message_lines text h a stmt body sch dom :
  split_lines text =
    (h :: a :: "" :: match stmt with Some s => [s] | None => [] end
       ++ "" :: body)%list ->
  parse_header h = Some (sch, dom) ->
  at_uri body = true ->
  parse_message text = parse_body sch dom a stmt body.
Proof.
  intros Hl Hh Hu. unfold parse_message. rewrite Hl, Hh.
  destruct stmt as [s|]; cbn [app String.eqb].
  - replace (at_uri ("" :: body)) with false by reflexivity.
    now rewrite andb_false_r.
  - now rewrite Hu.
Qed.

Lemma parse_header_line m :
  opt_ok (fun s => one_line s && lacks ":" s) (scheme m) = true ->
  req_ok (fun d => no_lf d && lacks "/" d) (domain m) = true ->
  parse_header (header_line m) = Some (scheme m, elt (domain m)).
Proof.
  unfold parse_header, header_line.
  destruct (scheme m) as [s|], (domain m) as [d|]; cbn [opt_ok req_ok];
    try discriminate; intros Hs Hd.
  - apply andb_prop in Hs as [Hs Hc]. apply andb_prop in Hs as [Hne _].
    unfold truthy. unfold nonempty in Hne. rewrite Hne. cbn [tpl elt].
    rewrite strip_suffix_app. now rewrite (cut_scheme_app s d Hc).
  - apply andb_prop in Hd as [_ Hd]. cbn [truthy tpl elt].
    rewrite strip_suffix_app. now rewrite (cut_scheme_none d Hd).
Qed.

Lemma optional_line_ok tag v :
  opt_ok one_line v = true ->
  optional_line tag v =
  match v with Some s => [field_line tag s] | None => [] end.
Proof.
  unfold optional_line, one_line, nonempty.
  destruct v as [s|]; [|reflexivity]. cbn.
  intros H. apply andb_prop in H as [-> _]. reflexivity.
Qed.

Lemma parse_tail_lines e nb r rs :
  (let '(expiration, rest) :=
     parse_optional "Expiration Time: "
       (match e with Some s => [field_line "Expiration Time: " s] | None => [] end
        ++ match nb with Some s => [field_line "Not Before: " s] | None => [] end
        ++ match r with Some s => [field_line "Request ID: " s] | None => [] end
        ++ match rs with
           | Some rs => "Resources:" :: map (field_line "- ") rs
           | None => []
           end)%list in
   let '(notBefore, rest) := parse_optional "Not Before: " rest in
   let '(requestId, rest) := parse_optional "Request ID: " rest in
   (expiration, notBefore, requestId, parse_resources rest))
  = (e, nb, r, Some rs).
Proof.
  destruct e as [e|], nb as [nb|], r as [r|], rs as [rs|];
    cbn -[parse_resource_lines]; rewrite ?parse_resource_lines_map;
    reflexivity.
Qed.

Lemma parse_body_lines sch dom a stmt u v cs z n i e nb r rs :
  parseIntegerNumber cs = Ok z ->
  valid_nonce n = true ->
  parse_body sch dom a stmt
    ([ field_line "URI: " u; field_line "Version: " v;
       field_line "Chain ID: " cs; field_line "Nonce: " n;
       field_line "Issued At: " i ]
     ++ match e with Some s => [field_line "Expiration Time: " s] | None => [] end
     ++ match nb with Some s => [field_line "Not Before: " s] | None => [] end
     ++ match r with Some s => [field_line "Request ID: " s] | None => [] end
     ++ match rs with
        | Some rs => "Resources:" :: map (field_line "- ") rs
        | None => []
        end)%list
  = Some (Parsed.mk sch dom a stmt u v z n i e nb r rs).
Proof.
  intros Hz Hn. unfold parse_body. cbn [app].
  unfold field_line at 1 2 3 4 5. rewrite !strip_prefix_app, Hz, Hn.
  pose proof (parse_tail_lines e nb r rs) as Ht.
  destruct (parse_optional "Expiration Time: " _) as [e' rest1].
  destruct (parse_optional "Not Before: " rest1) as [nb' rest2].
  destruct (parse_optional "Request ID: " rest2) as [r' rest3].
  injection Ht as -> -> -> ->. reflexivity.
Qed.

Lemma no_lf_app a b : no_lf (a ++ b) = no_lf a && no_lf b.
Proof.
  unfold no_lf. induction a as [|x a IH]; [reflexivity|].
  cbn -[Ascii.eqb]. now rewrite IH, andb_assoc.
Qed.

Lemma forallb_no_lf_map_tag tag rs :
  no_lf tag = true -> forallb no_lf rs = true ->
  forallb no_lf (map (field_line tag) rs) = true.
Proof.
  intros Ht. induction rs as [|r rs IH]; [reflexivity|].
  cbn [map forallb]. intros H. apply andb_prop in H as [Hr Hrs].
  unfold field_line at 1. now rewrite no_lf_app, Ht, Hr, IH.
Qed.

Ltac break_andb :=
  repeat match goal with
         | H : _ && _ = true |- _ =>
             let H1 := fresh "Hwf" in
             let H2 := fresh "Hwf" in
             apply andb_prop in H as [H1 H2]
         end.

Ltac solve_andb :=
  repeat (apply andb_true_intro; split); auto.

(** A well-formed message has its defaults filled, and every line of its
    text is one line. *)
Lemma well_formed_filled m :
  well_formed m = true ->
  truthy (nonce m) = true /\ truthy (issuedAt m) = true.
Proof.
  unfold well_formed. intros H. break_andb.
  destruct (nonce m) as [n|]; [|discriminate].
  destruct (issuedAt m) as [i|]; [|discriminate].
  cbn [req_ok] in *. unfold one_line, nonempty in *. break_andb.
  split; [now apply valid_nonce_truthy|assumption].
Qed.

Lemma well_formed_lines m :
  well_formed m = true ->
  message_lines m =
  ([ header_line m; elt (address m); "" ]
   ++ match statement m with Some s => [s] | None => [] end
   ++ "" ::
      ([ field_line "URI: " (elt (uri m));
         field_line "Version: " (elt (version m));
         field_line "Chain ID: "
           (num_to_string (match chainId m with Some (chain_number (Int n)) => n | _ => 0%Z end));
         field_line "Nonce: " (elt (nonce m));
         field_line "Issued At: " (elt (issuedAt m)) ]
       ++ match expirationTime m with
          | Some s => [field_line "Expiration Time: " s] | None => [] end
       ++ match notBefore m with
          | Some s => [field_line "Not Before: " s] | None => [] end
       ++ match requestId m with
          | Some s => [field_line "Request ID: " s] | None => [] end
       ++ match resources m with
          | Some rs => "Resources:" :: map (field_line "- ") rs
          | None => []
          end))%list
  /\ forallb no_lf (message_lines m) = true.
Proof.
  unfold well_formed. intros H. break_andb.
  assert (Hlines : message_lines m =
    ([ header_line m; elt (address m); "" ]
     ++ match statement m with Some s => [s] | None => [] end
     ++ "" ::
        ([ field_line "URI: " (elt (uri m));
           field_line "Version: " (elt (version m));
           field_line "Chain ID: "
             (num_to_string (match chainId m with Some (chain_number (Int n)) => n | _ => 0%Z end));
           field_line "Nonce: " (elt (nonce m));
           field_line "Issued At: " (elt (issuedAt m)) ]
         ++ match expirationTime m with
            | Some s => [field_line "Expiration Time: " s] | None => [] end
         ++ match notBefore m with
            | Some s => [field_line "Not Before: " s] | None => [] end
         ++ match requestId m with
            | Some s => [field_line "Request ID: " s] | None => [] end
         ++ match resources m with
            | Some rs => "Resources:" :: map (field_line "- ") rs
            | None => []
            end))%list).
  { unfold message_lines, statement_lines, resources_lines.
    rewrite !optional_line_ok by assumption.
    destruct (uri m), (version m), (chainId m) as [[[?|? ? ?| |?]|?]|],
      (nonce m), (issuedAt m);
      try discriminate. reflexivity. }
  split; [exact Hlines|]. rewrite Hlines.
  assert (Hheader : no_lf (header_line m) = true).
  { unfold header_line.
    destruct (scheme m) as [s|], (domain m) as [d|]; try discriminate;
      cbn [opt_ok req_ok truthy tpl] in *; unfold one_line in *; break_andb.
    - destruct (negb (s =? "")); rewrite !no_lf_app; solve_andb.
    - rewrite no_lf_app. solve_andb. }
  destruct (address m) as [a|], (uri m) as [u|], (version m) as [v|],
    (chainId m) as [[[z|? ? ?| |?]|?]|], (nonce m) as [n|],
    (issuedAt m) as [i|];
    try discriminate; cbn [req_ok elt] in *.
  unfold one_line in *. break_andb.
  assert (Hz : no_lf (num_to_string z) = true).
  { apply no_lf_num_to_string. now apply Z.leb_le. }
  assert (Hn : no_lf n = true) by now apply valid_nonce_no_lf.
  assert (Hopt : forall tag v,
             no_lf tag = true ->
             opt_ok (fun s => nonempty s && no_lf s) v = true ->
             forallb no_lf
               match v with Some s => [field_line tag s] | None => [] end
             = true).
  { intros tag [s|] Ht Hv; [|reflexivity]. cbn in *.
    apply andb_prop in Hv as [_ Hv]. unfold field_line.
    now rewrite no_lf_app, Ht, Hv. }
  assert (Hres : forallb no_lf
                   match resources m with
                   | Some rs => "Resources:" :: map (field_line "- ") rs
                   | None => []
                   end = true).
  { destruct (resources m) as [rs|]; [|reflexivity].
    cbn [forallb]. rewrite forallb_no_lf_map_tag by auto. reflexivity. }
  assert (Hst : forallb no_lf
                  match statement m with Some s => [s] | None => [] end
                = true).
  { destruct (statement m); cbn in *; [|reflexivity].
    now rewrite andb_true_r. }
  repeat (progress (rewrite ?forallb_app; cbn [forallb])).
  unfold field_line at 1 2 3 4 5.
  rewrite !no_lf_app, Hheader, Hz, Hn, Hst, Hres.
  rewrite !Hopt by (assumption || reflexivity).
  solve_andb.
Qed.

(** The parser reads a well-formed message back from its text. *)
Lemma parse_well_formed m :
  well_formed m = true ->
  parse_message (join LF (message_lines m)) = Some (parsed_of m).
Proof.
  intros Hwf.
  destruct (well_formed_lines m Hwf) as [Hlines Hno_lf].
  assert (Hsplit : split_lines (join LF (message_lines m)) = message_lines m).
  { rewrite split_lines_join, flat_map_split_no_lf; [reflexivity|exact Hno_lf|].
    rewrite Hlines. discriminate. }
  rewrite Hlines in Hsplit at 2.
  unfold well_formed in Hwf. break_andb.
  rewrite (parse_message_lines _ _ _ _ _ (scheme m) (elt (domain m)) Hsplit).
  - destruct (chainId m) as [[[z|? ? ?| |?]|?]|] eqn:Hz; try discriminate.
    destruct (nonce m) as [n|] eqn:Hn; [|discriminate].
    unfold parsed_of. rewrite Hz, Hn. cbn [elt req_ok] in *.
    apply parse_body_lines; [|assumption].
    apply parseIntegerNumber_num_to_string. now apply Z.leb_le.
  - now apply parse_header_line.
  - reflexivity.
Qed.

Lemma new_from_string E text w :
  new_SiweMessage E (from_string text) w =
  match parse_message text with
  | Some p => (Ok (message_of_parsed p), w)
  | None => (Throws (Error "MalformedMessage"), w)
  end.
Proof.
  unfold new_SiweMessage, bind, lift, ParsedMessage, ret.
  now destruct (parse_message text).
Qed.

Lemma message_of_parsed_of m :
  well_formed m = true -> message_of_parsed (parsed_of m) = m.
Proof.
  unfold well_formed. intros H. break_andb.
  destruct m as [sc d a st u v c n i e nb r rs]; cbn in *.
  destruct d, a, u, v, c as [[[?|? ? ?| |?]|?]|], n, i; try discriminate.
  reflexivity.
Qed.

(** Serializing a well-formed message writes nothing on it, and the text
    parses back to it. *)
Lemma well_formed_round_trip E m w :
  well_formed m = true ->
  prepareMessage E m w = (Ok (join LF (message_lines m), m), w)
  /\ new_SiweMessage E (from_string (join LF (message_lines m))) w = (Ok m, w).
Proof.
  intros Hwf. split.
  - rewrite prepareMessage_toMessage, toMessage_text.
    destruct (well_formed_filled m Hwf) as [Hn Hi].
    unfold bind, fill_nonce, fill_issuedAt, ret. rewrite Hn, Hi. reflexivity.
  - rewrite new_from_string, (parse_well_formed m Hwf).
    now rewrite (message_of_parsed_of m Hwf).
Qed.

(** ** Construction from fields *)

(** What a successful construction from fields went through. *)
Lemma new_from_fields_inv E f w m w' :
  new_SiweMessage E (from_fields f) w = (Ok m, w') ->
  exists c n w1 text p,
    convert_chainId (Fields.chainId f) w = (Ok c, w)
    /\ (if truthy (Fields.nonce f) then ret (Fields.nonce f)
        else n <- generateNonce E ;; ret (Some n)) w = (Ok n, w1)
    /\ prepareMessage E (assembled f c n) w1 = (Ok (text, m), w')
    /\ parse_message text = Some p.
Proof.
  unfold new_SiweMessage, bind.
  destruct (convert_chainId (Fields.chainId f) w) as [[c|e] w0] eqn:Hc;
    [|discriminate].
  assert (w0 = w) as ->.
  { unfold convert_chainId in Hc.
    destruct (Fields.chainId f) as [[z|s]|]; cbn in Hc;
      [| destruct (parseIntegerNumber s) |]; now inversion Hc. }
  destruct ((if truthy (Fields.nonce f) then ret (Fields.nonce f)
             else n <- generateNonce E ;; ret (Some n)) w)
    as [[n|e] w1] eqn:Hn.
  2:{ unfold bind in Hn. rewrite Hn. discriminate. }
  unfold bind in Hn. rewrite Hn.
  fold (assembled f c n).
  destruct (prepareMessage E (assembled f c n) w1) as [[[text m']|e] w2] eqn:Hp;
    [|discriminate].
  unfold lift, ParsedMessage, ret.
  destruct (parse_message text) as [p|] eqn:Hparse; [|discriminate].
  intros [= <- <-].
  exists c, n, w1, text, p. auto.
Qed.

Lemma prepareMessage_nonce_set E this w :
  truthy (nonce this) = true ->
  prepareMessage E this w =
  if truthy (issuedAt this)
  then (Ok (join LF (message_lines this), this), w)
  else
    let m :=
      set_issuedAt this (Some (toISOString E (now_at E (clock_calls w)))) in
    (Ok (join LF (message_lines m), m),
     mkWorld (rng_calls w) (S (clock_calls w))).
Proof.
  intros Hn. rewrite prepareMessage_toMessage, toMessage_text.
  unfold bind, fill_nonce, fill_issuedAt, ret. rewrite Hn.
  now destruct (truthy (issuedAt this)).
Qed.

(** ** What an accepted text tells about the message *)

Lemma parse_optional_inv tag lines v rest :
  parse_optional tag lines = (v, rest) ->
  (exists s, v = Some s /\ lines = (tag ++ s) :: rest)
  \/ (v = None /\ lines = rest).
Proof.
  unfold parse_optional. destruct lines as [|l lines].
  - intros [= <- <-]. now right.
  - destruct (strip_prefix tag l) as [s|] eqn:Hs; intros [= <- <-].
    + left. exists s. now rewrite (strip_prefix_inv _ _ _ Hs).
    + now right.
Qed.

Lemma parse_resource_lines_inv lines rs :
  parse_resource_lines lines = Some rs -> Forall tail_line lines.
Proof.
  revert rs. induction lines as [|l lines IH]; intros rs; [constructor|].
  cbn [parse_resource_lines].
  destruct (strip_prefix "- " l) as [r|] eqn:Hr; [|discriminate].
  destruct (parse_resource_lines lines) as [rs'|]; [|discriminate].
  intros _. constructor; [|now apply (IH rs')].
  exists r. rewrite (strip_prefix_inv _ _ _ Hr). auto 6.
Qed.

Lemma parse_resources_inv lines rs :
  parse_resources lines = Some rs -> Forall tail_line lines.
Proof.
  unfold parse_resources. destruct lines as [|l lines]; [constructor|].
  destruct (String.eqb_spec l "Resources:") as [->|]; [|discriminate].
  destruct (parse_resource_lines lines) as [rs'|] eqn:Hrs; [|discriminate].
  intros _. constructor.
  - exists "". auto 6.
  - now apply (parse_resource_lines_inv _ rs').
Qed.

Lemma parse_body_inv sch dom a stmt lines p :
  parse_body sch dom a stmt lines = Some p ->
  exists u v cs tail,
    lines = body_lines u v cs (Parsed.nonce p) (Parsed.issuedAt p) tail
    /\ parseIntegerNumber cs = Ok (Parsed.chainId p)
    /\ valid_nonce (Parsed.nonce p) = true
    /\ Forall tail_line tail.
Proof.
  unfold parse_body.
  destruct lines as [|lu [|lv [|lc [|ln [|li rest]]]]]; try discriminate.
  destruct (strip_prefix "URI: " lu) as [u|] eqn:Hu; [|discriminate].
  destruct (strip_prefix "Version: " lv) as [v|] eqn:Hv; [|discriminate].
  destruct (strip_prefix "Chain ID: " lc) as [cs|] eqn:Hc; [|discriminate].
  destruct (strip_prefix "Nonce: " ln) as [n|] eqn:Hn; [|discriminate].
  destruct (strip_prefix "Issued At: " li) as [i|] eqn:Hi; [|discriminate].
  destruct (parseIntegerNumber cs) as [z|] eqn:Hz; [|discriminate].
  destruct (valid_nonce n) eqn:Hvn; [|discriminate].
  destruct (parse_optional "Expiration Time: " rest) as [e rest1] eqn:H1.
  destruct (parse_optional "Not Before: " rest1) as [nb rest2] eqn:H2.
  destruct (parse_optional "Request ID: " rest2) as [r rest3] eqn:H3.
  destruct (parse_resources rest3) as [rs|] eqn:H4; [|discriminate].
  intros [= <-]. cbn [Parsed.nonce Parsed.issuedAt Parsed.chainId].
  exists u, v, cs, rest.
  rewrite (strip_prefix_inv _ _ _ Hu), (strip_prefix_inv _ _ _ Hv),
    (strip_prefix_inv _ _ _ Hc), (strip_prefix_inv _ _ _ Hn),
    (strip_prefix_inv _ _ _ Hi).
  repeat split; auto.
  apply parse_resources_inv in H4.
  apply parse_optional_inv in H1, H2, H3.
  assert (H3' : Forall tail_line rest2).
  { destruct H3 as [(s & _ & ->)|[_ ->]]; [|exact H4].
    constructor; [exists s; auto 6|exact H4]. }
  assert (H2' : Forall tail_line rest1).
  { destruct H2 as [(s & _ & ->)|[_ ->]]; [|exact H3'].
    constructor; [exists s; auto 6|exact H3']. }
  destruct H1 as [(s & _ & ->)|[_ ->]]; [|exact H2'].
  constructor; [exists s; auto 6|exact H2'].
Qed.

Lemma parse_message_inv text p :
  parse_message text = Some p ->
  exists pre u v cs tail,
    split_lines text =
      (pre ++ body_lines u v cs (Parsed.nonce p) (Parsed.issuedAt p) tail)%list
    /\ (List.length pre = 4 \/ List.length pre = 5)
    /\ parseIntegerNumber cs = Ok (Parsed.chainId p)
    /\ valid_nonce (Parsed.nonce p) = true
    /\ Forall tail_line tail.
Proof.
  unfold parse_message.
  destruct (split_lines text) as [|h [|a [|bl rest]]]; try discriminate.
  destruct (parse_header h) as [[sch dom]|]; [|discriminate].
  destruct (bl =? ""); [|discriminate].
  destruct rest as [|bl' body]; [discriminate|].
  destruct ((bl' =? "") && at_uri body).
  - intros H. apply parse_body_inv in H as (u & v & cs & tail & -> & H).
    exists [h; a; bl; bl'], u, v, cs, tail. cbn. auto.
  - destruct body as [|bl'' body']; [discriminate|].
    destruct (bl'' =? ""); [|discriminate].
    intros H. apply parse_body_inv in H as (u & v & cs & tail & -> & H).
    exists [h; a; bl; bl'; bl''], u, v, cs, tail. cbn. auto.
Qed.

Lemma length_flat_map_split ls :
  (List.length ls <= List.length (flat_map split_lines ls))%nat.
Proof.
  induction ls as [|l ls IH]; cbn [flat_map List.length]; [lia|].
  rewrite length_app.
  pose proof (split_on_nonempty "010" l) as Hne.
  change (split_lines l) with (split_on "010" l).
  destruct (split_on "010" l); [easy|]. cbn [List.length]. lia.
Qed.

(** The lines of the text of any message, around its [Chain ID:],
    [Nonce:] and [Issued At:] fields: each field starts a line of its
    own, at least six lines down. *)
Lemma text_lines_around_nonce m :
  exists A ch ct nh nt ih it T,
    split_lines (join LF (message_lines m)) =
      (A ++ (field_line "Chain ID: " ch :: ct)
         ++ (field_line "Nonce: " nh :: nt)
         ++ (field_line "Issued At: " ih :: it) ++ T)%list
    /\ (6 <= List.length A)%nat
    /\ split_lines (num_tpl (chainId m)) = ch :: ct
    /\ split_lines (tpl (nonce m)) = nh :: nt.
Proof.
  set (P := ([header_line m; elt (address m); ""] ++ statement_lines m
             ++ [""; field_line "URI: " (tpl (uri m));
                 field_line "Version: " (tpl (version m))])%list).
  set (R := (optional_line "Expiration Time: " (expirationTime m)
             ++ optional_line "Not Before: " (notBefore m)
             ++ optional_line "Request ID: " (requestId m)
             ++ resources_lines m)%list).
  assert (Hlines : message_lines m =
                   (P ++ [field_line "Chain ID: " (num_tpl (chainId m));
                          field_line "Nonce: " (tpl (nonce m));
                          field_line "Issued At: " (tpl (issuedAt m))]
                      ++ R)%list).
  { unfold message_lines, P, R. cbn [app]. rewrite <- !app_assoc. reflexivity. }
  destruct (split_lines_tagged "Chain ID: " (num_tpl (chainId m)) eq_refl)
    as (ch & ct & Hc & Hc').
  destruct (split_lines_tagged "Nonce: " (tpl (nonce m)) eq_refl)
    as (nh & nt & Hn & Hn').
  destruct (split_lines_tagged "Issued At: " (tpl (issuedAt m)) eq_refl)
    as (ih & it & Hi & Hi').
  exists (flat_map split_lines P), ch, ct, nh, nt, ih, it,
    (flat_map split_lines R).
  split; [|split; [|split]]; try assumption.
  - rewrite split_lines_join by (rewrite Hlines; subst P; discriminate).
    rewrite Hlines, !flat_map_app. cbn [flat_map]. unfold field_line at 1 2 3.
    rewrite Hc', Hn', Hi', app_nil_r, <- !app_assoc. reflexivity.
  - etransitivity; [|apply length_flat_map_split].
    unfold P. rewrite !length_app. cbn [List.length]. lia.
Qed.

(** Where the lines of a parsed text can be, from the [Version:] line
    on. *)
Lemma nth_error_body pre u v cs n i tail k x :
  nth_error (pre ++ body_lines u v cs n i tail) k = Some x ->
  (List.length pre + 1 <= k)%nat ->
  (k = List.length pre + 1 /\ x = field_line "Version: " v)%nat
  \/ (k = List.length pre + 2 /\ x = field_line "Chain ID: " cs)%nat
  \/ (k = List.length pre + 3 /\ x = field_line "Nonce: " n)%nat
  \/ (k = List.length pre + 4 /\ x = field_line "Issued At: " i)%nat
  \/ ((List.length pre + 5 <= k)%nat /\ In x tail).
Proof.
  intros Hnth Hk. rewrite nth_error_app2 in Hnth by lia.
  remember (k - List.length pre)%nat as j eqn:Hj.
  unfold body_lines in Hnth.
  destruct j as [|[|[|[|[|j]]]]]; cbn [nth_error] in Hnth; try lia.
  - left. split; [lia|congruence].
  - right; left. split; [lia|congruence].
  - right; right; left. split; [lia|congruence].
  - right; right; right; left. split; [lia|congruence].
  - right; right; right; right. split; [lia|].
    eapply nth_error_In, Hnth.
Qed.

Lemma nth_error_middle {A} (l1 : list A) x l2 :
  nth_error (l1 ++ x :: l2) (List.length l1) = Some x.
Proof. rewrite nth_error_app2 by lia. now rewrite Nat.sub_diag. Qed.

Ltac clash :=
  match goal with
  | H : field_line _ _ = field_line _ _ |- _ =>
      unfold field_line in H; cbn in H; discriminate H
  | H : In _ ?tail, Ht : Forall tail_line ?tail |- _ =>
      let r := fresh "r" in
      let Hr := fresh "Hr" in
      rewrite Forall_forall in Ht; apply Ht in H as [r Hr];
      unfold field_line in Hr; cbn in Hr;
      repeat (destruct Hr as [Hr|Hr]; [discriminate Hr|]);
      discriminate Hr
  end.

(** When the parser accepts the text of a message, the [Nonce:] and
    [Chain ID:] lines it reads are the ones the serializer wrote for the
    message's own nonce and chain identifier, whatever the other fields
    hold. *)
Lemma accepted_text_fields m p :
  parse_message (join LF (message_lines m)) = Some p ->
  tpl (nonce m) = Parsed.nonce p
  /\ valid_nonce (tpl (nonce m)) = true
  /\ parseIntegerNumber (num_tpl (chainId m)) = Ok (Parsed.chainId p).
Proof.
  intros Hp.
  destruct (parse_message_inv _ _ Hp)
    as (pre & u & v & cs & tail & HL & Hpre & Hz & Hvn & Htail).
  destruct (text_lines_around_nonce m)
    as (A & ch & ct & nh & nt & ih & it & T & HR & HA & Hc & Hn).
  rewrite HR in HL.
  (* the [Chain ID:] line *)
  assert (H1 : nth_error (pre ++ body_lines u v cs (Parsed.nonce p)
                                   (Parsed.issuedAt p) tail)
                 (List.length A)
               = Some (field_line "Chain ID: " ch)).
  { rewrite <- HL. cbn [app]. apply nth_error_middle. }
  apply nth_error_body in H1; [|lia].
  destruct H1 as [[_ H1]|[[Hk1 H1]|[[_ H1]|[[_ H1]|[_ H1]]]]]; try clash.
  (* the [Nonce:] line *)
  assert (H2 : nth_error (pre ++ body_lines u v cs (Parsed.nonce p)
                                   (Parsed.issuedAt p) tail)
                 (List.length (A ++ field_line "Chain ID: " ch :: ct))
               = Some (field_line "Nonce: " nh)).
  { rewrite <- HL.
    replace (A ++ (field_line "Chain ID: " ch :: ct)
               ++ (field_line "Nonce: " nh :: nt)
               ++ (field_line "Issued At: " ih :: it) ++ T)%list
      with ((A ++ field_line "Chain ID: " ch :: ct)
              ++ field_line "Nonce: " nh
              :: (nt ++ (field_line "Issued At: " ih :: it) ++ T))%list
      by (rewrite <- !app_assoc; reflexivity).
    apply nth_error_middle. }
  rewrite length_app in H2. cbn [List.length] in H2.
  apply nth_error_body in H2; [|lia].
  destruct H2 as [[Hk2 _]|[[_ H2]|[[Hk2 H2]|[[_ H2]|[_ H2]]]]];
    try clash; [lia|].
  (* the [Issued At:] line *)
  assert (H3 : nth_error (pre ++ body_lines u v cs (Parsed.nonce p)
                                   (Parsed.issuedAt p) tail)
                 (List.length ((A ++ field_line "Chain ID: " ch :: ct)
                                 ++ field_line "Nonce: " nh :: nt))
               = Some (field_line "Issued At: " ih)).
  { rewrite <- HL.
    replace (A ++ (field_line "Chain ID: " ch :: ct)
               ++ (field_line "Nonce: " nh :: nt)
               ++ (field_line "Issued At: " ih :: it) ++ T)%list
      with (((A ++ field_line "Chain ID: " ch :: ct)
               ++ field_line "Nonce: " nh :: nt)
              ++ field_line "Issued At: " ih :: (it ++ T))%list
      by (rewrite <- !app_assoc; reflexivity).
    apply nth_error_middle. }
  rewrite !length_app in H3. cbn [List.length] in H3.
  apply nth_error_body in H3; [|lia].
  destruct H3 as [[Hk3 _]|[[Hk3 _]|[[_ H3]|[[Hk3 _]|[_ H3]]]]];
    try clash; try lia.
  assert (ct = []) as -> by (destruct ct; [reflexivity|cbn in *; lia]).
  assert (nt = []) as -> by (destruct nt; [reflexivity|cbn in *; lia]).
  apply split_lines_single in Hc, Hn.
  unfold field_line in H1, H2.
  apply string_app_inv_head in H1, H2.
  rewrite Hc, Hn, H1, H2. auto.
Qed.

(** Where the nonce of a serialized object comes from. *)
Lemma prepareMessage_nonce E this w text m w' :
  prepareMessage E this w = (Ok (text, m), w') ->
  (truthy (nonce this) = true /\ nonce m = nonce this)
  \/ (truthy (nonce this) = false
      /\ exists n, generateNonce_at E (rng_calls w) = Ok n /\ nonce m = Some n).
Proof.
  rewrite prepareMessage_toMessage, toMessage_text.
  unfold fill_nonce, fill_issuedAt, bind, ret.
  destruct (truthy (nonce this)) eqn:Hn.
  2: unfold generateNonce; destruct (generateNonce_at E (rng_calls w)) as [n|e];
     [|discriminate].
  all: match goal with
       | |- context [truthy (issuedAt ?m)] => destruct (truthy (issuedAt m))
       end.
  all: cbn [new_Date]; intros [= <- <- <-]; cbn; eauto.
Qed.

(** The text a construction from fields hands to the parser is the text
    of the message it returns. *)
Lemma constructed_text_parses E f w m w' :
  new_SiweMessage E (from_fields f) w = (Ok m, w') ->
  exists p, parse_message (join LF (message_lines m)) = Some p.
Proof.
  intros H.
  apply new_from_fields_inv in H as (c & n & w1 & text & p & _ & _ & Hp & Hparse).
  apply prepareMessage_this in Hp as (-> & _).
  now exists p.
Qed.

(** The nonce of a constructed message: at least 8 alphanumeric
    characters, the supplied one when it is truthy and a generated one
    otherwise. *)
Lemma constructed_nonce E f w m w' :
  new_SiweMessage E (from_fields f) w = (Ok m, w') ->
  exists n,
    nonce m = Some n
    /\ valid_nonce n = true
    /\ (truthy (Fields.nonce f) = true -> Fields.nonce f = Some n)
    /\ (truthy (Fields.nonce f) = false ->
        exists k, (rng_calls w <= k)%nat /\ generateNonce_at E k = Ok n).
Proof.
  intros H.
  destruct (constructed_text_parses _ _ _ _ _ H) as [p Hparse].
  apply accepted_text_fields in Hparse as (_ & Hvalid & _).
  apply new_from_fields_inv in H
    as (c & n0 & w1 & text & p' & _ & Hn0 & Hp & _).
  apply prepareMessage_nonce in Hp.
  cbn [nonce assembled] in Hp.
  destruct (truthy (Fields.nonce f)) eqn:Hf.
  - injection Hn0 as <- <-.
    destruct Hp as [[_ Hm]|[Hfalse _]]; [|congruence].
    destruct (Fields.nonce f) as [n|] eqn:Hfn; [|discriminate].
    exists n. rewrite Hm in Hvalid. cbn in Hvalid.
    repeat split; auto. discriminate.
  - unfold bind, generateNonce, ret in Hn0.
    destruct (generateNonce_at E (rng_calls w)) as [n|e] eqn:Hg;
      [|discriminate].
    injection Hn0 as <- <-. cbn [rng_calls] in Hp.
    destruct Hp as [[_ Hm]|[_ (n' & Hg' & Hm)]];
      rewrite Hm in Hvalid; cbn in Hvalid.
    + exists n. repeat split; auto; [discriminate|].
      intros _. exists (rng_calls w). auto.
    + exists n'. repeat split; auto; [discriminate|].
      intros _. exists (S (rng_calls w)). auto.
Qed.

Lemma uint_of_string_point a b :
  NilEmpty.uint_of_string (a ++ String "." b) = None.
Proof.
  induction a as [|c a IH]; cbn [append NilEmpty.uint_of_string].
  - now destruct (NilEmpty.uint_of_string b).
  - now rewrite IH.
Qed.

Lemma parseIntegerNumber_point a b :
  parseIntegerNumber (a ++ "." ++ b) = Throws (Error "Invalid number.").
Proof.
  unfold parseIntegerNumber, NilZero.uint_of_string.
  change (a ++ "." ++ b) with (a ++ String "." b).
  rewrite uint_of_string_point. now destruct (a ++ String "." b).
Qed.

(** Of the numbers, [parseIntegerNumber] only reads back the text of
    the integers that are not negative. *)
Lemma parseIntegerNumber_number n z :
  parseIntegerNumber (number_to_string n) = Ok z ->
  n = Int z /\ (0 <= z)%Z.
Proof.
  destruct n as [k|negative whole digits| |negative]; cbn [number_to_string].
  - destruct k as [|q|q].
    + rewrite parseIntegerNumber_num_to_string by lia.
      intros [= <-]. split; [reflexivity|lia].
    + rewrite parseIntegerNumber_num_to_string by lia.
      intros [= <-]. split; [reflexivity|lia].
    + unfold parseIntegerNumber, num_to_string.
      cbn [Z.to_int NilZero.string_of_int NilZero.uint_of_string
             NilEmpty.uint_of_string].
      now destruct (NilEmpty.uint_of_string _).
  - rewrite <- (string_app_assoc (if negative then "-" else "")),
      parseIntegerNumber_point.
    discriminate.
  - discriminate.
  - destruct negative; discriminate.
Qed.

(** Lines 95-97 leave no string as the chain identifier. *)
Lemma convert_chainId_inv c w r w' :
  convert_chainId c w = (Ok r, w') ->
  w' = w
  /\ match c with
     | Some (chain_string s) =>
         exists z, parseIntegerNumber s = Ok z /\ r = Some (chain_number (Int z))
     | _ => r = c
     end.
Proof.
  unfold convert_chainId, ret, throw.
  destruct c as [[n|s]|]; try (intros [= <- <-]; now split).
  destruct (parseIntegerNumber s) as [z|e]; [|discriminate].
  intros [= <- <-]. split; [reflexivity|]. now exists z.
Qed.

(** The chain identifier of a constructed message is an integer that is
    not negative: the number supplied, or the one [parseIntegerNumber]
    read from the supplied string. *)
Lemma constructed_chainId E f w m w' :
  new_SiweMessage E (from_fields f) w = (Ok m, w') ->
  exists z,
    chainId m = Some (chain_number (Int z))
    /\ (0 <= z)%Z
    /\ (forall s,
           Fields.chainId f = Some (chain_string s) ->
           parseIntegerNumber s = Ok z)
    /\ (forall n, Fields.chainId f = Some (chain_number n) -> n = Int z).
Proof.
  intros H.
  destruct (constructed_text_parses _ _ _ _ _ H) as [p Hparse].
  apply accepted_text_fields in Hparse as (_ & _ & Hz).
  apply new_from_fields_inv in H
    as (c & n0 & w1 & text & p' & Hc & _ & Hp & _).
  apply prepareMessage_this in Hp as (_ & Hm & _).
  assert (Hcm : chainId m = c) by (rewrite Hm; reflexivity).
  rewrite Hcm in *.
  apply convert_chainId_inv in Hc as [_ Hc].
  exists (Parsed.chainId p).
  destruct (Fields.chainId f) as [[n|s]|].
  - subst c. cbn [num_tpl] in Hz.
    apply parseIntegerNumber_number in Hz as [-> Hz].
    repeat split; [exact Hz|discriminate|congruence].
  - destruct Hc as (z & Hs & ->). cbn [num_tpl] in Hz.
    apply (parseIntegerNumber_number (Int z)) in Hz as [[= ->] Hz].
    repeat split; [exact Hz|congruence|discriminate].
  - subst c. discriminate Hz.
Qed.

(** [verify] leaves a nonce that is set, and the chain identifier, as
    they are. *)
Lemma verify_keeps_nonce_and_chainId E m params opts_arg w :
  truthy (nonce m) = true ->
  nonce (this_after (verify E m params opts_arg w)) = nonce m
  /\ chainId (this_after (verify E m params opts_arg w)) = chainId m.
Proof.
  intros Hn. rewrite verify_this_after. unfold serialized.
  destruct (prepareMessage E m _) as [[[text m']|e] w2] eqn:Hp; cbn [snd];
    [|auto].
  apply prepareMessage_this in Hp as (_ & Hm & Hnonce & _).
  split; [auto|]. rewrite Hm. reflexivity.
Qed.

Lemma split_lines_lf s : no_lf s = false -> (2 <= List.length (split_lines s))%nat.
Proof.
  unfold split_lines, no_lf.
  induction s as [|a s IH]; cbn -[Ascii.eqb]; [discriminate|].
  pose proof (split_on_nonempty "010" s) as Hne.
  destruct (Ascii.eqb a "010"); cbn [negb andb].
  - intros _. destruct (split_on "010" s); [easy|cbn; lia].
  - intros H. specialize (IH H).
    destruct (split_on "010" s); [easy|exact IH].
Qed.

Lemma split_lines_one s :
  (List.length (split_lines s) <= 1)%nat -> no_lf s = true.
Proof.
  intros H. destruct (no_lf s) eqn:Hs; [reflexivity|].
  apply split_lines_lf in Hs. lia.
Qed.

(** The lines of an accepted text: three or four lines of header,
    address and statement, a blank line, and the fields. *)
Lemma parse_message_shape text p :
  parse_message text = Some p ->
  exists front u v cs tail,
    split_lines text =
      parsed_lines front u v cs (Parsed.nonce p) (Parsed.issuedAt p) tail
    /\ (List.length front = 3 \/ List.length front = 4)
    /\ parseIntegerNumber cs = Ok (Parsed.chainId p)
    /\ valid_nonce (Parsed.nonce p) = true
    /\ Forall tail_line tail.
Proof.
  unfold parse_message, parsed_lines.
  destruct (split_lines text) as [|h [|a [|bl rest]]]; try discriminate.
  destruct (parse_header h) as [[sch dom]|]; [|discriminate].
  destruct (bl =? ""); [|discriminate].
  destruct rest as [|bl' body]; [discriminate|].
  destruct ((bl' =? "") && at_uri body) eqn:Hb.
  - apply andb_prop in Hb as [Hb _]. apply String.eqb_eq in Hb. subst bl'.
    intros H. apply parse_body_inv in H as (u & v & cs & tail & -> & H).
    exists [h; a; bl], u, v, cs, tail. cbn. intuition.
  - destruct body as [|bl'' body']; [discriminate|].
    destruct (bl'' =? "") eqn:Hb'; [|discriminate].
    apply String.eqb_eq in Hb'. subst bl''.
    intros H. apply parse_body_inv in H as (u & v & cs & tail & -> & H).
    exists [h; a; bl; bl'], u, v, cs, tail. cbn. intuition.
Qed.

(** Which line of a parsed text is where, from the blank line on. *)
Lemma nth_error_parsed_lines front u v cs n i tail k x :
  nth_error (parsed_lines front u v cs n i tail) k = Some x ->
  (List.length front <= k)%nat ->
  (k = List.length front /\ x = "")%nat
  \/ (k = List.length front + 1 /\ x = field_line "URI: " u)%nat
  \/ (k = List.length front + 2 /\ x = field_line "Version: " v)%nat
  \/ (k = List.length front + 3 /\ x = field_line "Chain ID: " cs)%nat
  \/ (k = List.length front + 4 /\ x = field_line "Nonce: " n)%nat
  \/ (k = List.length front + 5 /\ x = field_line "Issued At: " i)%nat
  \/ ((List.length front + 6 <= k)%nat /\ In x tail).
Proof.
  intros Hnth Hk. unfold parsed_lines in Hnth.
  rewrite nth_error_app2 in Hnth by lia.
  remember (k - List.length front)%nat as j eqn:Hj.
  unfold body_lines in Hnth.
  destruct j as [|[|[|[|[|[|j]]]]]]; cbn [nth_error] in Hnth.
  - left. split; [lia|congruence].
  - right; left. split; [lia|congruence].
  - right; right; left. split; [lia|congruence].
  - right; right; right; left. split; [lia|congruence].
  - right; right; right; right; left. split; [lia|congruence].
  - right; right; right; right; right; left. split; [lia|congruence].
  - right; right; right; right; right; right. split; [lia|].
    eapply nth_error_In, Hnth.
Qed.

(** The lines of the text of any message, around its [URI:],
    [Version:] and [Chain ID:] fields. *)
Lemma text_lines_around_uri m :
  exists A uh ut vh vt ch ct T,
    split_lines (join LF (message_lines m)) =
      (A ++ (field_line "URI: " uh :: ut)
         ++ (field_line "Version: " vh :: vt)
         ++ (field_line "Chain ID: " ch :: ct) ++ T)%list
    /\ (4 <= List.length A)%nat
    /\ (forall s, statement m = Some s ->
                  (4 + List.length (split_lines s) <= List.length A)%nat)
    /\ split_lines (tpl (uri m)) = uh :: ut
    /\ split_lines (tpl (version m)) = vh :: vt.
Proof.
  set (P := ([header_line m; elt (address m); ""] ++ statement_lines m
             ++ [""])%list).
  set (R := ([field_line "Nonce: " (tpl (nonce m));
              field_line "Issued At: " (tpl (issuedAt m))]
             ++ optional_line "Expiration Time: " (expirationTime m)
             ++ optional_line "Not Before: " (notBefore m)
             ++ optional_line "Request ID: " (requestId m)
             ++ resources_lines m)%list).
  assert (Hlines : message_lines m =
                   (P ++ [field_line "URI: " (tpl (uri m));
                          field_line "Version: " (tpl (version m));
                          field_line "Chain ID: " (num_tpl (chainId m))]
                      ++ R)%list).
  { unfold message_lines, P, R. cbn [app]. rewrite <- !app_assoc. reflexivity. }
  destruct (split_lines_tagged "URI: " (tpl (uri m)) eq_refl)
    as (uh & ut & Hu & Hu').
  destruct (split_lines_tagged "Version: " (tpl (version m)) eq_refl)
    as (vh & vt & Hv & Hv').
  destruct (split_lines_tagged "Chain ID: " (num_tpl (chainId m)) eq_refl)
    as (ch & ct & Hc & Hc').
  exists (flat_map split_lines P), uh, ut, vh, vt, ch, ct,
    (flat_map split_lines R).
  split; [|split; [|split; [|split]]]; try assumption.
  - rewrite split_lines_join by (rewrite Hlines; subst P; discriminate).
    rewrite Hlines, !flat_map_app. cbn [flat_map]. unfold field_line at 1 2 3.
    rewrite Hu', Hv', Hc', app_nil_r, <- !app_assoc. reflexivity.
  - etransitivity; [|apply length_flat_map_split].
    unfold P. rewrite !length_app. cbn [List.length]. lia.
  - intros s Hs. unfold P, statement_lines. rewrite Hs.
    cbn [app flat_map]. rewrite !length_app.
    pose proof (length_flat_map_split [header_line m]) as Hh.
    pose proof (length_flat_map_split [elt (address m)]) as Ha.
    cbn [flat_map List.length] in Hh, Ha. rewrite app_nil_r in Hh, Ha.
    cbn [List.length]. change (List.length (split_lines "")) with 1%nat. lia.
Qed.

Ltac clash_line :=
  match goal with
  | H : field_line _ _ = "" |- _ =>
      unfold field_line in H; cbn in H; discriminate H
  | _ => clash
  end.

(** When the parser accepts the text of a message, the statement, the
    uri and the version of the message are single lines. *)
Lemma accepted_text_single_lines m p :
  parse_message (join LF (message_lines m)) = Some p ->
  single_line_fields m.
Proof.
  intros Hp.
  destruct (parse_message_shape _ _ Hp)
    as (front & u & v & cs & tail & HL & Hfront & _ & _ & Htail).
  destruct (text_lines_around_uri m)
    as (A & uh & ut & vh & vt & ch & ct & T & HR & HA & Hst & Hu & Hv).
  rewrite HR in HL.
  (* the [URI:] line *)
  assert (H1 : nth_error (parsed_lines front u v cs (Parsed.nonce p)
                            (Parsed.issuedAt p) tail)
                 (List.length A)
               = Some (field_line "URI: " uh)).
  { rewrite <- HL. cbn [app]. apply nth_error_middle. }
  apply nth_error_parsed_lines in H1; [|lia].
  destruct H1 as [[_ H1]|[[Hk1 _]|[[_ H1]|[[_ H1]|[[_ H1]|[[_ H1]|[_ H1]]]]]]];
    try clash_line.
  (* the [Chain ID:] line *)
  assert (H2 : nth_error (parsed_lines front u v cs (Parsed.nonce p)
                            (Parsed.issuedAt p) tail)
                 (List.length ((A ++ field_line "URI: " uh :: ut)
                                 ++ field_line "Version: " vh :: vt))
               = Some (field_line "Chain ID: " ch)).
  { rewrite <- HL.
    replace (A ++ (field_line "URI: " uh :: ut)
               ++ (field_line "Version: " vh :: vt)
               ++ (field_line "Chain ID: " ch :: ct) ++ T)%list
      with (((A ++ field_line "URI: " uh :: ut)
               ++ field_line "Version: " vh :: vt)
              ++ field_line "Chain ID: " ch :: (ct ++ T))%list
      by (rewrite <- !app_assoc; reflexivity).
    apply nth_error_middle. }
  rewrite !length_app in H2. cbn [List.length] in H2.
  apply nth_error_parsed_lines in H2; [|lia].
  destruct H2 as [[Hk2 _]|[[Hk2 _]|[[Hk2 _]|[[Hk2 _]|[[_ H2]|[[_ H2]|[_ H2]]]]]]];
    try clash_line; try lia.
  assert (ut = []) as -> by (destruct ut; [reflexivity|cbn in *; lia]).
  assert (vt = []) as -> by (destruct vt; [reflexivity|cbn in *; lia]).
  split; [|split].
  - intros s Hs. apply split_lines_one. specialize (Hst s Hs). lia.
  - apply split_lines_one. rewrite Hu. cbn. lia.
  - apply split_lines_one. rewrite Hv. cbn. lia.
Qed.

(** A constructed message that is [lossless] is well formed: the parser
    has checked the rest. *)
Lemma constructed_lossless_well_formed E f w m w' :
  new_SiweMessage E (from_fields f) w = (Ok m, w') ->
  lossless m = true ->
  well_formed m = true.
Proof.
  intros Hnew Hl.
  destruct (constructed_nonce _ _ _ _ _ Hnew) as (n & Hn & Hvalid & _).
  destruct (constructed_chainId _ _ _ _ _ Hnew) as (z & Hz & Hpos & _).
  destruct (constructed_text_parses _ _ _ _ _ Hnew) as [p Hparse].
  apply accepted_text_single_lines in Hparse as (Hst & Hu & Hv).
  unfold lossless in Hl. break_andb.
  unfold well_formed. rewrite Hn, Hz. cbn [req_ok].
  destruct (uri m) as [u|]; [|discriminate].
  destruct (version m) as [v|]; [|discriminate].
  cbn [tpl req_ok] in *.
  assert (Hstmt : opt_ok no_lf (statement m) = true).
  { destruct (statement m) as [s|]; [|reflexivity]. now apply Hst. }
  apply Z.leb_le in Hpos.
  solve_andb.
  all: unfold valid_nonce in Hvalid; apply andb_prop in Hvalid as [? ?];
    assumption.
Qed.

(** ** C7: round trip *)

(** C7 fails for a request id that is the empty string.  The
    construction from [login_fields] with the request id [""] returns a
    message whose request id is [""]; its text has no line for the
    request id, and parsing the text yields a message without request
    id. *)
Lemma empty_requestId_is_lost :
  new_SiweMessage sample_env
    (from_fields (set_fields_requestId login_fields (Some ""))) sample_world
  = (Ok (login_message (Some "")), sample_world)
  /\ prepareMessage sample_env (login_message (Some "")) sample_world
     = (Ok (login_text_without_requestId, login_message (Some "")),
        sample_world)
  /\ new_SiweMessage sample_env (from_string login_text_without_requestId)
       sample_world
     = (Ok (login_message None), sample_world)
  /\ requestId (login_message (Some "")) <> requestId (login_message None).
Proof. repeat split; discriminate. Qed.

(** A request id with line feeds is not read back either: the
    construction from [smuggling_fields], which have no resources,
    returns, and the message parsed from its text has the resource of
    the second and third line of the request id. *)
Example request_id_smuggles_resources :
  exists m text m',
    new_SiweMessage sample_env (from_fields smuggling_fields) sample_world
    = (Ok m, sample_world)
    /\ prepareMessage sample_env m sample_world = (Ok (text, m), sample_world)
    /\ new_SiweMessage sample_env (from_string text) sample_world
       = (Ok m', sample_world)
    /\ resources m = None
    /\ resources m' = Some ["https://evil.example/"]
    /\ requestId m' = Some "request-1".
Proof. do 3 eexists. repeat split. Qed.

(** C7, amended: the round trip holds for the constructed messages that
    are [lossless].  Whatever the fields, a construction from fields
    returns only if the parser accepts the text of the message
    constructed, [m]; and when [m] is lossless, serializing [m] writes
    nothing on it and constructing from the text gives a message equal
    to [m] on every field. *)
Theorem round_trip
    (E : Env) (f : Fields.t) (w : World) (m : SiweMessage) (w' : World) :
  new_SiweMessage E (from_fields f) w = (Ok m, w') ->
  (exists p, ParsedMessage (join LF (message_lines m)) = Ok p)
  /\ (lossless m = true ->
      forall w1,
        exists text,
          prepareMessage E m w1 = (Ok (text, m), w1)
          /\ new_SiweMessage E (from_string text) w1 = (Ok m, w1)).
Proof.
  intros Hnew. split.
  - destruct (constructed_text_parses _ _ _ _ _ Hnew) as [p Hp].
    exists p. unfold ParsedMessage. now rewrite Hp.
  - intros Hl w1. exists (join LF (message_lines m)).
    apply well_formed_round_trip.
    eapply constructed_lossless_well_formed; eassumption.
Qed.

(** C7 at [login_fields]: the construction returns
    [login_message (Some "request-1")], which is lossless, and its text
    parses back to it. *)
Lemma round_trip_witness :
  new_SiweMessage sample_env (from_fields login_fields) sample_world
  = (Ok (login_message (Some "request-1")), sample_world)
  /\ exists text,
       prepareMessage sample_env (login_message (Some "request-1"))
         sample_world
       = (Ok (text, login_message (Some "request-1")), sample_world)
       /\ new_SiweMessage sample_env (from_string text) sample_world
          = (Ok (login_message (Some "request-1")), sample_world).
Proof.
  split; [reflexivity|].
  apply (proj2 (round_trip sample_env login_fields sample_world
                  (login_message (Some "request-1")) sample_world eq_refl)).
  reflexivity.
Defined.

(** ** C8: the nonce and the chain identifier after construction *)

(** A chain identifier that is a number and no integer does not get
    through: the construction draws the nonce, reads the clock, and
    throws on the text [Chain ID: 1.5]. *)
Example fraction_chainId_is_refused :
  new_SiweMessage sample_env
    (from_fields (set_fields_chainId sample_fields
                    (Some (chain_number one_and_a_half))))
    sample_world
  = (Throws (Error "MalformedMessage"), mkWorld 1 1).
Proof. reflexivity. Qed.

(** C8: a chain identifier supplied as a numeric string is converted:
    the construction is the one from the same fields with the number
    that [parseIntegerNumber] reads.  And a message constructed from
    fields has a nonce of at least 8 alphanumeric characters, hence not
    empty: the one supplied, or a generated one when none was supplied;
    its chain identifier is a number and an integer, never a string:
    the number supplied, or the one read from the supplied string; and
    a later call of [verify] leaves both as they are. *)
Theorem constructed_invariants (E : Env) (f : Fields.t) (w : World) :
  (forall s z,
      Fields.chainId f = Some (chain_string s) ->
      parseIntegerNumber s = Ok z ->
      new_SiweMessage E (from_fields f) w
      = new_SiweMessage E
          (from_fields (set_fields_chainId f (Some (chain_number (Int z))))) w)
  /\ (forall m w',
         new_SiweMessage E (from_fields f) w = (Ok m, w') ->
         (exists n,
             nonce m = Some n
             /\ valid_nonce n = true
             /\ (8 <= String.length n)%nat
             /\ (truthy (Fields.nonce f) = true -> Fields.nonce f = Some n)
             /\ (truthy (Fields.nonce f) = false ->
                 exists k,
                   (rng_calls w <= k)%nat /\ generateNonce_at E k = Ok n))
         /\ (exists z,
                chainId m = Some (chain_number (Int z))
                /\ (0 <= z)%Z
                /\ (forall s,
                       Fields.chainId f = Some (chain_string s) ->
                       parseIntegerNumber s = Ok z)
                /\ (forall n,
                       Fields.chainId f = Some (chain_number n) -> n = Int z))
         /\ (forall params opts_arg w1,
                nonce (this_after (verify E m params opts_arg w1)) = nonce m
                /\ chainId (this_after (verify E m params opts_arg w1))
                   = chainId m)).
Proof.
  split.
  - intros s z Hs Hz. unfold new_SiweMessage, bind, convert_chainId.
    rewrite Hs, Hz. reflexivity.
  - intros m w' Hnew.
    destruct (constructed_nonce _ _ _ _ _ Hnew)
      as (n & Hn & Hvalid & Hgiven & Hgen).
    split; [|split].
    + exists n. repeat split; auto.
      unfold valid_nonce in Hvalid. apply andb_prop in Hvalid as [Hlen _].
      now apply Nat.leb_le.
    + exact (constructed_chainId _ _ _ _ _ Hnew).
    + intros params opts_arg w1. apply verify_keeps_nonce_and_chainId.
      rewrite Hn. now apply valid_nonce_truthy.
Qed.

(** C8 at [sample_fields], which supply no nonce and the chain
    identifier as the string ["1"]: the construction returns
    [sample_constructed], with a generated nonce and the number 1, as
    does the construction from the number 1. *)
Lemma constructed_invariants_witness :
  Fields.chainId sample_fields = Some (chain_string "1")
  /\ new_SiweMessage sample_env (from_fields sample_fields) sample_world
     = (Ok sample_constructed, mkWorld 1 1)
  /\ new_SiweMessage sample_env (from_fields sample_fields) sample_world
     = new_SiweMessage sample_env
         (from_fields (set_fields_chainId sample_fields
                         (Some (chain_number (Int 1))))) sample_world
  /\ exists z,
       chainId sample_constructed = Some (chain_number (Int z))
       /\ (0 <= z)%Z
       /\ (forall s,
              Fields.chainId sample_fields = Some (chain_string s) ->
              parseIntegerNumber s = Ok z)
       /\ (forall n,
              Fields.chainId sample_fields = Some (chain_number n) ->
              n = Int z).
Proof.
  pose proof (constructed_invariants sample_env sample_fields sample_world)
    as [Hconv Hinv].
  split; [reflexivity|]. split; [reflexivity|]. split.
  - apply (Hconv "1" 1%Z); reflexivity.
  - apply (Hinv sample_constructed (mkWorld 1 1)). reflexivity.
Defined.

(** ** C10: a nonce supplied as the empty string *)



(** * Further properties *)

(** ** The serializer *)

(** X1: [toMessage] writes on the object only a falsy [nonce], which
    becomes the next draw of the generator, and a falsy [issuedAt], which
    becomes the time of the next reading of the clock; every other field,
    and a nonce or an [issuedAt] that is set, is left as it is, and then
    no nonce is drawn and the clock is not read. *)
Theorem toMessage_only_fills_defaults
    (E : Env) (this : SiweMessage) (w : World)
    (text : string) (m : SiweMessage) (w' : World) :
  toMessage E this w = (Ok (text, m), w') ->
  m = set_issuedAt (set_nonce this (nonce m)) (issuedAt m)
  /\ (truthy (nonce this) = true ->
      nonce m = nonce this /\ rng_calls w' = rng_calls w)
  /\ (truthy (nonce this) = false ->
      generateNonce_at E (rng_calls w) = Ok (elt (nonce m))
      /\ nonce m <> None
      /\ rng_calls w' = S (rng_calls w))
  /\ (truthy (issuedAt this) = true ->
      issuedAt m = issuedAt this /\ clock_calls w' = clock_calls w)
  /\ (truthy (issuedAt this) = false ->
      issuedAt m = Some (toISOString E (now_at E (clock_calls w)))
      /\ clock_calls w' = S (clock_calls w)).
Proof.
  rewrite toMessage_text.
  unfold fill_nonce, fill_issuedAt, bind, ret.
  destruct (truthy (nonce this)) eqn:Hn.
  2: unfold generateNonce; destruct (generateNonce_at E (rng_calls w)) as [n|e];
     [|discriminate].
  all: cbn [issuedAt set_nonce];
    destruct (truthy (issuedAt this)) eqn:Hi; cbn [new_Date].
  all: intros [= <- <- <-]; destruct this; cbn in *;
    repeat split; intros; try reflexivity; try discriminate; congruence.
Qed.

(** X1 at [draft_message], which has neither nonce nor [issuedAt]. *)
Lemma toMessage_only_fills_defaults_witness :
  nonce draft_filled <> None /\ rng_calls (mkWorld 1 1) = 1%nat.
Proof.
  pose proof (toMessage_only_fills_defaults sample_env draft_message
                sample_world draft_text draft_filled (mkWorld 1 1) eq_refl)
    as (_ & _ & H & _).
  destruct (H eq_refl) as (_ & Hn & Hr). split; assumption.
Defined.

(** X2: [toMessage] throws exactly when the nonce is falsy and
    [generateNonce] throws, with the error of the generator; on an
    object whose nonce is set it always returns. *)
Theorem toMessage_throws_iff
    (E : Env) (this : SiweMessage) (w : World) (e : JsError) (w' : World) :
  toMessage E this w = (Throws e, w')
  <-> truthy (nonce this) = false
      /\ generateNonce_at E (rng_calls w) = Throws e
      /\ w' = mkWorld (S (rng_calls w)) (clock_calls w).
Proof.
  rewrite toMessage_text.
  unfold fill_nonce, fill_issuedAt, bind, ret.
  destruct (truthy (nonce this)) eqn:Hn.
  - destruct (truthy (issuedAt this)); cbn [new_Date];
      split; [discriminate|intros [? _]; discriminate
             |discriminate|intros [? _]; discriminate].
  - unfold generateNonce.
    destruct (generateNonce_at E (rng_calls w)) as [n|e0].
    + match goal with
      | |- context [truthy (issuedAt ?m)] => destruct (truthy (issuedAt m))
      end; cbn [new_Date];
        (split; [discriminate|intros (_ & ? & _); discriminate]).
    + split.
      * intros [= <- <-]. auto.
      * intros (_ & [= <-] & ->). reflexivity.
Qed.

(** X3: serializing is repeatable after the first call: on the object a
    call of [toMessage] has left, with its nonce and [issuedAt] set,
    every later call returns the same text, writes nothing, draws no
    nonce and does not read the clock. *)
Theorem toMessage_repeatable
    (E : Env) (this : SiweMessage) (w : World)
    (text : string) (m : SiweMessage) (w' : World) :
  toMessage E this w = (Ok (text, m), w') ->
  truthy (nonce m) = true ->
  truthy (issuedAt m) = true ->
  forall w2, toMessage E m w2 = (Ok (text, m), w2).
Proof.
  intros H Hn Hi w2.
  assert (Htext : text = join LF (message_lines m)).
  { rewrite <- prepareMessage_toMessage in H.
    now apply prepareMessage_this in H as (-> & _). }
  rewrite toMessage_text. unfold fill_nonce, fill_issuedAt, bind, ret.
  now rewrite Hn, Hi, Htext.
Qed.

Lemma toMessage_repeatable_witness :
  toMessage sample_env draft_filled (mkWorld 7 9)
  = (Ok (draft_text, draft_filled), mkWorld 7 9).
Proof.
  apply (toMessage_repeatable sample_env draft_message sample_world
           draft_text draft_filled (mkWorld 1 1)); reflexivity.
Defined.

(** X4: the serializer is injective on well-formed messages: two
    well-formed messages with the same text are equal on every field. *)
Theorem toMessage_injective
    (E : Env) (m1 m2 : SiweMessage) (w1 w2 : World)
    (text : string) (r1 r2 : SiweMessage) (w1' w2' : World) :
  well_formed m1 = true ->
  well_formed m2 = true ->
  toMessage E m1 w1 = (Ok (text, r1), w1') ->
  toMessage E m2 w2 = (Ok (text, r2), w2') ->
  m1 = m2.
Proof.
  intros Hwf1 Hwf2 H1 H2.
  destruct (well_formed_round_trip E m1 w1 Hwf1) as [Hp1 _].
  destruct (well_formed_round_trip E m2 w2 Hwf2) as [Hp2 _].
  rewrite prepareMessage_toMessage in Hp1, Hp2.
  rewrite Hp1 in H1. rewrite Hp2 in H2.
  assert (Ht1 : join LF (message_lines m1) = text) by congruence.
  assert (Ht2 : join LF (message_lines m2) = text) by congruence.
  pose proof (parse_well_formed m1 Hwf1) as P1.
  pose proof (parse_well_formed m2 Hwf2) as P2.
  rewrite Ht1 in P1. rewrite Ht2 in P2.
  assert (P : parsed_of m1 = parsed_of m2) by congruence.
  rewrite <- (message_of_parsed_of m1 Hwf1), <- (message_of_parsed_of m2 Hwf2).
  now rewrite P.
Qed.

Lemma toMessage_injective_witness :
  sample_message = sample_message.
Proof.
  apply (toMessage_injective sample_env sample_message sample_message
           sample_world sample_world sample_text sample_message
           sample_message sample_world sample_world); reflexivity.
Defined.

(** X5: the chain line is always [Chain ID: ] followed by the chain
    identifier as a template renders it, [undefined] when there is none:
    the ['1'] after [||] on line 127 is never used. *)
Theorem toMessage_chain_line
    (E : Env) (this : SiweMessage) (w : World)
    (text : string) (m : SiweMessage) (w' : World) :
  toMessage E this w = (Ok (text, m), w') ->
  exists before after,
    text =
      before ++ LF ++ "Chain ID: " ++ num_tpl (chainId this) ++ LF
        ++ "Nonce: " ++ tpl (nonce m) ++ LF ++ after.
Proof.
  intros H.
  assert (Hc : chainId m = chainId this).
  { rewrite <- prepareMessage_toMessage in H.
    apply prepareMessage_this in H as (_ & -> & _). reflexivity. }
  rewrite <- prepareMessage_toMessage in H.
  apply prepareMessage_this in H as (-> & _).
  rewrite <- Hc.
  set (P := ([header_line m; elt (address m); ""] ++ statement_lines m
             ++ [""; field_line "URI: " (tpl (uri m));
                 field_line "Version: " (tpl (version m))])%list).
  set (R := (field_line "Issued At: " (tpl (issuedAt m))
             :: optional_line "Expiration Time: " (expirationTime m)
             ++ optional_line "Not Before: " (notBefore m)
             ++ optional_line "Request ID: " (requestId m)
             ++ resources_lines m)%list).
  assert (Hlines : message_lines m =
                   (P ++ [field_line "Chain ID: " (num_tpl (chainId m));
                          field_line "Nonce: " (tpl (nonce m))] ++ R)%list).
  { unfold message_lines, P, R. cbn [app]. rewrite <- !app_assoc. reflexivity. }
  exists (join LF P), (join LF R).
  rewrite Hlines. unfold join.
  rewrite concat_app by (subst P R; discriminate).
  cbn [app]. rewrite !concat_cons_cons. unfold field_line at 1 2.
  subst R. rewrite !string_app_assoc. reflexivity.
Qed.

Lemma toMessage_chain_line_witness :
  exists before after,
    draft_text =
      before ++ LF ++ "Chain ID: " ++ "undefined" ++ LF
        ++ "Nonce: " ++ "abcdefgh12345678" ++ LF ++ after.
Proof.
  apply (toMessage_chain_line sample_env draft_message sample_world
           draft_text draft_filled (mkWorld 1 1)).
  reflexivity.
Defined.

(** X6: an empty array of resources is still rendered: the text ends
    with the line [Resources:], with no entry after it. *)
Theorem toMessage_empty_resources
    (E : Env) (this : SiweMessage) (w : World)
    (text : string) (m : SiweMessage) (w' : World) :
  toMessage E this w = (Ok (text, m), w') ->
  resources this = Some [] ->
  exists before, text = before ++ LF ++ "Resources:".
Proof.
  intros H Hr.
  rewrite <- prepareMessage_toMessage in H.
  apply prepareMessage_this in H as (-> & Hm & _).
  assert (Hr' : resources m = Some []) by (rewrite Hm; exact Hr).
  set (P := ([header_line m; elt (address m); ""] ++ statement_lines m
             ++ [""; field_line "URI: " (tpl (uri m));
                 field_line "Version: " (tpl (version m));
                 field_line "Chain ID: " (num_tpl (chainId m));
                 field_line "Nonce: " (tpl (nonce m));
                 field_line "Issued At: " (tpl (issuedAt m))]
             ++ optional_line "Expiration Time: " (expirationTime m)
             ++ optional_line "Not Before: " (notBefore m)
             ++ optional_line "Request ID: " (requestId m))%list).
  assert (Hlines : message_lines m = (P ++ ["Resources:"])%list).
  { unfold message_lines, P, resources_lines. rewrite Hr'.
    cbn [map]. rewrite <- !app_assoc. reflexivity. }
  exists (join LF P). rewrite Hlines. unfold join.
  rewrite concat_app by (subst P; discriminate). reflexivity.
Qed.

Lemma toMessage_empty_resources_witness :
  exists before, draft_text = before ++ LF ++ "Resources:".
Proof.
  apply (toMessage_empty_resources sample_env draft_message sample_world
           draft_text draft_filled (mkWorld 1 1)); reflexivity.
Defined.

(** ** The events of a call *)

Lemma events_fail opts r x :
  events (fail opts r x) = (events x ++ [fail_event opts r])%list.
Proof. unfold fail, fail_event. now destruct (suppresses opts). Qed.

Lemma events_fail_if opts e x :
  events (fail_if opts e x) =
  (events x ++ map (fun e => fail_event opts (failure e)) (option_list e))%list.
Proof.
  destruct e as [e|]; cbn [fail_if option_list map].
  - apply events_fail.
  - now rewrite app_nil_r.
Qed.

Lemma events_join_proofs opts e f x :
  events (join_proofs opts e f x) =
  (events x ++ [verdict_event opts (match f with Some r => r | None => e end)])%list.
Proof.
  unfold join_proofs, verdict_event.
  destruct f as [r|]; [destruct (success r) | destruct (success e)];
    try apply events_fail; reflexivity.
Qed.

Lemma events_recover E text sig x :
  events (snd (recover E text sig x)) =
  (events x ++ EvVerifyMessage text sig
     :: match verifyMessage E text sig with
        | Throws e => [EvConsoleError e]
        | Ok _ => []
        end)%list.
Proof.
  unfold recover. destruct (verifyMessage E text sig); cbn; [reflexivity|].
  now rewrite <- app_assoc.
Qed.

Lemma events_contract_wallet_and_fallback E opts this params addr x :
  events (contract_wallet_and_fallback E opts this params addr x) =
  (events x
   ++ EvCheckContractWallet this (VerifyParams.signature params)
        (VerifyOpts.provider (VerifyOpts.fields opts))
   :: match VerifyOpts.verificationFallback opts with
      | Some _ =>
          [EvFallback this
             (EIP1271Promise this addr
                (checkContractWalletSignature E this
                   (VerifyParams.signature params)
                   (VerifyOpts.provider (VerifyOpts.fields opts))))]
      | None => []
      end
   ++ match proofs_verdict E opts this params addr with
      | Some r => [verdict_event opts r]
      | None => []
      end)%list.
Proof.
  unfold contract_wallet_and_fallback, proofs_verdict; cbv zeta.
  destruct (EIP1271Promise _ _ _) as [e|];
    destruct (VerifyOpts.verificationFallback opts) as [f|];
    try destruct (fallback_element _) as [[r|]|];
    rewrite ?events_join_proofs; cbn [events emit];
    rewrite <- ?app_assoc; cbn [app]; rewrite ?app_nil_r; reflexivity.
Qed.

(** The whole trace of [verify]. *)
Lemma verify_trace E this params opts_arg w :
  trace (verify E this params opts_arg w) =
  expected_trace E this params opts_arg w.
Proof.
  unfold verify, expected_trace, check_failures, serialized,
    signature_events; cbv zeta.
  set (opts := match opts_arg with Some o => o | None => default_opts end).
  rewrite check_params_keys_fail_if, check_opts_keys_fail_if,
    check_scheme_fail_if, check_domain_fail_if, check_nonce_fail_if.
  destruct (check_time E (VerifyParams.time params) w) as [checkTime w1].
  rewrite check_expiration_fail_if, check_not_before_fail_if.
  set (x := fail_if opts (not_before_failure E this checkTime) _).
  match goal with
  | |- _ = (map ?f ?l ++ _)%list =>
      assert (Hx : events x = map f l)
  end.
  { subst x. rewrite !events_fail_if. cbn [events new_Promise app].
    rewrite !map_app, <- !app_assoc. reflexivity. }
  clearbody x. rewrite <- Hx.
  unfold serialize_or_fail.
  destruct (prepareMessage E this w1) as [[[text this']|e] w2]; cbn [fst snd].
  - destruct (recover E (Some text) (VerifyParams.signature params) x)
      as [addr x'] eqn:Hrec.
    pose proof (settled_recover E (Some text) (VerifyParams.signature params) x)
      as [_ Ha].
    pose proof (events_recover E (Some text) (VerifyParams.signature params) x)
      as He.
    rewrite Hrec in Ha, He; cbn [fst snd] in Ha, He. subst addr.
    destruct (negb (differs _ _)); cbn [trace].
    + cbn [events resolve settle emit]. rewrite He, <- !app_assoc. reflexivity.
    + rewrite events_contract_wallet_and_fallback, He, <- !app_assoc.
      reflexivity.
  - destruct (recover E None (VerifyParams.signature params) _)
      as [addr x'] eqn:Hrec.
    match type of Hrec with recover _ _ _ ?y = _ =>
      pose proof (settled_recover E None (VerifyParams.signature params) y)
        as [_ Ha];
      pose proof (events_recover E None (VerifyParams.signature params) y)
        as He
    end.
    rewrite Hrec in Ha, He; cbn [fst snd] in Ha, He. subst addr.
    rewrite events_fail in He.
    destruct (negb (differs _ _)); cbn [trace].
    + cbn [events resolve settle emit]. rewrite He, <- !app_assoc. reflexivity.
    + rewrite events_contract_wallet_and_fallback, He, <- !app_assoc.
      reflexivity.
Qed.

(** The world as [verify] leaves it. *)
Lemma verify_world_after E this params opts_arg w :
  world_after (verify E this params opts_arg w) =
  snd (prepareMessage E this
         (snd (check_time E (VerifyParams.time params) w))).
Proof.
  unfold verify, serialize_or_fail; cbv zeta.
  destruct (check_time E (VerifyParams.time params) w) as [checkTime w1].
  cbn [snd].
  destruct (prepareMessage E this w1) as [[[text this']|e] w2];
    destruct (recover _ _ _ _) as [addr x'];
    destruct (negb (differs _ _)); reflexivity.
Qed.

Lemma checkInvalidKeys_app a b keys :
  checkInvalidKeys (a ++ b) keys =
  (checkInvalidKeys a keys ++ checkInvalidKeys b keys)%list.
Proof. apply filter_app. Qed.

(** The five named keys of the parameters are recognized: only the other
    keys can be invalid. *)
Lemma checkInvalidKeys_params p :
  checkInvalidKeys (params_keys p) VerifyParamsKeys =
  checkInvalidKeys (VerifyParams.other_keys p) VerifyParamsKeys.
Proof.
  unfold params_keys.
  change ("signature" :: ?l)%list with (["signature"] ++ l)%list.
  rewrite !checkInvalidKeys_app.
  destruct (VerifyParams.scheme p), (VerifyParams.domain p),
    (VerifyParams.nonce p), (VerifyParams.time p); reflexivity.
Qed.

Lemma checkInvalidKeys_opts o :
  checkInvalidKeys (opts_keys o) VerifyOptsKeys =
  checkInvalidKeys (VerifyOpts.other_keys (VerifyOpts.fields o)) VerifyOptsKeys.
Proof.
  unfold opts_keys. rewrite !checkInvalidKeys_app.
  destruct (VerifyOpts.suppressExceptions (VerifyOpts.fields o)),
    (VerifyOpts.provider (VerifyOpts.fields o)),
    (VerifyOpts.verificationFallback o); reflexivity.
Qed.

Lemma checkInvalidKeys_In k obj_keys keys :
  In k (checkInvalidKeys obj_keys keys) <-> In k obj_keys /\ ~ In k keys.
Proof.
  unfold checkInvalidKeys. rewrite filter_In. split; intros [Hin H]; split;
    try assumption.
  - intros Hk. apply negb_true_iff in H.
    assert (existsb (String.eqb k) keys = true).
    { apply existsb_exists. exists k. split; [assumption|apply String.eqb_refl]. }
    congruence.
  - apply negb_true_iff. destruct (existsb (String.eqb k) keys) eqn:Hex;
      [|reflexivity].
    apply existsb_exists in Hex as (k' & Hk' & Heq).
    apply String.eqb_eq in Heq. subst k'. contradiction.
Qed.

(** ** Verification *)

Lemma first_failure_params_keys E this params opts c e :
  params_keys_failure params = Some e ->
  first_failure E this params opts c = Some e.
Proof. intros H. unfold first_failure. now rewrite H. Qed.

(** X7: a call whose parameters carry a key that is not recognized fails
    with the [Error] that lists the invalid keys, whatever else holds of
    the call, this check being the first; with recognized parameter keys,
    an unrecognized key of the options fails the call with the [Error]
    for [VerifyOpts]. *)
Theorem unknown_key_fails
    (E : Env) (this : SiweMessage) (params : VerifyParams.t)
    (opts_arg : option VerifyOpts.t) (w : World) (k : string) :
  let opts := match opts_arg with Some o => o | None => default_opts end in
  let run := verify E this params opts_arg w in
  (In k (VerifyParams.other_keys params) ->
   ~ In k VerifyParamsKeys ->
   exists invalid,
     In k invalid
     /\ outcome run =
        Some (deliver opts (failure (invalid_keys_error invalid "VerifyParams"))))
  /\ (checkInvalidKeys (VerifyParams.other_keys params) VerifyParamsKeys = [] ->
      In k (VerifyOpts.other_keys (VerifyOpts.fields opts)) ->
      ~ In k VerifyOptsKeys ->
      exists invalid,
        In k invalid
        /\ outcome run =
           Some (deliver opts (failure (invalid_keys_error invalid "VerifyOpts")))).
Proof.
  cbv zeta. split.
  - intros Hin Hnot.
    exists (checkInvalidKeys (params_keys params) VerifyParamsKeys).
    assert (Hk : In k (checkInvalidKeys (params_keys params) VerifyParamsKeys)).
    { rewrite checkInvalidKeys_params. apply checkInvalidKeys_In. auto. }
    split; [exact Hk|].
    rewrite verify_outcome. unfold short_circuit_verify.
    destruct (check_time E (VerifyParams.time params) w) as [c w1].
    rewrite (first_failure_params_keys E this params _ c
               (invalid_keys_error
                  (checkInvalidKeys (params_keys params) VerifyParamsKeys)
                  "VerifyParams")); [reflexivity|].
    unfold params_keys_failure; cbv zeta.
    destruct (checkInvalidKeys (params_keys params) VerifyParamsKeys);
      [destruct Hk|reflexivity].
  - intros Hparams Hin Hnot.
    set (opts := match opts_arg with Some o => o | None => default_opts end) in *.
    exists (checkInvalidKeys (opts_keys opts) VerifyOptsKeys).
    assert (Hk : In k (checkInvalidKeys (opts_keys opts) VerifyOptsKeys)).
    { rewrite checkInvalidKeys_opts. apply checkInvalidKeys_In. auto. }
    split; [exact Hk|].
    rewrite verify_outcome. unfold short_circuit_verify. fold opts.
    destruct (check_time E (VerifyParams.time params) w) as [c w1].
    unfold first_failure, params_keys_failure, opts_keys_failure; cbv zeta.
    rewrite checkInvalidKeys_params, Hparams. cbn [List.length Nat.ltb Nat.leb first_some].
    destruct (checkInvalidKeys (opts_keys opts) VerifyOptsKeys);
      [destruct Hk|reflexivity].
Qed.

(** X7 at [unknown_key_params], whose key [chainId] is not a parameter
    of [verify]. *)
Lemma unknown_key_fails_witness :
  exists invalid,
    In "chainId" invalid
    /\ outcome (verify sample_env sample_message unknown_key_params None
                  sample_world)
       = Some (deliver default_opts
                 (failure (invalid_keys_error invalid "VerifyParams"))).
Proof.
  apply (proj1 (unknown_key_fails sample_env sample_message unknown_key_params
                  None sample_world "chainId")).
  - left. reflexivity.
  - unfold VerifyParamsKeys. cbn.
    intros [H|[H|[H|[H|[H|[]]]]]]; discriminate H.
Defined.

(** X8: the errors of the scheme and nonce bindings.  With recognized
    keys, a scheme override that is not the message's scheme fails the
    call with [SCHEME_MISMATCH], carrying the override as expected and
    the message's scheme as received; when scheme and domain pass, a
    nonce override that is not the message's nonce fails it with
    [NONCE_MISMATCH], whatever the times and the signature are. *)
Theorem binding_mismatch_errors
    (E : Env) (this : SiweMessage) (params : VerifyParams.t)
    (opts_arg : option VerifyOpts.t) (w : World) :
  let opts := match opts_arg with Some o => o | None => default_opts end in
  let run := verify E this params opts_arg w in
  params_keys_failure params = None ->
  opts_keys_failure opts = None ->
  (truthy (VerifyParams.scheme params) = true ->
   differs (VerifyParams.scheme params) (scheme this) = true ->
   outcome run =
   Some (deliver opts
           (failure (SiweError SCHEME_MISMATCH (VerifyParams.scheme params)
                       (scheme this)))))
  /\ (binding_failure SCHEME_MISMATCH (VerifyParams.scheme params) (scheme this)
      = None ->
      binding_failure DOMAIN_MISMATCH (VerifyParams.domain params) (domain this)
      = None ->
      truthy (VerifyParams.nonce params) = true ->
      differs (VerifyParams.nonce params) (nonce this) = true ->
      outcome run =
      Some (deliver opts
              (failure (SiweError NONCE_MISMATCH (VerifyParams.nonce params)
                          (nonce this))))).
Proof.
  cbv zeta. intros Hp Ho.
  rewrite verify_outcome. unfold short_circuit_verify, first_failure.
  destruct (check_time E (VerifyParams.time params) w) as [c w1].
  rewrite Hp, Ho. split.
  - intros Ht Hd. now rewrite (binding_failure_some _ _ _ Ht Hd).
  - intros Hs Hdom Ht Hd.
    now rewrite Hs, Hdom, (binding_failure_some _ _ _ Ht Hd).
Qed.

Lemma binding_mismatch_errors_witness :
  outcome (verify sample_env sample_message
             (VerifyParams.mk "0xAbC" None None (Some "zzzzzzzz") None [])
             None sample_world)
  = Some (Rejects
            (failure (SiweError NONCE_MISMATCH (Some "zzzzzzzz")
                        (Some "abcdefgh")))).
Proof.
  apply (proj2 (binding_mismatch_errors sample_env sample_message
                  (VerifyParams.mk "0xAbC" None None (Some "zzzzzzzz") None [])
                  None sample_world eq_refl eq_refl));
    reflexivity.
Defined.

Lemma binding_failure_same_override type a b actual :
  same_override a b ->
  binding_failure type a actual = binding_failure type b actual.
Proof.
  unfold binding_failure. intros [->|[Ha Hb]]; [reflexivity|].
  now rewrite Ha, Hb.
Qed.

Lemma check_time_same_override E a b w :
  same_override a b -> check_time E a w = check_time E b w.
Proof.
  unfold check_time. intros [->|[Ha Hb]]; [reflexivity|].
  now rewrite Ha, Hb.
Qed.

Lemma contract_wallet_no_fallback E opts this p p' addr x :
  VerifyOpts.verificationFallback opts = None ->
  VerifyParams.signature p = VerifyParams.signature p' ->
  contract_wallet_and_fallback E opts this p addr x =
  contract_wallet_and_fallback E opts this p' addr x.
Proof.
  intros Hf Hs. unfold contract_wallet_and_fallback; cbv zeta.
  now rewrite Hf, Hs.
Qed.

(** X9: an override that is the empty string is no override.  When no
    fallback is supplied, two calls whose scheme, domain, nonce and time
    parameters are each the same or both falsy ([undefined] or [''])
    are the same run: the same outcome, the same events, the same
    object and world after. *)
Theorem falsy_overrides_are_ignored
    (E : Env) (this : SiweMessage) (p p' : VerifyParams.t)
    (opts_arg : option VerifyOpts.t) (w : World) :
  VerifyOpts.verificationFallback
    (match opts_arg with Some o => o | None => default_opts end) = None ->
  VerifyParams.signature p = VerifyParams.signature p' ->
  VerifyParams.other_keys p = VerifyParams.other_keys p' ->
  same_override (VerifyParams.scheme p) (VerifyParams.scheme p') ->
  same_override (VerifyParams.domain p) (VerifyParams.domain p') ->
  same_override (VerifyParams.nonce p) (VerifyParams.nonce p') ->
  same_override (VerifyParams.time p) (VerifyParams.time p') ->
  verify E this p opts_arg w = verify E this p' opts_arg w.
Proof.
  intros Hf Hsig Hkeys Hs Hd Hn Ht.
  unfold verify; cbv zeta.
  set (opts := match opts_arg with Some o => o | None => default_opts end) in *.
  rewrite !check_params_keys_fail_if, !check_opts_keys_fail_if,
    !check_scheme_fail_if, !check_domain_fail_if, !check_nonce_fail_if.
  assert (Hpk : params_keys_failure p = params_keys_failure p').
  { unfold params_keys_failure; cbv zeta.
    now rewrite !checkInvalidKeys_params, Hkeys. }
  rewrite Hpk, (binding_failure_same_override _ _ _ _ Hs),
    (binding_failure_same_override _ _ _ _ Hd),
    (binding_failure_same_override _ _ _ _ Hn),
    (check_time_same_override E _ _ w Ht), Hsig.
  destruct (check_time E (VerifyParams.time p') w) as [c w1].
  destruct (serialize_or_fail E opts this w1 _) as [[[text this'] w2] x1].
  destruct (recover E text (VerifyParams.signature p') x1) as [addr x2].
  destruct (negb (differs addr (address this'))); [reflexivity|].
  now rewrite (contract_wallet_no_fallback E opts this' p p' addr x2 Hf Hsig).
Qed.

(** X9 at the example: empty-string overrides against no override. *)
Lemma falsy_overrides_are_ignored_witness :
  verify sample_env sample_message blank_override_params None sample_world
  = verify sample_env sample_message matching_params None sample_world.
Proof.
  apply falsy_overrides_are_ignored; try reflexivity;
    right; split; reflexivity.
Defined.

Lemma first_failure_bindings_pass E this params opts c :
  bindings_pass this params opts ->
  first_failure E this params opts c =
  first_some [expiration_failure E this c; not_before_failure E this c].
Proof.
  intros (Hp & Ho & Hs & Hd & Hn). unfold first_failure.
  now rewrite Hp, Ho, Hs, Hd, Hn.
Qed.

(** The outcome of a call whose signature recovers the address, by the
    first failure of its checks. *)
Lemma direct_match_outcome E this params opts_arg w text this' w2 a :
  prepareMessage E this (snd (check_time E (VerifyParams.time params) w))
  = (Ok (text, this'), w2) ->
  verifyMessage E (Some text) (VerifyParams.signature params) = Ok a ->
  address this = Some a ->
  outcome (verify E this params opts_arg w) =
  match first_failure E this params
          (match opts_arg with Some o => o | None => default_opts end)
          (fst (check_time E (VerifyParams.time params) w)) with
  | Some e =>
      Some (deliver (match opts_arg with Some o => o | None => default_opts end)
              (failure e))
  | None => Some (Resolves success_response)
  end.
Proof.
  intros Hprep Hrec Haddr. rewrite verify_outcome. unfold short_circuit_verify.
  destruct (check_time E (VerifyParams.time params) w) as [c w1].
  cbn [fst snd] in *.
  destruct (first_failure _ _ _ _ _); [reflexivity|].
  rewrite Hprep. cbv zeta. unfold recovered.
  rewrite Hrec, (prepareMessage_address _ _ _ _ _ _ Hprep), Haddr.
  cbn. now rewrite String.eqb_refl.
Qed.

(** X10: the validity interval is exactly [notBefore <= t < expirationTime].
    For a message with both bounds set and parsable, in a call whose
    other checks pass and whose signature recovers the address, [verify]
    resolves with a success if and only if the check time is at or after
    the not-before time and strictly before the expiration time. *)
Theorem validity_window
    (E : Env) (this : SiweMessage) (params : VerifyParams.t)
    (opts_arg : option VerifyOpts.t) (w : World)
    (text a : string) (this' : SiweMessage) (w2 : World)
    (c not_before expiration : Z) :
  let opts := match opts_arg with Some o => o | None => default_opts end in
  bindings_pass this params opts ->
  truthy (expirationTime this) = true ->
  getTime E (tpl (expirationTime this)) = Some expiration ->
  truthy (notBefore this) = true ->
  getTime E (tpl (notBefore this)) = Some not_before ->
  fst (check_time E (VerifyParams.time params) w) = Some c ->
  prepareMessage E this (snd (check_time E (VerifyParams.time params) w))
  = (Ok (text, this'), w2) ->
  verifyMessage E (Some text) (VerifyParams.signature params) = Ok a ->
  address this = Some a ->
  outcome (verify E this params opts_arg w) = Some (Resolves success_response)
  <-> (not_before <= c < expiration)%Z.
Proof.
  cbv zeta. intros Hb He Hexp Hn Hnb Hc Hprep Hrec Haddr.
  rewrite (direct_match_outcome _ _ _ _ _ _ _ _ _ Hprep Hrec Haddr), Hc.
  rewrite (first_failure_bindings_pass _ _ _ _ _ Hb).
  unfold expiration_failure, not_before_failure.
  rewrite Hexp, Hnb, He, Hn. cbn [andb first_some].
  destruct (expiration <=? c)%Z eqn:H1; [|destruct (c <? not_before)%Z eqn:H2].
  - apply Z.leb_le in H1. split; [|lia].
    unfold deliver; cbn.
    destruct (suppresses _); discriminate.
  - apply Z.leb_gt in H1. apply Z.ltb_lt in H2. split; [|lia].
    unfold deliver; cbn.
    destruct (suppresses _); discriminate.
  - apply Z.leb_gt in H1. apply Z.ltb_ge in H2. split; [lia|reflexivity].
Qed.

(** X10 at [bounded_message], checked inside its interval. *)
Lemma validity_window_witness :
  outcome (verify sample_env bounded_message
             (VerifyParams.mk "0xAbC" None None None (Some "1660000000000") [])
             None sample_world)
  = Some (Resolves success_response).
Proof.
  apply (proj2 (validity_window sample_env bounded_message
                  (VerifyParams.mk "0xAbC" None None None
                     (Some "1660000000000") [])
                  None sample_world bounded_text "0xAbC" bounded_message
                  sample_world 1660000000000 1650000000000 1700000000000
                  (conj eq_refl (conj eq_refl (conj eq_refl
                     (conj eq_refl eq_refl))))
                  eq_refl eq_refl eq_refl eq_refl eq_refl eq_refl eq_refl
                  eq_refl)).
  lia.
Defined.

(** X11: a date that does not parse disables the temporal checks.  When
    [params.time] is set and is no valid date, or when the bounds of the
    message are no valid dates, neither temporal check fails (the time
    of an invalid date is [NaN], and every comparison with it is false):
    a call whose other checks pass and whose signature recovers the
    address resolves with a success, whatever the bounds say. *)
Theorem invalid_dates_pass_temporal_checks
    (E : Env) (this : SiweMessage) (params : VerifyParams.t)
    (opts_arg : option VerifyOpts.t) (w : World)
    (text a : string) (this' : SiweMessage) (w2 : World) :
  let opts := match opts_arg with Some o => o | None => default_opts end in
  bindings_pass this params opts ->
  (truthy (VerifyParams.time params) = true
   /\ getTime E (tpl (VerifyParams.time params)) = None)
  \/ (getTime E (tpl (expirationTime this)) = None
      /\ getTime E (tpl (notBefore this)) = None) ->
  prepareMessage E this (snd (check_time E (VerifyParams.time params) w))
  = (Ok (text, this'), w2) ->
  verifyMessage E (Some text) (VerifyParams.signature params) = Ok a ->
  address this = Some a ->
  outcome (verify E this params opts_arg w) = Some (Resolves success_response).
Proof.
  cbv zeta. intros Hb Hdates Hprep Hrec Haddr.
  rewrite (direct_match_outcome _ _ _ _ _ _ _ _ _ Hprep Hrec Haddr).
  rewrite (first_failure_bindings_pass _ _ _ _ _ Hb).
  unfold expiration_failure, not_before_failure.
  destruct Hdates as [[Ht Hnone]|[He Hn]].
  - unfold check_time. rewrite Ht. cbn [fst]. rewrite Hnone. reflexivity.
  - rewrite He, Hn.
    now destruct (fst (check_time E (VerifyParams.time params) w)).
Qed.

(** X11 at [expired_message], checked at the time ["yesterday"], which
    the example environment does not parse. *)
Lemma invalid_dates_pass_temporal_checks_witness :
  outcome (verify sample_env expired_message
             (VerifyParams.mk "0xAbC" None None None (Some "yesterday") [])
             None sample_world)
  = Some (Resolves success_response).
Proof.
  apply (invalid_dates_pass_temporal_checks sample_env expired_message
           (VerifyParams.mk "0xAbC" None None None (Some "yesterday") [])
           None sample_world
           (join LF
              [ "example.com wants you to sign in with your Ethereum account:";
                "0xAbC"; ""; ""; "URI: https://example.com/login";
                "Version: 1"; "Chain ID: 1"; "Nonce: abcdefgh";
                "Issued At: 1600000000000";
                "Expiration Time: 1650000000000" ])
           "0xAbC" expired_message sample_world).
  - repeat split.
  - left. split; reflexivity.
  - reflexivity.
  - reflexivity.
  - reflexivity.
Defined.

(** The outcome of a call that reaches the two proofs. *)
Lemma last_stage_outcome E this params opts_arg w text this' w2 :
  first_failure E this params
    (match opts_arg with Some o => o | None => default_opts end)
    (fst (check_time E (VerifyParams.time params) w)) = None ->
  prepareMessage E this (snd (check_time E (VerifyParams.time params) w))
  = (Ok (text, this'), w2) ->
  differs (recovered E (Some text) (VerifyParams.signature params))
    (address this) = true ->
  outcome (verify E this params opts_arg w) =
  option_map
    (deliver (match opts_arg with Some o => o | None => default_opts end))
    (proofs_verdict E
       (match opts_arg with Some o => o | None => default_opts end)
       this' params
       (recovered E (Some text) (VerifyParams.signature params))).
Proof.
  intros Hnone Hprep Hdiff. rewrite verify_outcome. unfold short_circuit_verify.
  destruct (check_time E (VerifyParams.time params) w) as [c w1].
  cbn [fst snd] in *. rewrite Hnone, Hprep. cbv zeta.
  now rewrite (prepareMessage_address _ _ _ _ _ _ Hprep), Hdiff.
Qed.

(** X12: a failure of the signature recovery is not fatal.  When
    [verifyMessage] throws, the error goes to [console.error], the
    recovered address counts as [undefined], and, the message having an
    address, the contract-wallet adapter is called; when that answers
    [false], no check having failed and no fallback being supplied, the
    call fails with [INVALID_SIGNATURE] carrying [undefined] as the
    recovered address. *)
Theorem recovery_failure_is_not_fatal
    (E : Env) (this : SiweMessage) (params : VerifyParams.t)
    (opts_arg : option VerifyOpts.t) (w : World)
    (text a : string) (this' : SiweMessage) (w2 : World) (e : JsError) :
  let opts := match opts_arg with Some o => o | None => default_opts end in
  let run := verify E this params opts_arg w in
  let signature := VerifyParams.signature params in
  let provider := VerifyOpts.provider (VerifyOpts.fields opts) in
  prepareMessage E this (snd (check_time E (VerifyParams.time params) w))
  = (Ok (text, this'), w2) ->
  verifyMessage E (Some text) signature = Throws e ->
  address this = Some a ->
  In (EvConsoleError e) (trace run)
  /\ In (EvCheckContractWallet this' signature provider) (trace run)
  /\ (first_failure E this params opts
        (fst (check_time E (VerifyParams.time params) w)) = None ->
      VerifyOpts.verificationFallback opts = None ->
      checkContractWalletSignature E this' signature provider = Fulfilled false ->
      outcome run =
      Some (deliver opts
              (failure (SiweError INVALID_SIGNATURE None
                          (Some ("Resolved address to be " ++ a)))))).
Proof.
  cbv zeta. intros Hprep Hrec Haddr.
  assert (Haddr' : address this' = Some a).
  { now rewrite (prepareMessage_address _ _ _ _ _ _ Hprep). }
  assert (Hr : recovered E (Some text) (VerifyParams.signature params) = None).
  { unfold recovered. now rewrite Hrec. }
  split; [|split].
  - rewrite verify_trace. unfold expected_trace, serialized, signature_events.
    destruct (check_time E (VerifyParams.time params) w) as [c w1].
    cbn [snd] in Hprep. rewrite Hprep. cbn [fst snd]. cbv zeta.
    rewrite Hrec. apply in_or_app. right. apply in_or_app. right.
    right. left. reflexivity.
  - rewrite verify_trace. unfold expected_trace, serialized, signature_events.
    destruct (check_time E (VerifyParams.time params) w) as [c w1].
    cbn [snd] in Hprep. rewrite Hprep. cbn [fst snd]. cbv zeta.
    rewrite Hrec, Hr, Haddr'. cbn [differs negb].
    apply in_or_app. right. apply in_or_app. right.
    right. right. left. reflexivity.
  - intros Hnone Hf Hcw.
    rewrite (last_stage_outcome _ _ _ _ _ _ _ _ Hnone Hprep)
      by (rewrite Hr, Haddr; reflexivity).
    unfold proofs_verdict; cbv zeta.
    rewrite Hr, Hf, Hcw. cbn [EIP1271Promise negb option_map].
    now rewrite Haddr'.
Qed.

(** X12 at the environment whose recovery throws. *)
Lemma recovery_failure_is_not_fatal_witness :
  In (EvConsoleError (Error "invalid signature"))
     (trace (verify failing_env sample_message matching_params None
               sample_world)).
Proof.
  apply (recovery_failure_is_not_fatal failing_env sample_message
           matching_params None sample_world sample_text "0xAbC"
           sample_message (mkWorld 0 1) (Error "invalid signature"));
    reflexivity.
Defined.

(** X13: the result of the contract-wallet proof when no fallback is
    supplied, in a call that reaches it (no check failed, the recovered
    address is not the message's).  An answer [true] resolves the call
    with a success; an answer [false] fails it with [INVALID_SIGNATURE],
    carrying the recovered address and the message's address; a
    rejection of the adapter fails it with the adapter's own error, not
    with [INVALID_SIGNATURE]; and while the adapter's promise never
    settles, neither does the call. *)
Theorem contract_wallet_result_without_fallback
    (E : Env) (this : SiweMessage) (params : VerifyParams.t)
    (opts_arg : option VerifyOpts.t) (w : World)
    (text : string) (this' : SiweMessage) (w2 : World) :
  let opts := match opts_arg with Some o => o | None => default_opts end in
  let run := verify E this params opts_arg w in
  let signature := VerifyParams.signature params in
  let provider := VerifyOpts.provider (VerifyOpts.fields opts) in
  let addr := recovered E (Some text) signature in
  first_failure E this params opts
    (fst (check_time E (VerifyParams.time params) w)) = None ->
  prepareMessage E this (snd (check_time E (VerifyParams.time params) w))
  = (Ok (text, this'), w2) ->
  differs addr (address this) = true ->
  VerifyOpts.verificationFallback opts = None ->
  outcome run =
  match checkContractWalletSignature E this' signature provider with
  | Fulfilled true => Some (Resolves success_response)
  | Fulfilled false =>
      Some (deliver opts
              (failure (SiweError INVALID_SIGNATURE addr
                          (Some ("Resolved address to be "
                                   ++ tpl (address this))))))
  | Rejected e => Some (deliver opts (failure e))
  | Pending => None
  end.
Proof.
  cbv zeta. intros Hnone Hprep Hdiff Hf.
  rewrite (last_stage_outcome _ _ _ _ _ _ _ _ Hnone Hprep Hdiff).
  unfold proofs_verdict; cbv zeta. rewrite Hf.
  destruct (checkContractWalletSignature E this' _ _) as [[|]|e|];
    cbn [EIP1271Promise negb option_map];
    rewrite ?(prepareMessage_address _ _ _ _ _ _ Hprep); reflexivity.
Qed.

(** X13 at the environment whose contract-wallet check rejects: the
    call is rejected with the error of the adapter. *)
Lemma contract_wallet_result_without_fallback_witness :
  outcome (verify failing_env sample_message matching_params None sample_world)
  = Some (Rejects (failure (Error "network down"))).
Proof.
  apply (contract_wallet_result_without_fallback failing_env sample_message
           matching_params None sample_world sample_text sample_message
           (mkWorld 0 1)); reflexivity.
Defined.

(** X14: a fallback that gives no response leaves the decision to the
    contract-wallet proof.  When the fallback returns [undefined], or a
    promise that is fulfilled or rejected with a falsy value, a call
    that reaches the last stage ends in the response of the
    contract-wallet proof. *)
Theorem silent_fallback_defers_to_contract_wallet
    (E : Env) (this : SiweMessage) (params : VerifyParams.t)
    (opts_arg : option VerifyOpts.t) (w : World)
    (text : string) (this' : SiweMessage) (w2 : World)
    (cw : SiweResponse) (f : VerifyOpts.Fallback) :
  let opts := match opts_arg with Some o => o | None => default_opts end in
  let run := verify E this params opts_arg w in
  let signature := VerifyParams.signature params in
  let provider := VerifyOpts.provider (VerifyOpts.fields opts) in
  let addr := recovered E (Some text) signature in
  first_failure E this params opts
    (fst (check_time E (VerifyParams.time params) w)) = None ->
  prepareMessage E this (snd (check_time E (VerifyParams.time params) w))
  = (Ok (text, this'), w2) ->
  differs addr (address this) = true ->
  EIP1271Promise this' addr
    (checkContractWalletSignature E this' signature provider) = Some cw ->
  VerifyOpts.verificationFallback opts = Some f ->
  f params (VerifyOpts.fields opts) this' (Some cw) = None
  \/ f params (VerifyOpts.fields opts) this' (Some cw) = Some (Fulfilled None)
  \/ f params (VerifyOpts.fields opts) this' (Some cw) = Some (Rejected None) ->
  outcome run = Some (deliver opts cw).
Proof.
  cbv zeta. intros Hnone Hprep Hdiff Hcw Hf Hret.
  rewrite (last_stage_outcome _ _ _ _ _ _ _ _ Hnone Hprep Hdiff).
  unfold proofs_verdict; cbv zeta. rewrite Hcw, Hf.
  destruct Hret as [->|[->| ->]]; reflexivity.
Qed.

Lemma silent_fallback_defers_to_contract_wallet_witness :
  outcome (verify sample_env sample_message
             (VerifyParams.mk "0xdead" None None None None [])
             (Some silent_fallback_opts) sample_world)
  = Some (Rejects
            (failure (SiweError INVALID_SIGNATURE (Some "0xdead")
                        (Some "Resolved address to be 0xAbC")))).
Proof.
  apply (silent_fallback_defers_to_contract_wallet sample_env sample_message
           (VerifyParams.mk "0xdead" None None None None [])
           (Some silent_fallback_opts) sample_world sample_text sample_message
           (mkWorld 0 1)
           (failure (SiweError INVALID_SIGNATURE (Some "0xdead")
                       (Some "Resolved address to be 0xAbC")))
           (fun _ _ _ _ => None));
    try reflexivity.
  left. reflexivity.
Defined.

(** When the two proofs give no response. *)
Lemma proofs_verdict_none E opts this params addr :
  proofs_verdict E opts this params addr = None
  <-> checkContractWalletSignature E this (VerifyParams.signature params)
        (VerifyOpts.provider (VerifyOpts.fields opts)) = Pending
      \/ exists f,
           VerifyOpts.verificationFallback opts = Some f
           /\ f params (VerifyOpts.fields opts) this
                (EIP1271Promise this addr
                   (checkContractWalletSignature E this
                      (VerifyParams.signature params)
                      (VerifyOpts.provider (VerifyOpts.fields opts))))
              = Some Pending.
Proof.
  unfold proofs_verdict; cbv zeta.
  destruct (checkContractWalletSignature E this _ _) as [b|e|] eqn:Hcw.
  3:{ cbn. split; auto. }
  all: match goal with
       | |- context [EIP1271Promise ?t ?a ?s] =>
           assert (Hs : exists cw, EIP1271Promise t a s = Some cw)
             by (cbn; try destruct b; eexists; reflexivity);
           destruct Hs as [cw Hs]; rewrite Hs
       end.
  all: destruct (VerifyOpts.verificationFallback opts) as [f|] eqn:Hf.
  all: try (destruct (f params (VerifyOpts.fields opts) this (Some cw))
              as [[[r|]|[r|]|]|] eqn:Hr; cbn [fallback_element]).
  all: split; intros H;
    [ first [discriminate H | right; exists f; auto]
    | first [reflexivity
            | destruct H as [H|(f' & Hf' & H)];
              [discriminate H
              | first [discriminate Hf' | injection Hf' as <-; congruence]]] ].
Qed.

(** X15: when a call never settles.  The promise of [verify] stays
    pending exactly when no check failed, the message was serialized,
    the recovered address is not the message's, and the contract-wallet
    proof or the promise of the fallback never settles; so a call in
    which a check fails settles even when an adapter hangs. *)
Theorem verify_pending_iff
    (E : Env) (this : SiweMessage) (params : VerifyParams.t)
    (opts_arg : option VerifyOpts.t) (w : World) :
  let opts := match opts_arg with Some o => o | None => default_opts end in
  let run := verify E this params opts_arg w in
  let signature := VerifyParams.signature params in
  let provider := VerifyOpts.provider (VerifyOpts.fields opts) in
  outcome run = None
  <-> first_failure E this params opts
        (fst (check_time E (VerifyParams.time params) w)) = None
      /\ exists text this' w2,
           prepareMessage E this
             (snd (check_time E (VerifyParams.time params) w))
           = (Ok (text, this'), w2)
           /\ differs (recovered E (Some text) signature) (address this')
              = true
           /\ (checkContractWalletSignature E this' signature provider
               = Pending
               \/ exists f,
                    VerifyOpts.verificationFallback opts = Some f
                    /\ f params (VerifyOpts.fields opts) this'
                         (EIP1271Promise this'
                            (recovered E (Some text) signature)
                            (checkContractWalletSignature E this' signature
                               provider))
                       = Some Pending).
Proof.
  cbv zeta. rewrite verify_outcome. unfold short_circuit_verify.
  set (opts := match opts_arg with Some o => o | None => default_opts end).
  destruct (check_time E (VerifyParams.time params) w) as [c w1].
  cbn [fst snd].
  destruct (first_failure E this params opts c) as [e|].
  { split; [discriminate|intros [H _]; discriminate]. }
  destruct (prepareMessage E this w1) as [[[text this']|e] w2].
  2:{ split; [discriminate|].
      intros (_ & t & m & w' & H & _). discriminate. }
  cbv zeta.
  destruct (differs (recovered E (Some text) (VerifyParams.signature params))
              (address this')) eqn:Hd; cbn [negb].
  2:{ split; [discriminate|].
      intros (_ & t & m & w' & [= <- <- <-] & Hd' & _). congruence. }
  pose proof (proofs_verdict_none E opts this' params
                (recovered E (Some text) (VerifyParams.signature params)))
    as Hnone.
  destruct (proofs_verdict E opts this' params _) as [v|]; cbn [option_map].
  - split; [discriminate|].
    intros (_ & t & m & w' & [= <- <- <-] & _ & H).
    apply Hnone in H. discriminate.
  - split; [|reflexivity]. intros _. split; [reflexivity|].
    exists text, this', w2. repeat split; auto. now apply Hnone.
Qed.

(** X15 at an adapter that never answers. *)
Lemma verify_pending_iff_witness :
  outcome (verify hanging_env sample_message unmatched_params None sample_world)
  = None.
Proof.
  apply (proj2 (verify_pending_iff hanging_env sample_message unmatched_params
                  None sample_world)).
  split; [reflexivity|].
  exists sample_text, sample_message, (mkWorld 0 1).
  split; [reflexivity|]. split; [reflexivity|]. left. reflexivity.
Defined.

(** X16: the adapter calls of a call, whatever its checks say: the
    signature recovery is called exactly once and first; the
    contract-wallet adapter at most once, after it; the fallback at most
    once, and only after the contract-wallet adapter. *)
Theorem adapter_calls_shape
    (E : Env) (this : SiweMessage) (params : VerifyParams.t)
    (opts_arg : option VerifyOpts.t) (w : World) :
  let run := verify E this params opts_arg w in
  let signature := VerifyParams.signature params in
  exists text,
    calls (trace run) = [EvVerifyMessage text signature]
    \/ (exists provider,
           calls (trace run) =
           [EvVerifyMessage text signature;
            EvCheckContractWallet (this_after run) signature provider])
    \/ (exists provider EIP1271,
           calls (trace run) =
           [EvVerifyMessage text signature;
            EvCheckContractWallet (this_after run) signature provider;
            EvFallback (this_after run) EIP1271]).
Proof.
  cbv zeta. rewrite verify_calls, verify_this_after. unfold adapter_calls.
  cbv zeta.
  destruct (serialized E this _) as [text this']. cbn [snd].
  exists text.
  destruct (negb (differs _ _)); [now left|].
  destruct (VerifyOpts.verificationFallback _); eauto.
Qed.

(** X17: [verify] is read-only on a complete message.  When the nonce
    and [issuedAt] of the message are set, a call leaves the object as
    it is and draws no nonce; it reads the clock once when no [time]
    parameter is given and not at all when one is. *)
Theorem verify_leaves_complete_message
    (E : Env) (this : SiweMessage) (params : VerifyParams.t)
    (opts_arg : option VerifyOpts.t) (w : World) :
  let run := verify E this params opts_arg w in
  truthy (nonce this) = true ->
  truthy (issuedAt this) = true ->
  this_after run = this
  /\ rng_calls (world_after run) = rng_calls w
  /\ clock_calls (world_after run) =
     if truthy (VerifyParams.time params) then clock_calls w
     else S (clock_calls w).
Proof.
  cbv zeta. intros Hn Hi.
  rewrite verify_this_after, verify_world_after. unfold serialized.
  rewrite prepareMessage_nonce_set by exact Hn. rewrite Hi. cbn [snd].
  unfold check_time. destruct (truthy (VerifyParams.time params));
    cbn; auto.
Qed.

Lemma verify_leaves_complete_message_witness :
  this_after (verify sample_env sample_message matching_params None
                sample_world)
  = sample_message.
Proof.
  apply (verify_leaves_complete_message sample_env sample_message
           matching_params None sample_world); reflexivity.
Defined.

(** X18: every failing check calls [fail].  The trace of a call starts
    with one [fail] event for each check that fails, in the order of
    the checks, not only for the first; the events of the signature
    recovery come after them. *)
Theorem every_failing_check_calls_fail
    (E : Env) (this : SiweMessage) (params : VerifyParams.t)
    (opts_arg : option VerifyOpts.t) (w : World) :
  let opts := match opts_arg with Some o => o | None => default_opts end in
  let run := verify E this params opts_arg w in
  exists rest text,
    trace run =
      (map (fun e => fail_event opts (failure e))
         (check_failures E this params opts
            (fst (check_time E (VerifyParams.time params) w)))
       ++ rest)%list
    /\ In (EvVerifyMessage text (VerifyParams.signature params)) rest.
Proof.
  cbv zeta. rewrite verify_trace. unfold expected_trace.
  destruct (check_time E (VerifyParams.time params) w) as [c w1].
  cbn [fst]. eexists. exists (fst (serialized E this w1)).
  split; [reflexivity|].
  apply in_or_app. right. unfold signature_events. left. reflexivity.
Qed.

(** ** Construction *)

Lemma prepareMessage_issuedAt E this w text m w' :
  prepareMessage E this w = (Ok (text, m), w') ->
  (truthy (issuedAt this) = true -> issuedAt m = issuedAt this)
  /\ (truthy (issuedAt this) = false ->
      issuedAt m = Some (toISOString E (now_at E (clock_calls w)))).
Proof.
  rewrite prepareMessage_toMessage, toMessage_text.
  unfold fill_nonce, fill_issuedAt, bind, ret.
  destruct (truthy (nonce this)) eqn:Hn.
  2: unfold generateNonce; destruct (generateNonce_at E (rng_calls w)) as [n|e];
     [|discriminate].
  all: cbn [issuedAt set_nonce];
    destruct (truthy (issuedAt this)) eqn:Hi; cbn [new_Date].
  all: intros [= <- <- <-]; cbn; split; intros; try reflexivity;
    discriminate.
Qed.

(** X19: the constructor keeps the fields it is given.  A message
    constructed from fields carries the supplied scheme, domain,
    address, statement, uri, version, expiration time, not-before time,
    request id and resources verbatim (what the parser read from the
    text is discarded); its [issuedAt] is the supplied one when that is
    set, and otherwise the time of the clock at the construction. *)
Theorem construction_keeps_fields
    (E : Env) (f : Fields.t) (w : World) (m : SiweMessage) (w' : World) :
  new_SiweMessage E (from_fields f) w = (Ok m, w') ->
  m = set_issuedAt (assembled f (chainId m) (nonce m)) (issuedAt m)
  /\ (truthy (Fields.issuedAt f) = true -> issuedAt m = Fields.issuedAt f)
  /\ (truthy (Fields.issuedAt f) = false ->
      issuedAt m = Some (toISOString E (now_at E (clock_calls w)))).
Proof.
  intros H.
  apply new_from_fields_inv in H
    as (c & n & w1 & text & p & _ & Hn & Hp & _).
  assert (Hclock : clock_calls w1 = clock_calls w).
  { destruct (truthy (Fields.nonce f)).
    - now injection Hn as _ <-.
    - unfold bind, generateNonce, ret in Hn.
      destruct (generateNonce_at E (rng_calls w)); [|discriminate].
      now injection Hn as _ <-. }
  pose proof (prepareMessage_issuedAt _ _ _ _ _ _ Hp) as [Hset Hunset].
  apply prepareMessage_this in Hp as (_ & Hm & _).
  cbn [issuedAt assembled] in Hset, Hunset. rewrite Hclock in Hunset.
  split; [|auto].
  assert (Hcm : chainId m = c) by (rewrite Hm; reflexivity).
  rewrite Hcm. exact Hm.
Qed.

Lemma construction_keeps_fields_witness :
  issuedAt sample_constructed
  = Some (toISOString sample_env (now_at sample_env (clock_calls sample_world))).
Proof.
  apply (construction_keeps_fields sample_env sample_fields sample_world
           sample_constructed (mkWorld 1 1)); reflexivity.
Defined.

(** X20: the order of the failures of the constructor.  A chain
    identifier given as a string that [parseIntegerNumber] rejects makes
    the constructor throw that error before any nonce is drawn and
    before the clock is read; with a chain identifier that converts, a
    missing nonce and a generator that throws make it throw the error
    of the generator. *)
Theorem construction_failures
    (E : Env) (f : Fields.t) (w : World) (e : JsError) :
  (forall s,
      Fields.chainId f = Some (chain_string s) ->
      parseIntegerNumber s = Throws e ->
      new_SiweMessage E (from_fields f) w = (Throws e, w))
  /\ (forall c,
         convert_chainId (Fields.chainId f) w = (Ok c, w) ->
         truthy (Fields.nonce f) = false ->
         generateNonce_at E (rng_calls w) = Throws e ->
         new_SiweMessage E (from_fields f) w
         = (Throws e, mkWorld (S (rng_calls w)) (clock_calls w))).
Proof.
  split.
  - intros s Hc Hs. unfold new_SiweMessage, bind, convert_chainId.
    rewrite Hc, Hs. reflexivity.
  - intros c Hc Hn Hg. unfold new_SiweMessage, bind.
    rewrite Hc, Hn. unfold generateNonce. rewrite Hg. reflexivity.
Qed.

Lemma construction_failures_witness :
  new_SiweMessage sample_env (from_fields bad_chain_fields) sample_world
  = (Throws (Error "Invalid number."), sample_world).
Proof.
  apply (proj1 (construction_failures sample_env bad_chain_fields sample_world
                  (Error "Invalid number.")) "one"); reflexivity.
Defined.

(** X22: construction from a string takes everything from the text.
    When it returns, no nonce was drawn and the clock was not read; the
    nonce, the [issuedAt] and the chain identifier of the message are
    those of the [Nonce:], [Issued At:] and [Chain ID:] lines of the
    text, which follow its [URI:] and [Version:] lines; the nonce has
    at least 8 alphanumeric characters; and serializing the message
    later leaves that nonce and draws none. *)
Theorem construction_from_string
    (E : Env) (text : string) (w : World) (m : SiweMessage) (w' : World) :
  new_SiweMessage E (from_string text) w = (Ok m, w') ->
  w' = w
  /\ (exists front u v cs n i tail z,
         split_lines text = parsed_lines front u v cs n i tail
         /\ (List.length front = 3 \/ List.length front = 4)
         /\ nonce m = Some n
         /\ valid_nonce n = true
         /\ issuedAt m = Some i
         /\ parseIntegerNumber cs = Ok z
         /\ chainId m = Some (chain_number (Int z)))
  /\ (forall w1 text' m' w2,
         prepareMessage E m w1 = (Ok (text', m'), w2) ->
         nonce m' = nonce m /\ rng_calls w2 = rng_calls w1).
Proof.
  rewrite new_from_string.
  destruct (parse_message text) as [p|] eqn:Hp; [|discriminate].
  intros [= <- <-].
  apply parse_message_shape in Hp
    as (front & u & v & cs & tail & HL & Hfront & Hz & Hv & _).
  split; [reflexivity|split].
  - exists front, u, v, cs, (Parsed.nonce p), (Parsed.issuedAt p), tail,
      (Parsed.chainId p).
    repeat split; assumption.
  - intros w1 text' m' w2 Hprep.
    assert (Ht : truthy (nonce (message_of_parsed p)) = true).
    { cbn. now apply valid_nonce_truthy. }
    rewrite prepareMessage_nonce_set in Hprep by exact Ht.
    destruct (truthy (issuedAt (message_of_parsed p)));
      cbv zeta in Hprep; injection Hprep as _ <- <-; auto.
Qed.

(** X22 at [sample_text], which the parser accepts. *)
Lemma construction_from_string_witness :
  exists front u v cs n i tail z,
    split_lines sample_text = parsed_lines front u v cs n i tail
    /\ (List.length front = 3 \/ List.length front = 4)
    /\ nonce sample_message = Some n
    /\ valid_nonce n = true
    /\ issuedAt sample_message = Some i
    /\ parseIntegerNumber cs = Ok z
    /\ chainId sample_message = Some (chain_number (Int z)).
Proof.
  apply (construction_from_string sample_env sample_text sample_world
           sample_message sample_world).
  reflexivity.
Defined.

(** X21: a line feed in the statement, the uri or the version makes the
    construction from fields fail.  The message of a construction that
    returns has a statement, a uri and a version of one line each: the
    parser (modelled from the specification) does not accept the text of
    any other message, so a statement that carries a forged field after
    a line feed does not get through. *)
Theorem constructed_fields_are_single_lines
    (E : Env) (f : Fields.t) (w : World) (m : SiweMessage) (w' : World) :
  new_SiweMessage E (from_fields f) w = (Ok m, w') ->
  statement m = Fields.statement f
  /\ uri m = Fields.uri f
  /\ version m = Fields.version f
  /\ single_line_fields m.
Proof.
  intros H.
  destruct (constructed_text_parses _ _ _ _ _ H) as [p Hparse].
  apply accepted_text_single_lines in Hparse.
  apply new_from_fields_inv in H
    as (c & n & w1 & text & p' & _ & _ & Hp & _).
  apply prepareMessage_this in Hp as (_ & Hm & _).
  repeat split; try apply Hparse; rewrite Hm; reflexivity.
Qed.

Lemma constructed_fields_are_single_lines_witness :
  single_line_fields sample_constructed.
Proof.
  apply (constructed_fields_are_single_lines sample_env sample_fields
           sample_world sample_constructed (mkWorld 1 1)).
  reflexivity.
Defined.

(** The fields of [two_line_statement_fields] are refused, although
    the second line of the statement reads like a field. *)
Example two_line_statement_is_refused :
  new_SiweMessage sample_env (from_fields two_line_statement_fields) sample_world
  = (Throws (Error "MalformedMessage"), sample_world).
Proof. reflexivity. Qed.
